(** * Crawl service: a shallow embedding of [app/services/crawl_service.py]

    The development follows the layout of the Python module: string
    helpers first, then the concurrency registry, the URL helpers, the
    file-name sanitiser, the classifier, the robots cache, the streaming
    downloader, the domain crawler and the session orchestrator.

    Python [str] values are modelled as lists of 8-bit characters, read as
    the code points 0..255; [str.lower] and [str.isalnum] are given the
    values Python has on that range. *)

From Stdlib Require Import PrimFloat.
From Stdlib Require Import String Ascii List NArith ZArith Lia Bool Arith.
From Stdlib Require DecimalString Uint63 FloatOps SpecFloat.
Import ListNotations.

Set Warnings "-inexact-float".

(** ** Python string operations *)

Module PyStr.

Definition str := list ascii.

(** A string literal as a [str]. *)
Definition py (s : string) : str := list_ascii_of_string s.
Arguments py s%_string.

Definition cp (c : ascii) : N := N_of_ascii c.

Definition in_range (lo hi n : N) : bool := (lo <=? n)%N && (n <=? hi)%N.

(** [c.isalnum()] on the code points 0..255. *)
Definition isalnum (c : ascii) : bool :=
  let n := cp c in
  in_range 48 57 n || in_range 65 90 n || in_range 97 122 n
  || existsb (N.eqb n) [170; 178; 179; 181; 185; 186; 188; 189; 190]%N
  || in_range 192 214 n || in_range 216 246 n || in_range 248 255 n.

(** [c.isascii() and c.isalpha()]. *)
Definition is_ascii_alpha (c : ascii) : bool :=
  let n := cp c in in_range 65 90 n || in_range 97 122 n.

(** [c.lower()] on the code points 0..255. *)
Definition lower_char (c : ascii) : ascii :=
  let n := cp c in
  if in_range 65 90 n || in_range 192 214 n || in_range 216 222 n
  then ascii_of_N (n + 32) else c.

Definition lower (s : str) : str := map lower_char s.

Definition char_in (c : ascii) (cs : str) : bool := existsb (Ascii.eqb c) cs.

Fixpoint str_eqb (a b : str) : bool :=
  match a, b with
  | [], [] => true
  | x :: a', y :: b' => Ascii.eqb x y && str_eqb a' b'
  | _, _ => false
  end.

(** [s.startswith(p)] *)
Fixpoint startswith (s p : str) : bool :=
  match p, s with
  | [], _ => true
  | x :: p', y :: s' => Ascii.eqb x y && startswith s' p'
  | _ :: _, [] => false
  end.

(** [s.endswith(p)] *)
Definition endswith (s p : str) : bool := startswith (rev s) (rev p).

(** [needle in hay] *)
Fixpoint contains (needle hay : str) : bool :=
  startswith hay needle ||
  match hay with
  | [] => false
  | _ :: t => contains needle t
  end.

(** [s.lstrip(chars)] and [s.rstrip(chars)] *)
Fixpoint lstrip (chars s : str) : str :=
  match s with
  | [] => []
  | c :: t => if char_in c chars then lstrip chars t else s
  end.

Definition rstrip (chars s : str) : str := rev (lstrip chars (rev s)).

(** [s.replace(old, new)]: leftmost, non-overlapping occurrences.  The
    counter [skip] is the number of characters of a matched occurrence
    still to be dropped. *)
Fixpoint replace_from (old new : str) (skip : nat) (s : str) : str :=
  match s with
  | [] => []
  | c :: t =>
      match skip with
      | S k => replace_from old new k t
      | O =>
          if startswith s old
          then new ++ replace_from old new (length old - 1) t
          else c :: replace_from old new 0 t
      end
  end.

Definition replace (old new s : str) : str :=
  match old with
  | [] => new ++ flat_map (fun c => c :: new) s
  | _ => replace_from old new 0 s
  end.

(** [sep.join(parts)] *)
Fixpoint join (sep : str) (parts : list str) : str :=
  match parts with
  | [] => []
  | [p] => p
  | p :: rest => p ++ sep ++ join sep rest
  end.

(** [s.split(c)] for a one-character separator: never the empty list. *)
Fixpoint split (c : ascii) (s : str) : list str :=
  match s with
  | [] => [[]]
  | x :: t =>
      if Ascii.eqb x c then [] :: split c t
      else match split c t with
           | [] => [[x]]
           | p :: ps => (x :: p) :: ps
           end
  end.

(** [s.split(c, 1)]: the part before the first [c], and the part after
    it when there is one. *)
Fixpoint split_once (c : ascii) (s : str) : str * option str :=
  match s with
  | [] => ([], None)
  | x :: t =>
      if Ascii.eqb x c then ([], Some t)
      else let '(a, b) := split_once c t in (x :: a, b)
  end.

(** [s.removeprefix(p)] *)
Definition removeprefix (p s : str) : str :=
  if startswith s p then skipn (length p) s else s.

(** [l[-n:]] for [n > 0] *)
Definition last_n {A} (n : nat) (l : list A) : list A :=
  skipn (length l - n) l.

End PyStr.
Import PyStr.

Definition nonempty_list {A} (l : list A) : bool :=
  match l with [] => false | _ => true end.

(** ** Exceptions

    Python code either returns a value or raises.  Only the exception
    classes that the handlers of the module tell apart are kept. *)

Inductive exn : Type :=
| ValueError
| UnboundLocalError
| SQLAlchemyError
| RequestsTimeout
| RequestException
| OSError
| OtherException.

Inductive result (A : Type) : Type :=
| Ok (a : A)
| Raise (e : exn).
Arguments Ok {A} a.
Arguments Raise {A} e.

Definition bind {A B} (r : result A) (k : A -> result B) : result B :=
  match r with
  | Ok a => k a
  | Raise e => Raise e
  end.

Notation "x <- c ;; k" := (bind c (fun x => k))
  (at level 61, c at next level, right associativity).
Notation "' p <- c ;; k" := (bind c (fun x => match x with p => k end))
  (at level 61, p pattern, c at next level, right associativity).

(** [str(n)] for a Python [int]. *)
Definition repr_int (z : Z) : str :=
  list_ascii_of_string (DecimalString.NilZero.string_of_int (Z.to_int z)).


(** ** [urllib.parse]

    The functions of the standard library that the module calls, after
    CPython 3.11. *)

Module Url.

(** The check of a bracketed (IPv6 or IPvFuture) host goes through the
    [ipaddress] module and is left to an interface: [bracketed_netloc_ok]
    stands for [_check_bracketed_netloc] returning without an error.
    Address literals are not case sensitive. *)
Class UrlLib : Type := {
  bracketed_netloc_ok : str -> bool;
  bracketed_netloc_ok_lower :
    forall n, bracketed_netloc_ok n = true -> bracketed_netloc_ok (lower n) = true
}.

(** The interface of a Python without that check. *)
Definition permissive_lib : UrlLib :=
  {| bracketed_netloc_ok := fun _ => true;
     bracketed_netloc_ok_lower := fun _ _ => eq_refl |}.

Record ParseResult : Type := {
  scheme : str;
  netloc : str;
  path : str;
  params : str;
  query : str;
  fragment : str
}.

Definition uses_netloc : list str :=
  map py [""; "ftp"; "http"; "gopher"; "nntp"; "telnet"; "imap"; "wais";
          "file"; "mms"; "https"; "shttp"; "snews"; "prospero"; "rtsp";
          "rtspu"; "rsync"; "svn"; "svn+ssh"; "sftp"; "nfs"; "git";
          "git+ssh"; "ws"; "wss"]%string.

Definition uses_params : list str :=
  map py [""; "ftp"; "hdl"; "prospero"; "http"; "imap"; "https"; "shttp";
          "rtsp"; "rtspu"; "sip"; "sips"; "mms"; "sftp"; "tel"]%string.

Definition str_in (s : str) (l : list str) : bool := existsb (str_eqb s) l.

Definition is_scheme_char (c : ascii) : bool :=
  let n := cp c in
  in_range 97 122 n || in_range 65 90 n || in_range 48 57 n
  || char_in c (py "+-.").

(** [_WHATWG_C0_CONTROL_OR_SPACE] *)
Definition is_c0_or_space (c : ascii) : bool := (cp c <=? 32)%N.

(** [_UNSAFE_URL_BYTES_TO_REMOVE]: tab, carriage return, line feed. *)
Definition is_unsafe_byte (c : ascii) : bool :=
  let n := cp c in (n =? 9)%N || (n =? 13)%N || (n =? 10)%N.

Fixpoint dropwhile (p : ascii -> bool) (s : str) : str :=
  match s with
  | [] => []
  | c :: t => if p c then dropwhile p t else s
  end.

Fixpoint takewhile (p : ascii -> bool) (s : str) : str :=
  match s with
  | [] => []
  | c :: t => if p c then c :: takewhile p t else []
  end.

(** The scheme test of [urlsplit]: [i = url.find(':')], [i > 0], the first
    character an ASCII letter and all of [url[:i]] scheme characters. *)
Definition split_scheme (url : str) : str * str :=
  match split_once ":" url with
  | (c :: pre, Some rest) =>
      if is_ascii_alpha c && forallb is_scheme_char (c :: pre)
      then (lower (c :: pre), rest)
      else ([], url)
  | _ => ([], url)
  end.

Definition is_netloc_delim (c : ascii) : bool := char_in c (py "/?#").

(** [_splitnetloc(url, 2)] *)
Definition splitnetloc (url : str) : str * str :=
  let rest := skipn 2 url in
  (takewhile (fun c => negb (is_netloc_delim c)) rest,
   dropwhile (fun c => negb (is_netloc_delim c)) rest).

Definition check_brackets `{UrlLib} (netloc : str) : result unit :=
  let has_open := char_in "[" netloc in
  let has_close := char_in "]" netloc in
  if (has_open && negb has_close) || (has_close && negb has_open)
  then Raise ValueError
  else if has_open && has_close
       then if bracketed_netloc_ok netloc then Ok tt else Raise ValueError
       else Ok tt.

(** [url.split(c, 1)] when [c in url], else [url] and the empty string. *)
Definition cut (c : ascii) (url : str) : str * str :=
  match split_once c url with
  | (a, Some b) => (a, b)
  | (a, None) => (a, [])
  end.

(** [urlsplit(url)], as the five components or [ValueError]; on the code
    points 0..255 [_checknetloc] never raises. *)
Definition urlsplit `{UrlLib} (url : str) : result (str * str * str * str * str) :=
  let url := dropwhile is_c0_or_space url in
  let url := filter (fun c => negb (is_unsafe_byte c)) url in
  let '(scheme, url) := split_scheme url in
  '(netloc, url) <-
    (if startswith url (py "//")
     then let '(netloc, rest) := splitnetloc url in
          _ <- check_brackets netloc ;; Ok (netloc, rest)
     else Ok ([], url)) ;;
  let '(url, fragment) := cut "#" url in
  let '(url, query) := cut "?" url in
  Ok (scheme, netloc, url, query, fragment).

(** [_splitparams(url)], called when [';' in url]. *)
Definition splitparams (url : str) : str * str :=
  if char_in "/" url then
    (* the text from the last '/' on is [tail] *)
    let '(rtail, rhead) := cut "/" (rev url) in
    let head := rev rhead in
    let tail := "/"%char :: rev rtail in
    match split_once ";" tail with
    | (a, Some b) => (head ++ a, b)
    | (_, None) => (url, [])
    end
  else cut ";" url.

(** [urlparse(url)] *)
Definition urlparse `{UrlLib} (url : str) : result ParseResult :=
  '(scheme, netloc, url, query, fragment) <- urlsplit url ;;
  let '(url, params) :=
    if str_in scheme uses_params && char_in ";" url
    then splitparams url else (url, []) in
  Ok {| scheme := scheme; netloc := netloc; path := url; params := params;
        query := query; fragment := fragment |}.

Definition nonempty (s : str) : bool :=
  match s with [] => false | _ => true end.

(** [urlunsplit((scheme, netloc, url, query, fragment))] *)
Definition urlunsplit (scheme netloc url query fragment : str) : str :=
  let url :=
    if nonempty netloc
       || (nonempty scheme && str_in scheme uses_netloc
           && negb (str_eqb (firstn 2 url) (py "//")))
    then
      let url := if nonempty url && negb (str_eqb (firstn 1 url) (py "/"))
                 then "/"%char :: url else url in
      py "//" ++ netloc ++ url
    else url in
  let url := if nonempty scheme then scheme ++ py ":" ++ url else url in
  let url := if nonempty query then url ++ py "?" ++ query else url in
  let url := if nonempty fragment then url ++ py "#" ++ fragment else url in
  url.

(** [urlunparse((scheme, netloc, url, params, query, fragment))] *)
Definition urlunparse (scheme netloc url params query fragment : str) : str :=
  let url := if nonempty params then url ++ py ";" ++ params else url in
  urlunsplit scheme netloc url query fragment.

(** *** Query strings

    The codec is the one Python applies to ASCII text: an escape [%XX]
    stands for the character with that code, and a character outside the
    unreserved set is written as its escape. *)

Definition hex_value (c : ascii) : option N :=
  let n := cp c in
  if in_range 48 57 n then Some (n - 48)%N
  else if in_range 65 70 n then Some (n - 55)%N
  else if in_range 97 102 n then Some (n - 87)%N
  else None.

Definition hex_digit (n : N) : ascii :=
  if (n <? 10)%N then ascii_of_N (n + 48) else ascii_of_N (n + 55).

(** [unquote(s)]: an escape needs two hexadecimal digits, anything else
    after a ['%'] is kept as it is. *)
Fixpoint unquote (s : str) : str :=
  match s with
  | [] => []
  | c :: t =>
      if Ascii.eqb c "%" then
        match t with
        | h :: l :: t'' =>
            match hex_value h, hex_value l with
            | Some a, Some b => ascii_of_N (16 * a + b) :: unquote t''
            | _, _ => c :: unquote t
            end
        | _ => c :: unquote t
        end
      else c :: unquote t
  end.

(** [unquote_plus(s)]: ['+'] is a space. *)
Definition plus_to_space (c : ascii) : ascii :=
  if Ascii.eqb c "+" then " "%char else c.

Definition unquote_plus (s : str) : str := unquote (map plus_to_space s).

(** [_ALWAYS_SAFE] *)
Definition always_safe (c : ascii) : bool :=
  let n := cp c in
  in_range 65 90 n || in_range 97 122 n || in_range 48 57 n
  || char_in c (py "_.-~").

(** [quote_plus(s)] with [safe=''] *)
Definition quote_plus_char (c : ascii) : str :=
  if Ascii.eqb c " " then py "+"
  else if always_safe c then [c]
  else ["%"%char; hex_digit (cp c / 16); hex_digit (cp c mod 16)].

Definition quote_plus (s : str) : str := flat_map quote_plus_char s.

(** A dict from names to lists of values, in insertion order. *)
Definition qdict := list (str * list str).

(** [parsed_result[name].append(value)], or a new entry. *)
Fixpoint qdict_add (name value : str) (d : qdict) : qdict :=
  match d with
  | [] => [(name, [value])]
  | (k, vs) :: rest =>
      if str_eqb k name then (k, vs ++ [value]) :: rest
      else (k, vs) :: qdict_add name value rest
  end.

(** [parse_qsl(qs, keep_blank_values=True)] *)
Definition parse_field (name_value : str) : str * str :=
  let '(n, v) := cut "=" name_value in (unquote_plus n, unquote_plus v).

Definition parse_qsl (qs : str) : list (str * str) :=
  match qs with
  | [] => []
  | _ => map parse_field (filter nonempty (split "&" qs))
  end.

(** [parse_qs(qs, keep_blank_values=True)] *)
Definition parse_qs (qs : str) : qdict :=
  fold_left (fun d nv => qdict_add (fst nv) (snd nv) d) (parse_qsl qs) [].

(** [urlencode(d, doseq=True)] *)
Definition urlencode (d : qdict) : str :=
  join (py "&")
    (flat_map (fun kv =>
                 map (fun v => quote_plus (fst kv) ++ py "=" ++ quote_plus v)
                     (snd kv)) d).

End Url.
Import Url.

(** ** URL normalization and validation *)

(** [normalize_url]; [TRACKING_PARAMS] comes from the configuration. *)
Definition normalize_path (p : str) : str :=
  match rstrip (py "/") p with
  | [] => py "/"
  | p' => p'
  end.

Definition normalize_query (TRACKING_PARAMS : list str) (q : str) : str :=
  match q with
  | [] => []
  | _ =>
      let params := parse_qs q in
      let params :=
        filter (fun kv => negb (str_in (lower (fst kv)) TRACKING_PARAMS))
               params in
      match params with
      | [] => []
      | _ => urlencode params
      end
  end.

Definition normalize_url `{UrlLib} (TRACKING_PARAMS : list str) (url : str)
  : result str :=
  parsed <- urlparse url ;;
  let path := normalize_path (path parsed) in
  let query := normalize_query TRACKING_PARAMS (query parsed) in
  let scheme := lower (scheme parsed) in
  let netloc := lower (netloc parsed) in
  Ok (urlunparse scheme netloc path (params parsed) query []).

(** [is_pdf_url] *)
Definition is_pdf_url `{UrlLib} (url : str) : result bool :=
  parsed <- urlparse url ;;
  let path := lower (path parsed) in
  if endswith path (py ".pdf") || endswith path (py ".pdf/") then Ok true
  else if contains (py ".pdf") path then Ok true
  else
    let query := lower (query parsed) in
    if contains (py ".pdf") query then Ok true else Ok false.

(** [same_domain] *)
Definition CCLD_SUFFIXES : list str :=
  map py ["co.nz"; "org.nz"; "net.nz"; "govt.nz"; "ac.nz";
          "com.au"; "org.au"; "net.au"; "edu.au"; "gov.au";
          "co.uk"; "org.uk"; "me.uk"; "net.uk"; "gov.uk";
          "co.za"; "org.za"; "co.in"; "com.sg"; "com.hk"; "co.jp";
          "com.br"; "co.kr"; "com.mx"; "co.id"]%string.

(** [netloc.lower().removeprefix('www.').split(':')[0]] *)
Definition strip_host (netloc : str) : str :=
  hd [] (split ":" (removeprefix (py "www.") (lower netloc))).

Definition get_base_domain (netloc : str) : str :=
  let netloc := strip_host netloc in
  let parts := split "." netloc in
  if (3 <=? length parts)
     && str_in (join (py ".") (last_n 2 parts)) CCLD_SUFFIXES
  then join (py ".") (last_n 3 parts)
  else if 2 <=? length parts
       then join (py ".") (last_n 2 parts)
       else netloc.

Definition same_domain `{UrlLib} (seed_url candidate_url : str) : result bool :=
  seed <- urlparse seed_url ;;
  let seed_domain := get_base_domain (netloc seed) in
  candidate <- urlparse candidate_url ;;
  let candidate_domain := get_base_domain (netloc candidate) in
  Ok (str_eqb seed_domain candidate_domain).

(** ** Document validation *)

(** [is_valid_document] *)
Definition policy_type_map : list (str * list str) :=
  map (fun kv => (py (fst kv), map py (snd kv)))
  [("life", ["life"; "lif"; "living"; "death"; "tpd"; "income protection"; "trauma"]);
   ("home", ["home"; "house"; "property"; "building"; "landlord"; "rental"; "dwelling"]);
   ("contents", ["contents"; "contents plus"; "personal belongings"; "valuables"; "household contents"]);
   ("motor", ["motor"; "vehicle"; "car"; "auto"; "comprehensive"; "third party"; "tpft"]);
   ("travel", ["travel"; "trip"; "overseas"; "holiday"; "international"]);
   ("health", ["health"; "medical"; "hospital"; "dental"; "optical"]);
   ("business", ["business"; "commercial"; "liability"; "sme"; "professional indemnity"; "public liability"]);
   ("pet", ["pet"; "dog"; "cat"; "animal"]);
   ("marine", ["marine"; "boat"; "watercraft"; "yacht"])]%string.

(** [d.get(k, default)] *)
Fixpoint dict_get {V} (k : str) (default : V) (d : list (str * V)) : V :=
  match d with
  | [] => default
  | (k', v) :: rest => if str_eqb k' k then v else dict_get k default rest
  end.

(** The loop over [policy_types]: the first requested type one of whose
    keywords occurs in the URL. *)
Fixpoint match_policy_type (url_lower : str) (policy_types : list str)
  : option str :=
  match policy_types with
  | [] => None
  | policy_type :: rest =>
      let policy_keywords :=
        dict_get (lower policy_type) [lower policy_type] policy_type_map in
      if existsb (fun pk => contains pk url_lower) policy_keywords
      then Some policy_type
      else match_policy_type url_lower rest
  end.

Definition is_valid_document (url : str) (keyword_filters policy_types : list str)
  : bool * option str :=
  let url_lower := lower url in
  match match_policy_type url_lower policy_types with
  | Some policy_type => (true, Some policy_type)
  | None =>
      if nonempty_list keyword_filters
         && existsb (fun keyword => contains (lower keyword) url_lower)
                    keyword_filters
      then (true, Some (py "General"))
      else if endswith url_lower (py ".pdf") || endswith url_lower (py ".pdf/")
           then (true, Some (py "General"))
           else (false, None)
  end.

(** ** File handling utilities *)

(** [sanitize_filename] *)
Definition filename_char_ok (c : ascii) : bool :=
  isalnum c || char_in c (py "_-.").

Definition sanitize_filename (name : str) : str :=
  let safe_name :=
    replace (py "..") (py "_")
      (replace (py "\") (py "_") (replace (py "/") (py "_") name)) in
  let safe_name := filter filename_char_ok safe_name in
  let safe_name :=
    match lstrip (py ".") safe_name with
    | [] => py "unknown"
    | s => s
    end in
  if 200 <? length safe_name then firstn 200 safe_name else safe_name.

(** ** Concurrency management

    [_ACTIVE_CRAWLS] is a dict from crawl id to start time.  A Python dict
    iterates in insertion order, which decides ties in [min], so it is an
    association list with distinct keys; times are integers (ticks of the
    clock). *)

Definition registry := list (Z * Z).

Definition get_active_crawl_count (reg : registry) : Z :=
  Z.of_nat (length reg).

(** [min(d.keys(), key=lambda k: d[k])]: the first key, in iteration
    order, whose value is least; [ValueError] on an empty dict. *)
Fixpoint min_by_value (best : Z * Z) (rest : registry) : Z * Z :=
  match rest with
  | [] => best
  | kv :: rest' =>
      min_by_value (if (snd kv <? snd best)%Z then kv else best) rest'
  end.

Definition oldest_crawl (reg : registry) : result Z :=
  match reg with
  | [] => Raise ValueError
  | kv :: rest => Ok (fst (min_by_value kv rest))
  end.

Definition limit_reason (max_concurrent oldest_crawl_id : Z) : str :=
  py "Maximum concurrent crawls (" ++ repr_int max_concurrent
  ++ py ") reached. Oldest active crawl: #" ++ repr_int oldest_crawl_id.

(** [can_start_crawl], as a function of the ceiling read from the
    configuration and of the registry. *)
Definition can_start_crawl (MAX_CONCURRENT_CRAWLS : Z) (reg : registry)
  : result (bool * option str) :=
  let active_count := get_active_crawl_count reg in
  if (active_count >=? MAX_CONCURRENT_CRAWLS)%Z then
    oldest_crawl_id <- oldest_crawl reg ;;
    Ok (false, Some (limit_reason MAX_CONCURRENT_CRAWLS oldest_crawl_id))
  else Ok (true, None).

(** [d[k] = v]: an existing key keeps its place. *)
Fixpoint dict_set (k v : Z) (reg : registry) : registry :=
  match reg with
  | [] => [(k, v)]
  | (k', v') :: rest =>
      if (k' =? k)%Z then (k, v) :: rest else (k', v') :: dict_set k v rest
  end.

(** [register_active_crawl], called at time [now]. *)
Definition register_active_crawl (crawl_id now : Z) (reg : registry)
  : registry :=
  dict_set crawl_id now reg.

(** [unregister_active_crawl] *)
Definition unregister_active_crawl (crawl_id : Z) (reg : registry)
  : registry :=
  filter (fun kv => negb (fst kv =? crawl_id)%Z) reg.

(** ** PDF classification

    Confidence values are Python floats, that is binary64 numbers: they
    are the primitive floats of Rocq, with the same rounding. *)

Module PyFloat.

Definition float := PrimFloat.float.

(** [float(n)] for [0 <= n < 2^63] *)
Definition of_Z (z : Z) : float := PrimFloat.of_uint63 (Uint63.of_Z z).

(** [int(x)] for a finite [x]: truncation towards zero. *)
Definition to_Z (x : float) : Z :=
  match FloatOps.Prim2SF x with
  | SpecFloat.S754_finite s m e =>
      let v := if (0 <=? e)%Z then (Z.pos m * 2 ^ e)%Z
               else (Z.pos m / 2 ^ (- e))%Z in
      if s then (- v)%Z else v
  | _ => 0%Z
  end.

(** [round(x, 2)] for a finite [x >= 0]: the nearest multiple of 1/100 of
    the exact value, ties to even, then the nearest float. *)
Definition round2 (x : float) : float :=
  match FloatOps.Prim2SF x with
  | SpecFloat.S754_finite false m e =>
      let n :=
        if (0 <=? e)%Z then (100 * Z.pos m * 2 ^ e)%Z
        else
          let num := (100 * Z.pos m)%Z in
          let den := (2 ^ (- e))%Z in
          let q := (num / den)%Z in
          let r := (num mod den)%Z in
          if (2 * r <? den)%Z then q
          else if (den <? 2 * r)%Z then (q + 1)%Z
          else if Z.even q then q else (q + 1)%Z in
      PrimFloat.div (of_Z n) (of_Z 100)
  | _ => x
  end.

Definition min (a b : float) : float := if PrimFloat.ltb b a then b else a.

End PyFloat.

Definition CLASSIFICATION_RULES : list (str * (list str * PyFloat.float)) :=
  map (fun r => (py (fst r), (map py (fst (snd r)), snd (snd r))))
  [("PDS",
    (["pds"; "product disclosure"; "product-disclosure"; "productdisclosure";
      "combined fsg"; "financial services guide"], 1.0%float));
   ("Policy Wording",
    (["policy wording"; "policy-wording"; "policywording"; "wording";
      "policy document"; "policy schedule"; "terms and conditions";
      "conditions of cover"; "cover wording"], 0.9%float));
   ("Fact Sheet",
    (["fact sheet"; "fact-sheet"; "factsheet"; "key facts"; "keyfacts";
      "key information"; "summary of cover"; "cover summary"], 0.85%float));
   ("TMD",
    (["tmd"; "target market"; "target-market"; "targetmarket";
      "target market determination"], 0.9%float));
   ("Product Guide",
    (["product guide"; "product-guide"; "productguide"; "guide";
      "brochure"; "overview"], 0.7%float));
   ("Certificate of Insurance",
    (["certificate of insurance"; "certificate-of-insurance";
      "coi"; "proof of insurance"], 0.85%float));
   ("Claim Form",
    (["claim form"; "claim-form"; "claimform"; "claims form";
      "make a claim"; "lodge a claim"], 0.8%float))]%string.

Definition POLICY_TYPE_RULES : list (str * list str) :=
  map (fun r => (py (fst r), map py (snd r)))
  [("Motor", ["motor"; "vehicle"; "car"; "auto"; "comprehensive";
              "third party"; "tpft"; "third-party"; "automotive"]);
   ("Home", ["home"; "house"; "property"; "building"; "dwelling";
             "homeowner"; "home-owner"; "residential"]);
   ("Contents", ["contents"; "contents plus"; "contents-plus";
                 "personal belongings"; "household contents"; "valuables"]);
   ("Landlord", ["landlord"; "rental"; "rental property";
                 "investment property"; "landlords"]);
   ("Travel", ["travel"; "trip"; "overseas"; "holiday"; "international"]);
   ("Life", ["life"; "lif"; "living"; "death"; "tpd";
             "income protection"; "trauma"; "funeral"]);
   ("Health", ["health"; "medical"; "hospital"; "dental"; "optical";
               "surgical"; "wellness"]);
   ("Business", ["business"; "commercial"; "liability"; "sme";
                 "professional indemnity"; "public liability"; "trade"]);
   ("Pet", ["pet"; "dog"; "cat"; "animal"; "puppy"; "kitten";
            "pet insurance"; "pet-insurance"; "petinsurance";
            "veterinary"; "veterinarian"; "vet cover"; "vet care";
            "vet insurance"; "companion animal"; "canine"; "feline";
            "breed"; "pedigree"; "pet health"; "pet care"; "pet plan";
            "animal cover"; "pet policy"; "fur baby"; "dog insurance";
            "cat insurance"; "pet protection"; "vet bill"; "vet fees";
            "pet medical"; "pet accident"; "pet illness"]);
   ("Marine", ["marine"; "boat"; "watercraft"; "yacht"; "vessel"])]%string.

Definition KNOWN_INSURERS : list (str * str) :=
  map (fun r => (py (fst r), py (snd r)))
  [("aainsurance", "AA Insurance"); ("aa-insurance", "AA Insurance");
   ("ami", "AMI Insurance"); ("tower", "Tower Insurance");
   ("state", "State Insurance"); ("aia", "AIA New Zealand");
   ("southern-cross", "Southern Cross"); ("southerncross", "Southern Cross");
   ("partners-life", "Partners Life"); ("partnerslife", "Partners Life");
   ("nib", "nib Insurance"); ("fidelity", "Fidelity Life");
   ("cigna", "Cigna Insurance"); ("asteron", "Asteron Life");
   ("suncorp", "Suncorp"); ("iag", "IAG"); ("vero", "Vero Insurance");
   ("chubb", "Chubb Insurance"); ("allianz", "Allianz");
   ("zurich", "Zurich Insurance"); ("qbe", "QBE Insurance");
   ("tmi", "TMI (The Mutual Insurance)"); ("initio", "Initio Insurance");
   ("ando", "Ando Insurance"); ("youi", "Youi Insurance");
   ("trade-me", "Trade Me Insurance"); ("trademe", "Trade Me Insurance");
   ("pinnacle", "Pinnacle Life"); ("accuro", "Accuro Health Insurance")]%string.

Record ClassificationMetadata : Type := {
  classified_at : Z;
  classification_method : str;
  url_domain : str;
  meta_file_size : option Z;
  meta_policy_type : str
}.

Record Classification : Type := {
  classification : str;
  confidence : PyFloat.float;
  status : str;
  warnings : list str;
  insurer_name : option str;
  matched_source : str;
  detected_policy_type : str;
  metadata : ClassificationMetadata
}.

(** The truth value of an optional string: neither [None] nor empty. *)
Definition text_or_empty (t : option str) : str :=
  match t with Some s => s | None => [] end.

Definition has_text (t : option str) : bool := nonempty (text_or_empty t).

(** Stages 1 and 2: the best document type, its score and the keyword
    that gave it. *)
Definition keyword_score (url_lower filename_lower : str)
    (pdf_text_sample : option str) (weight : PyFloat.float) (keyword : str)
  : PyFloat.float :=
  let score := weight in
  let score := if contains keyword url_lower
               then PrimFloat.add score 0.05%float else score in
  let score := if contains keyword filename_lower
               then PrimFloat.add score 0.05%float else score in
  let score := if has_text pdf_text_sample
                  && contains keyword (lower (text_or_empty pdf_text_sample))
               then PrimFloat.add score 0.1%float else score in
  score.

Definition score_document_types (url_lower filename_lower combined : str)
    (pdf_text_sample : option str)
  : PyFloat.float * str * str :=
  fold_left
    (fun acc rule =>
       let '(doc_type, (keywords, weight)) := rule in
       fold_left
         (fun acc keyword =>
            let '(best_match_score, _, _) := acc in
            if contains keyword combined then
              let score := keyword_score url_lower filename_lower
                             pdf_text_sample weight keyword in
              if PrimFloat.ltb best_match_score score
              then (score, doc_type,
                    py "matched '" ++ keyword ++ py "'")
              else acc
            else acc)
         keywords acc)
    CLASSIFICATION_RULES
    (0%float, py "Unclassified", []).

(** Stage 3: the best policy category and its score. *)
Definition policy_keyword_score (url_lower filename_lower : str)
    (pdf_text_sample : option str) (kw : str) : Z :=
  let kw_is_multiword := char_in " " kw || char_in "-" kw in
  ((if contains kw url_lower
    then if kw_is_multiword then 4 else 2 else 0)
   + (if contains kw filename_lower
      then if kw_is_multiword then 6 else 3 else 0)
   + (if has_text pdf_text_sample
         && contains kw (lower (text_or_empty pdf_text_sample))
      then if kw_is_multiword then 3 else 1 else 0))%Z.

Definition score_policy_types (url_lower filename_lower : str)
    (pdf_text_sample : option str) (policy_type : str) : Z * str :=
  fold_left
    (fun acc rule =>
       let '(best_pt_score, _) := acc in
       let '(pt_name, pt_keywords) := rule in
       let score :=
         fold_left
           (fun score kw =>
              (score + policy_keyword_score url_lower filename_lower
                         pdf_text_sample kw)%Z)
           pt_keywords 0%Z in
       let score :=
         if str_eqb pt_name (py "Pet") && (0 <? score)%Z
         then PyFloat.to_Z (PrimFloat.mul (PyFloat.of_Z score) 1.2%float)
         else score in
       if (best_pt_score <? score)%Z then (score, pt_name) else acc)
    POLICY_TYPE_RULES
    (0%Z, policy_type).

(** The confidence before the file-size adjustment, with the label and
    the warnings so far. *)
Definition base_confidence (url_lower filename_lower : str)
    (best_match_score : PyFloat.float) (best_pt_score : Z)
    (classification : str)
  : PyFloat.float * str * list str :=
  let best_match_score :=
    if (0 <? best_pt_score)%Z && PrimFloat.ltb 0%float best_match_score
    then PyFloat.min (PrimFloat.add best_match_score 0.05%float) 1.0%float
    else best_match_score in
  if PrimFloat.ltb 0%float best_match_score then
    (PyFloat.min best_match_score 1.0%float, classification, [])
  else if (0 <? best_pt_score)%Z then
    (PyFloat.min
       (PrimFloat.add 0.4%float
          (PrimFloat.mul (PyFloat.of_Z best_pt_score) 0.05%float))
       0.7%float,
     py "General Document",
     [py "Document type unclear â€” policy category detected from filename/text"])
  else if contains (py ".pdf") url_lower || contains (py ".pdf") filename_lower
  then (0.3%float, py "General Document", [py "No classification keyword match"])
  else (0.1%float, py "Unknown", [py "Unable to classify"]).

(** The file-size heuristics; [if file_size:] is false for [None] and
    for 0. *)
Definition adjust_for_file_size (file_size : option Z)
    (confidence : PyFloat.float) (warnings : list str)
  : PyFloat.float * list str :=
  match file_size with
  | None => (confidence, warnings)
  | Some file_size =>
      if (file_size =? 0)%Z then (confidence, warnings)
      else if (file_size <? 10000)%Z
      then (PrimFloat.mul confidence 0.5%float,
            warnings ++ [py "Very small file"])
      else if (file_size <? 50000)%Z
      then (PrimFloat.mul confidence 0.8%float,
            warnings ++ [py "Small file size"])
      else if (20000000 <? file_size)%Z
      then (PrimFloat.mul confidence 0.9%float,
            warnings ++ [py "Very large file"])
      else (confidence, warnings)
  end.

Definition review_status (confidence : PyFloat.float) (warnings : list str)
  : str * list str :=
  if PrimFloat.leb 0.85%float confidence then (py "auto-approved", warnings)
  else if PrimFloat.leb 0.5%float confidence then
    (py "needs-review",
     if negb (str_in (py "Low confidence") warnings)
     then warnings ++ [py "Low confidence â€” manual review recommended"]
     else warnings)
  else (py "needs-review",
        warnings ++ [py "Very low confidence â€” requires manual review"]).

(** The first known insurer whose pattern occurs in the domain. *)
Definition find_insurer (domain : str) : option str :=
  let domain_base :=
    if nonempty domain then hd [] (split "." domain) else [] in
  option_map snd
    (find (fun pn => contains (fst pn) domain_base || contains (fst pn) domain)
          KNOWN_INSURERS).

(** Stages 1 to 3 of [classify_document]: the confidence, label and
    warnings before the file-size adjustment, the keyword matched and the
    policy category. *)
Definition classify_stages (url filename policy_type : str)
    (pdf_text_sample : option str)
  : (PyFloat.float * str * list str) * str * str :=
  let url_lower := lower url in
  let filename_lower := lower filename in
  let combined :=
    url_lower ++ py " " ++ filename_lower ++
    (if has_text pdf_text_sample
     then py " " ++ lower (text_or_empty pdf_text_sample) else []) in
  let '(best_match_score, classification, matched_source) :=
    score_document_types url_lower filename_lower combined pdf_text_sample in
  let '(best_pt_score, detected_policy_type) :=
    score_policy_types url_lower filename_lower pdf_text_sample policy_type in
  (base_confidence url_lower filename_lower best_match_score best_pt_score
                   classification,
   matched_source, detected_policy_type).

Definition confidence_before_adjustment (url filename policy_type : str)
    (pdf_text_sample : option str) : PyFloat.float :=
  fst (fst (fst (fst (classify_stages url filename policy_type
                                      pdf_text_sample)))).

(** Stages 4 to 6 of [classify_document], from the outcome of the first
    three. *)
Definition finish_classification `{UrlLib} (now : Z) (url : str)
    (file_size : option Z) (stages : (PyFloat.float * str * list str) * str * str)
  : result Classification :=
  let '((confidence, classification, warnings), matched_source,
        detected_policy_type) := stages in
  let '(confidence, warnings) :=
    adjust_for_file_size file_size confidence warnings in
  let '(status, warnings) := review_status confidence warnings in
  parsed <- urlparse url ;;
  let domain := replace (py "www.") [] (lower (netloc parsed)) in
  let insurer_name := find_insurer domain in
  Ok {| classification := classification;
        confidence := PyFloat.round2 confidence;
        status := status;
        warnings := warnings;
        insurer_name := insurer_name;
        matched_source := matched_source;
        detected_policy_type := detected_policy_type;
        metadata :=
          {| classified_at := now;
             classification_method := py "rule-based-v2";
             url_domain := domain;
             meta_file_size := file_size;
             meta_policy_type := detected_policy_type |} |}.

(** [classify_document], called at time [now]. *)
Definition classify_document `{UrlLib} (now : Z) (url filename policy_type : str)
    (file_size : option Z) (pdf_text_sample : option str)
  : result Classification :=
  finish_classification now url file_size
    (classify_stages url filename policy_type pdf_text_sample).

(** A run of the registry: the calls made on it, oldest first. *)
Inductive registry_call : Type :=
| Register (crawl_id now : Z)
| Unregister (crawl_id : Z).

Definition registry_step (reg : registry) (c : registry_call) : registry :=
  match c with
  | Register crawl_id now => register_active_crawl crawl_id now reg
  | Unregister crawl_id => unregister_active_crawl crawl_id reg
  end.

Definition registry_run (calls : list registry_call) (reg : registry) : registry :=
  fold_left registry_step calls reg.

(** Whether the last call about [crawl_id] registered it; [active] is the
    answer before the calls. *)
Fixpoint last_registered (crawl_id : Z) (calls : list registry_call)
    (active : bool) : bool :=
  match calls with
  | [] => active
  | Register id _ :: rest =>
      last_registered crawl_id rest (if (id =? crawl_id)%Z then true else active)
  | Unregister id :: rest =>
      last_registered crawl_id rest (if (id =? crawl_id)%Z then false else active)
  end.

(** ** Crawl logs

    [_CRAWL_LOGS] maps a crawl id to its entries, oldest first. *)

Record LogEntry : Type := {
  log_ts : Z;
  log_level : str;
  log_msg : str
}.

Definition MAX_LOG_ENTRIES : nat := 2000.

Definition log_store := list (Z * list LogEntry).

Fixpoint store_get (crawl_id : Z) (store : log_store) : option (list LogEntry) :=
  match store with
  | [] => None
  | (k, v) :: rest => if (k =? crawl_id)%Z then Some v else store_get crawl_id rest
  end.

Fixpoint store_set (crawl_id : Z) (v : list LogEntry) (store : log_store)
  : log_store :=
  match store with
  | [] => [(crawl_id, v)]
  | (k, v') :: rest =>
      if (k =? crawl_id)%Z then (k, v) :: rest
      else (k, v') :: store_set crawl_id v rest
  end.

(** [crawl_log], called at time [now]. *)
Definition crawl_log (crawl_id : Z) (level message : str) (now : Z)
    (store : log_store) : log_store :=
  let logs := match store_get crawl_id store with
              | Some logs => logs
              | None => []
              end in
  let entry := {| log_ts := now; log_level := level; log_msg := message |} in
  let logs := logs ++ [entry] in
  if MAX_LOG_ENTRIES <? length logs
  then store_set crawl_id (last_n MAX_LOG_ENTRIES logs) store
  else store_set crawl_id logs store.

(** [l[since:]] *)
Definition slice_from {A} (since : Z) (l : list A) : list A :=
  if (since <? 0)%Z
  then skipn (Z.to_nat (Z.max 0 (Z.of_nat (length l) + since))) l
  else skipn (Z.to_nat since) l.

(** [get_crawl_logs] *)
Definition get_crawl_logs (crawl_id : Z) (since : Z) (store : log_store)
  : list LogEntry :=
  let logs := match store_get crawl_id store with
              | Some logs => logs
              | None => []
              end in
  slice_from since logs.

(** [clear_crawl_logs] *)
Definition clear_crawl_logs (crawl_id : Z) (store : log_store) : log_store :=
  filter (fun kv => negb (fst kv =? crawl_id)%Z) store.

(** The messages logged for a crawl by a sequence of [crawl_log] calls,
    each given as (crawl id, level, message, time). *)
Definition log_call := (Z * str * str * Z)%type.

Definition log_step (store : log_store) (c : log_call) : log_store :=
  let '(crawl_id, level, message, now) := c in
  crawl_log crawl_id level message now store.

Definition entries_for (crawl_id : Z) (calls : list log_call) : list LogEntry :=
  map (fun c : log_call =>
         let '(_, level, message, now) := c in
         {| log_ts := now; log_level := level; log_msg := message |})
      (filter (fun c : log_call =>
                 let '(id, _, _, _) := c in (id =? crawl_id)%Z) calls).

(** ** Configuration and environment

    The constants of [app.config] are read from the environment when the
    process starts; they are the fields of [Config]. *)

Record Config : Type := {
  MAX_CONCURRENT_CRAWLS : Z;
  CRAWL_RESPECT_ROBOTS : bool;
  USER_AGENT : str;
  TRACKING_PARAMS : list str;
  MAX_FILE_SIZE_BYTES : Z;
  MAX_DOWNLOAD_TIME : Z;
  CRAWL_MODE : str;
  RAW_STORAGE_DIR : str
}.

(** [urllib.robotparser.RobotFileParser] (CPython 3.11): the three flags
    that [read()] and [parse()] set, and the answer of the entries of the
    parsed file for a user agent and a URL. *)
Record RobotFileParser : Type := {
  rp_disallow_all : bool;
  rp_allow_all : bool;
  rp_last_checked : bool;               (* [last_checked] is set *)
  rp_entries : str -> str -> result bool
}.

(** [rp.can_fetch(useragent, url)]: until the file has been read, no URL
    is allowed. *)
Definition rp_can_fetch (rp : RobotFileParser) (useragent url : str)
  : result bool :=
  if rp_disallow_all rp then Ok false
  else if rp_allow_all rp then Ok true
  else if negb (rp_last_checked rp) then Ok false
  else rp_entries rp useragent url.



(** [_ROBOTS_CACHE]: robots URL to parser, [None] when the site has no
    robots file. *)
Definition robots_cache := list (str * option RobotFileParser).

Fixpoint cache_lookup {V} (k : str) (d : list (str * V)) : option V :=
  match d with
  | [] => None
  | (k', v) :: rest => if str_eqb k' k then Some v else cache_lookup k rest
  end.

Fixpoint cache_set {V} (k : str) (v : V) (d : list (str * V)) : list (str * V) :=
  match d with
  | [] => [(k, v)]
  | (k', v') :: rest =>
      if str_eqb k' k then (k, v) :: rest else (k', v') :: cache_set k v rest
  end.

(** ** Robots.txt handling *)

(** [can_fetch].  [read_robots] is the outcome of [rp.read()] for a robots
    URL: the parser, or the exception raised by the fetch or the parse.
    The result goes with the cache after the call. *)
Definition robots_url_of (parsed : ParseResult) : str :=
  scheme parsed ++ py "://" ++ netloc parsed ++ py "/robots.txt".

Definition can_fetch `{UrlLib} (cfg : Config)
    (read_robots : str -> result RobotFileParser)
    (url : str) (cache : robots_cache) : bool * robots_cache :=
  if negb (CRAWL_RESPECT_ROBOTS cfg) then (true, cache)
  else
    match urlparse url with
    | Raise _ => (true, cache)            (* outer handler: fail open *)
    | Ok parsed =>
        let robots_url := robots_url_of parsed in
        match cache_lookup robots_url cache with
        | Some None => (true, cache)
        | Some (Some rp) =>
            match rp_can_fetch rp (USER_AGENT cfg) url with
            | Ok result => (result, cache)
            | Raise _ => (true, cache)    (* outer handler: fail open *)
            end
        | None =>
            match read_robots robots_url with
            | Ok rp =>
                let cache' := cache_set robots_url (Some rp) cache in
                match rp_can_fetch rp (USER_AGENT cfg) url with
                | Ok result => (result, cache')
                | Raise _ =>
                    (* inner handler: the entry is overwritten *)
                    (true, cache_set robots_url None cache')
                end
            | Raise _ => (true, cache_set robots_url None cache)
            end
        end
    end.

(** ** File system

    The files of the storage tree, as the list of the paths that exist. *)

Definition filesystem := list str.

Definition fs_exists (p : str) (fs : filesystem) : bool := str_in p fs.

Definition fs_remove (p : str) (fs : filesystem) : filesystem :=
  filter (fun q => negb (str_eqb q p)) fs.

(** [p.unlink()]: an error when the file is missing; [os] is what the
    operating system answers for a file that is there, the file stays when
    it refuses. *)
Definition fs_unlink (os : result unit) (p : str) (fs : filesystem)
  : result filesystem :=
  if fs_exists p fs
  then match os with
       | Ok _ => Ok (fs_remove p fs)
       | Raise e => Raise e
       end
  else Raise OSError.

Definition fs_create (p : str) (fs : filesystem) : filesystem :=
  if fs_exists p fs then fs else p :: fs.

(** [src.replace(dst)]: the rename, an error when [src] is missing. *)
Definition fs_replace (src dst : str) (fs : filesystem) : result filesystem :=
  if fs_exists src fs then Ok (fs_create dst (fs_remove src fs))
  else Raise OSError.

(** [path.parent], on the text of a path: the root and [.] are their own
    parent. *)
Definition path_parent (p : str) : str :=
  if char_in "/" p then
    match rev (snd (cut "/" (rev p))) with
    | [] => py "/"
    | head => head
    end
  else py ".".

(** [path.parents], the nearest first. *)
Fixpoint parents_from (fuel : nat) (p : str) : list str :=
  match fuel with
  | 0 => []
  | S fuel' =>
      let q := path_parent p in
      if str_eqb q p then [] else q :: parents_from fuel' q
  end.

Definition path_parents (p : str) : list str := parents_from (S (length p)) p.

(** [dir.mkdir(parents=True, exist_ok=True)] makes the missing ones among
    the ancestors of [dir] and [dir] itself, the topmost first. *)
Definition mkdir_dirs (dir : str) : list str := rev (dir :: path_parents dir).

Definition fs_mkdir (dirs : list str) (fs : filesystem) : filesystem :=
  fold_left (fun fs d => fs_create d fs) dirs fs.

(** [path.name] *)
Definition path_name (p : str) : str :=
  rev (fst (cut "/" (rev p))).

(** ** PDF download with streaming *)

(** What the server answers to the streaming GET.  [body] is what
    [iter_content] yields: a chunk with the seconds elapsed since the
    start of the download when it is handled, or the transport error that
    ends the stream. *)
Record Response : Type := {
  status_code : Z;
  content_type_header : option str;
  content_disposition_header : option str;
  content_length_header : option str;
  body : list (result (str * Z))
}.

(** The outcome of the operations of the download that depend on the
    network and on the operating system. *)
Record DownloadEnv : Type := {
  env_resolve : str -> result str;       (* [Path.resolve] *)
  env_get : str -> result Response;      (* [session.get(url, stream=True)] *)
  env_mkdir : str -> result unit;        (* [parent.mkdir] *)
  env_mkdir_made : str -> nat;           (* directories made by a failing [mkdir] *)
  env_mktemp : str -> result str;        (* the name of the temporary file *)
  env_write : nat -> result unit;        (* the n-th [temp_file.write] *)
  env_close : result unit;               (* leaving the [with] block *)
  env_rename : result unit;              (* the rename may be refused *)
  env_unlink_stream : result unit;       (* [temp_path.unlink()] in the loop *)
  env_unlink_cleanup : result unit;      (* [temp_path.unlink()] in a handler *)
  env_sha256 : str -> str                (* [hashlib.sha256(...).hexdigest()] *)
}.

(** [verify_path_safety] *)
Definition verify_path_safety (env : DownloadEnv) (file_path allowed_parent : str)
  : bool :=
  match env_resolve env file_path, env_resolve env allowed_parent with
  | Ok resolved_path, Ok resolved_parent =>
      startswith resolved_path resolved_parent
  | _, _ => false
  end.

(** [int(s)] for a header value: decimal digits, single underscores
    between them, an optional sign and surrounding white space;
    [ValueError] otherwise. *)
Definition digit_value (c : ascii) : option Z :=
  let n := cp c in
  if in_range 48 57 n then Some (Z.of_N n - 48)%Z else None.

Definition is_space (c : ascii) : bool :=
  let n := cp c in in_range 9 13 n || in_range 28 32 n || (n =? 133)%N
                   || (n =? 160)%N.

(** [after_digit] tells whether the previous character was a digit. *)
Fixpoint parse_digits (acc : Z) (after_digit : bool) (s : str) : result Z :=
  match s with
  | [] => if after_digit then Ok acc else Raise ValueError
  | c :: t =>
      match digit_value c with
      | Some d => parse_digits (10 * acc + d)%Z true t
      | None =>
          if Ascii.eqb c "_" && after_digit
          then parse_digits acc false t
          else Raise ValueError
      end
  end.

Definition parse_int (s : str) : result Z :=
  let s := rev (dropwhile is_space (rev (dropwhile is_space s))) in
  match s with
  | [] => Raise ValueError
  | c :: t =>
      if Ascii.eqb c "-" then n <- parse_digits 0 false t ;; Ok (- n)%Z
      else if Ascii.eqb c "+" then parse_digits 0 false t
      else parse_digits 0 false s
  end.

Definition header_or_empty (h : option str) : str :=
  match h with Some v => v | None => [] end.

Record DownloadResult : Type := {
  file_size : Z;
  file_hash : str
}.

(** The loop over [response.iter_content]: the result of the [with] body,
    [None] for the two early returns, with the bytes and the content
    written so far. *)
Fixpoint stream_chunks (cfg : Config) (env : DownloadEnv) (temp_path : str)
    (chunks : list (result (str * Z))) (writes : nat)
    (bytes_downloaded : Z) (content : str) (fs : filesystem)
  : result (option (Z * str)) * filesystem :=
  match chunks with
  | [] => (Ok (Some (bytes_downloaded, content)), fs)
  | Raise e :: _ => (Raise e, fs)
  | Ok (chunk, elapsed) :: rest =>
      if nonempty chunk then
        let bytes_downloaded := (bytes_downloaded + Z.of_nat (length chunk))%Z in
        if (MAX_FILE_SIZE_BYTES cfg <? bytes_downloaded)%Z then
          match fs_unlink (env_unlink_stream env) temp_path fs with
          | Ok fs' => (Ok None, fs')
          | Raise e => (Raise e, fs)
          end
        else if (MAX_DOWNLOAD_TIME cfg <? elapsed)%Z then
          match fs_unlink (env_unlink_stream env) temp_path fs with
          | Ok fs' => (Ok None, fs')
          | Raise e => (Raise e, fs)
          end
        else
          match env_write env writes with
          | Ok _ =>
              stream_chunks cfg env temp_path rest (S writes)
                            bytes_downloaded (content ++ chunk) fs
          | Raise e => (Raise e, fs)
          end
      else stream_chunks cfg env temp_path rest writes bytes_downloaded
                         content fs
  end.

(** The body of the [try] of [download_pdf_streaming]: its outcome, the
    value of [temp_path] when it ends, and the file system.  A [mkdir]
    that fails may have made the topmost of the directories. *)
Definition download_try (cfg : Config) (env : DownloadEnv)
    (url save_path : str) (fs : filesystem)
  : result (option DownloadResult) * option str * filesystem :=
  if negb (verify_path_safety env save_path (RAW_STORAGE_DIR cfg))
  then (Ok None, None, fs)
  else
    match env_get env url with
    | Raise e => (Raise e, None, fs)
    | Ok response =>
        if negb (status_code response =? 200)%Z then (Ok None, None, fs)
        else
          let content_type := lower (header_or_empty (content_type_header response)) in
          let content_disp :=
            lower (header_or_empty (content_disposition_header response)) in
          let url_has_pdf := contains (py ".pdf") (lower url) in
          let is_pdf_content := contains (py "application/pdf") content_type in
          let is_octet := contains (py "application/octet-stream") content_type in
          let disp_has_pdf := contains (py ".pdf") content_disp in
          if negb is_pdf_content && negb url_has_pdf && negb disp_has_pdf
             && negb is_octet
          then (Ok None, None, fs)
          else
            let too_large :=
              match content_length_header response with
              | None => Ok false
              | Some content_length =>
                  if nonempty content_length
                  then n <- parse_int content_length ;;
                       Ok (MAX_FILE_SIZE_BYTES cfg <? n)%Z
                  else Ok false
              end in
            match too_large with
            | Raise e => (Raise e, None, fs)
            | Ok true => (Ok None, None, fs)
            | Ok false =>
                match env_mkdir env (path_parent save_path) with
                | Raise e =>
                    (Raise e, None,
                     fs_mkdir (firstn (env_mkdir_made env (path_parent save_path))
                                      (mkdir_dirs (path_parent save_path))) fs)
                | Ok _ =>
                    let fs := fs_mkdir (mkdir_dirs (path_parent save_path)) fs in
                    match env_mktemp env (path_parent save_path) with
                    | Raise e => (Raise e, None, fs)
                    | Ok temp_path =>
                        let fs := fs_create temp_path fs in
                        let '(streamed, fs) :=
                          stream_chunks cfg env temp_path (body response)
                                        0 0 [] fs in
                        (* leaving the [with] block closes the file *)
                        match streamed, env_close env with
                        | Raise e, _ => (Raise e, Some temp_path, fs)
                        | Ok _, Raise e => (Raise e, Some temp_path, fs)
                        | Ok None, Ok _ => (Ok None, Some temp_path, fs)
                        | Ok (Some (size, content)), Ok _ =>
                            match env_rename env with
                            | Raise e => (Raise e, Some temp_path, fs)
                            | Ok _ =>
                                match fs_replace temp_path save_path fs with
                                | Raise e => (Raise e, Some temp_path, fs)
                                | Ok fs' =>
                                    (Ok (Some {| file_size := size;
                                                 file_hash := env_sha256 env content |}),
                                     Some temp_path, fs')
                                end
                            end
                        end
                    end
                end
            end
    end.

(** [download_pdf_streaming]: the three handlers do the same, they remove
    the temporary file when it exists and return [None]; the removal is
    not guarded, what it raises leaves the function. *)
Definition download_pdf_streaming (cfg : Config) (env : DownloadEnv)
    (url save_path : str) (fs : filesystem)
  : result (option DownloadResult) * filesystem :=
  match download_try cfg env url save_path fs with
  | (Ok r, _, fs') => (Ok r, fs')
  | (Raise _, None, fs') => (Ok None, fs')
  | (Raise _, Some temp_path, fs') =>
      if fs_exists temp_path fs'
      then match fs_unlink (env_unlink_cleanup env) temp_path fs' with
           | Ok fs'' => (Ok None, fs'')
           | Raise e => (Raise e, fs')
           end
      else (Ok None, fs')
  end.

(** The bytes of a body and the conditions under which it is streamed to
    its end. *)
Definition chunk_data (c : result (str * Z)) : str :=
  match c with Ok (data, _) => data | Raise _ => [] end.

Definition body_content (chunks : list (result (str * Z))) : str :=
  concat (map chunk_data chunks).

Definition chunk_delivered (cfg : Config) (c : result (str * Z)) : Prop :=
  match c with
  | Ok (data, elapsed) =>
      data <> [] -> (elapsed <= MAX_DOWNLOAD_TIME cfg)%Z
  | Raise _ => False
  end.

Definition looks_like_pdf (url : str) (response : Response) : bool :=
  contains (py "application/pdf")
           (lower (header_or_empty (content_type_header response)))
  || contains (py ".pdf") (lower url)
  || contains (py ".pdf")
              (lower (header_or_empty (content_disposition_header response)))
  || contains (py "application/octet-stream")
              (lower (header_or_empty (content_type_header response))).

Definition declared_too_large (cfg : Config) (response : Response) : Prop :=
  exists content_length n,
    content_length_header response = Some content_length /\
    parse_int content_length = Ok n /\ (MAX_FILE_SIZE_BYTES cfg < n)%Z.

(** ** The web, as the crawler sees it

    Requests are answered by the environment.  Every request carries the
    number of requests made before it ([tick]), so that a site may answer
    the same URL differently over time, and the clock is read the same
    way. *)

(** An HTML page after [BeautifulSoup]: the anchors with their text, the
    sources of [iframe], [embed] and [object] tags, the values of the
    [data-*] attributes that are scanned, and the quoted PDF names found
    in [onclick] handlers, each in document order. *)
Record ParsedPage : Type := {
  anchors : list (str * str);
  embeds : list str;
  data_attrs : list str;
  onclick_matches : list str
}.

Record PageResponse : Type := {
  page_status : Z;
  page_content_type : option str;
  page_html : result ParsedPage
}.

Record HeadResponse : Type := {
  head_content_type : option str;
  head_content_disposition : option str
}.

Record SitemapResponse : Type := {
  sitemap_status : Z;
  sitemap_content_type : option str;
  sitemap_locs : result (list (option str))   (* the text of the [loc] tags *)
}.

Record CrawlWorld : Type := {
  w_now : nat -> Z;
  w_read_robots : nat -> str -> result RobotFileParser;
  w_get : nat -> str -> result PageResponse;
  w_head : nat -> str -> result HeadResponse;
  w_sitemap : nat -> str -> result SitemapResponse;
  w_urljoin : str -> str -> result str
}.

(** ** Domain crawling engine *)

(** [is_potential_document_url] *)
Definition doc_path_keywords : list str :=
  map py ["/download"; "/document"; "/getdocument"; "/getfile";
          "/file/"; "/media/"; "/assets/"; "/pdfs/"; "/publications/";
          "/forms/"; "/brochure"; "/disclosure"; "/resources/";
          "/policy-wording"; "/policy-document"; "/pds/";
          "/factsheet"; "/fact-sheet"; "/target-market";
          "/product-guide"; "/claim-form"; "/certificate";
          "/wp-content/uploads"; "/sites/default/files"]%string.

Definition doc_text_keywords : list str :=
  map py ["download"; "pdf"; "policy wording"; "pds"; "fact sheet";
          "product disclosure"; "target market"; "brochure";
          "view document"; "open document"; "read more";
          "policy document"; "claim form"; "product guide";
          "view pdf"; "download pdf"; "full details";
          "terms and conditions"; "certificate of insurance";
          "supplementary"; "endorsement"]%string.

Definition is_potential_document_url (url link_text : str) : bool :=
  let url_lower := lower url in
  let text_lower := lower link_text in
  existsb (fun kw => contains kw url_lower) doc_path_keywords
  || existsb (fun kw => contains kw text_lower) doc_text_keywords.

(** [check_url_is_pdf_via_head]: any exception gives [False]. *)
Definition check_url_is_pdf_via_head (w : CrawlWorld) (tick : nat) (url : str)
  : bool :=
  match w_head w tick url with
  | Raise _ => false
  | Ok resp =>
      let content_type := lower (header_or_empty (head_content_type resp)) in
      if contains (py "application/pdf") content_type then true
      else
        let disposition :=
          lower (header_or_empty (head_content_disposition resp)) in
        contains (py ".pdf") disposition
  end.

(** A Python set of strings, in insertion order. *)
Definition set_add (x : str) (s : list str) : list str :=
  if str_in x s then s else s ++ [x].

(** [extract_from_sitemap]: the PDF URLs collected over the sitemap paths
    tried, and the tick after the requests. *)
Definition sitemap_paths : list str :=
  map py ["/sitemap.xml"; "/sitemap_index.xml"; "/sitemaps/sitemap.xml";
          "/sitemap/sitemap.xml"]%string.

(** The loop over the [loc] tags, inside the [try]: the set so far is
    kept when [normalize_url] raises. *)
Fixpoint collect_locs `{UrlLib} (cfg : Config) (locs : list (option str))
    (pdf_urls : list str) : list str * result unit :=
  match locs with
  | [] => (pdf_urls, Ok tt)
  | loc :: rest =>
      let url := text_or_empty loc in
      if nonempty url && contains (py ".pdf") (lower url) then
        match normalize_url (TRACKING_PARAMS cfg) url with
        | Ok normalized => collect_locs cfg rest (set_add normalized pdf_urls)
        | Raise e => (pdf_urls, Raise e)
        end
      else collect_locs cfg rest pdf_urls
  end.

Fixpoint try_sitemaps `{UrlLib} (cfg : Config) (w : CrawlWorld)
    (base_url : str) (paths : list str) (pdf_urls : list str) (tick : nat)
  : list str * nat :=
  match paths with
  | [] => (pdf_urls, tick)
  | sitemap_path :: rest =>
      let sitemap_url := rstrip (py "/") base_url ++ sitemap_path in
      match w_sitemap w tick sitemap_url with
      | Raise _ => try_sitemaps cfg w base_url rest pdf_urls (S tick)
      | Ok resp =>
          if (sitemap_status resp =? 200)%Z
             && contains (py "xml")
                  (lower (header_or_empty (sitemap_content_type resp)))
          then
            match sitemap_locs resp with
            | Raise _ => try_sitemaps cfg w base_url rest pdf_urls (S tick)
            | Ok locs =>
                match collect_locs cfg locs pdf_urls with
                | (pdf_urls', Raise _) =>
                    try_sitemaps cfg w base_url rest pdf_urls' (S tick)
                | (pdf_urls', Ok _) =>
                    if nonempty_list pdf_urls' then (pdf_urls', S tick)
                    else try_sitemaps cfg w base_url rest pdf_urls' (S tick)
                end
            end
          else try_sitemaps cfg w base_url rest pdf_urls (S tick)
      end
  end.

Definition extract_from_sitemap `{UrlLib} (cfg : Config) (w : CrawlWorld)
    (base_url : str) (tick : nat) : list str * nat :=
  try_sitemaps cfg w base_url sitemap_paths [] tick.

(** A configuration and robots files to evaluate the functions on. *)
Definition example_config : Config :=
  {| MAX_CONCURRENT_CRAWLS := 3;
     CRAWL_RESPECT_ROBOTS := true;
     USER_AGENT := py "PolicyCheckBot/1.0";
     TRACKING_PARAMS := map py ["utm_source"; "utm_medium"; "utm_campaign";
                                "fbclid"; "gclid"]%string;
     MAX_FILE_SIZE_BYTES := 52428800;
     MAX_DOWNLOAD_TIME := 120;
     CRAWL_MODE := py "breadth";
     RAW_STORAGE_DIR := py "/data/raw" |}.

(** The parsers of a robots file that disallows, and that allows,
    everything. *)
Definition disallow_all : RobotFileParser :=
  {| rp_disallow_all := false; rp_allow_all := false;
     rp_last_checked := true; rp_entries := fun _ _ => Ok false |}.

Definition allow_all : RobotFileParser :=
  {| rp_disallow_all := false; rp_allow_all := false;
     rp_last_checked := true; rp_entries := fun _ _ => Ok true |}.

(** A server that sends a PDF in two chunks, and one whose connection
    breaks after the first chunk. *)
Definition pdf_response (chunks : list (result (str * Z))) : Response :=
  {| status_code := 200;
     content_type_header := Some (py "application/pdf");
     content_disposition_header := None;
     content_length_header := Some (py "8");
     body := chunks |}.

Definition example_env (chunks : list (result (str * Z))) : DownloadEnv :=
  {| env_resolve := fun p => Ok p;
     env_get := fun _ => Ok (pdf_response chunks);
     env_mkdir := fun _ => Ok tt;
     env_mkdir_made := fun _ => 0;
     env_mktemp := fun dir => Ok (dir ++ py "/tmpk3x9.tmp");
     env_write := fun _ => Ok tt;
     env_close := Ok tt;
     env_rename := Ok tt;
     env_unlink_stream := Ok tt;
     env_unlink_cleanup := Ok tt;
     env_sha256 := fun content => py "sha256:" ++ content |}.


(** A character that a host name may hold: no delimiter of the network
    location, no character that [urlsplit] strips, no bracket. *)
Definition host_char (c : ascii) : bool :=
  negb (is_netloc_delim c || is_unsafe_byte c || char_in c (py "[]")).

(** Where a URL returned by [extract_from_sitemap] comes from: a [loc] of
    a sitemap that was answered with status 200 to one of the requests
    numbered [lo] to [hi - 1], whose text holds [.pdf] and normalizes to
    the URL. *)
Definition sitemap_source `{UrlLib} (cfg : Config) (w : CrawlWorld)
    (base_url : str) (paths : list str) (lo hi : nat) (u : str) : Prop :=
  exists k sitemap_path resp locs url,
    lo <= k < hi /\ In sitemap_path paths /\
    w_sitemap w k (rstrip (py "/") base_url ++ sitemap_path) = Ok resp /\
    sitemap_status resp = 200%Z /\
    sitemap_locs resp = Ok locs /\
    In (Some url) locs /\
    contains (py ".pdf") (lower url) = true /\
    normalize_url (TRACKING_PARAMS cfg) url = Ok u.

(** ASCII text, on which the model of the percent-codec is the one of
    Python. *)
Definition is_ascii_str (s : str) : bool := forallb (fun c => (cp c <? 128)%N) s.

Definition is_ascii_qdict (d : qdict) : bool :=
  forallb (fun kv => is_ascii_str (fst kv) && forallb is_ascii_str (snd kv)) d.

(** The characters of a quoted string. *)
Definition is_quoted_char (c : ascii) : bool :=
  always_safe c || char_in c (py "+%").

(** A dict as [parse_qs] builds it: distinct names, no empty list of
    values. *)
Definition qdict_ok (d : qdict) : Prop :=
  NoDup (map fst d) /\ Forall (fun kv => snd kv <> []) d.

(** ** The crawl of one domain *)

(** [s.strip()] *)
Definition strip (s : str) : str :=
  rev (dropwhile is_space (rev (dropwhile is_space s))).

(** The part of the state of [crawl_domain] that the handling of a page
    changes: the queue, the PDF URLs found, the counters of the path
    prefixes, and the number of requests made. *)
Record PageState : Type := {
  ps_queue : list str;
  ps_pdf_urls : list str;
  ps_path_diversity : list (str * Z);
  ps_tick : nat
}.

(** The body of the [try] of a page: it changes the state and ends with an
    exception or not; what was changed before an exception stays changed. *)
Definition Page (A : Type) : Type := PageState -> PageState * result A.

Definition page_ret {A} (a : A) : Page A := fun ps => (ps, Ok a).

Definition page_bind {A B} (c : Page A) (k : A -> Page B) : Page B :=
  fun ps =>
    match c ps with
    | (ps', Ok a) => k a ps'
    | (ps', Raise e) => (ps', Raise e)
    end.

Definition page_lift {A} (r : result A) : Page A := fun ps => (ps, r).

Definition page_get : Page PageState := fun ps => (ps, Ok ps).

Definition page_modify (f : PageState -> PageState) : Page unit :=
  fun ps => (f ps, Ok tt).

Notation "x <~ c ;; k" := (page_bind c (fun x => k))
  (at level 61, c at next level, right associativity).

Fixpoint page_iter {A} (f : A -> Page unit) (l : list A) : Page unit :=
  match l with
  | [] => page_ret tt
  | a :: rest => _ <~ f a ;; page_iter f rest
  end.

(** [pdf_urls.add(normalized)] *)
Definition add_pdf (normalized : str) : Page unit :=
  page_modify (fun ps =>
    {| ps_queue := ps_queue ps;
       ps_pdf_urls := set_add normalized (ps_pdf_urls ps);
       ps_path_diversity := ps_path_diversity ps;
       ps_tick := ps_tick ps |}).

(** One request more. *)
Definition page_tick : Page nat :=
  fun ps =>
    ({| ps_queue := ps_queue ps;
        ps_pdf_urls := ps_pdf_urls ps;
        ps_path_diversity := ps_path_diversity ps;
        ps_tick := S (ps_tick ps) |}, Ok (ps_tick ps)).

Definition skipped_schemes : list str :=
  map py ["#"; "mailto:"; "tel:"; "javascript:"]%string.

Definition pdf_keywords : list str :=
  map py ["document"; "form"; "download"; "pdf"; "policy";
          "wording"; "pds"; "disclosure"; "legal"; "terms";
          "resources"; "publications"; "brochure"; "guide";
          "factsheet"; "fact-sheet"; "claim"; "certificate";
          "target-market"; "product-guide"; "media"; "assets";
          "uploads"; "files"]%string.

Definition MAX_HEAD_CHECKS_PER_PAGE : nat := 25.

(** [queue.insert(pos, x)] for [0 <= pos <= len(queue)] *)
Definition list_insert {A} (pos : nat) (x : A) (l : list A) : list A :=
  firstn pos l ++ x :: skipn pos l.

(** The last part of the handling of an anchor: the link is queued when it
    is on the seed's domain, not visited, its path prefix has been queued
    less than 20 times and the queue is not full. *)
Definition enqueue_link `{UrlLib} (seed_url : str) (max_pages : Z)
    (visited : list str) (full_url : str) : Page unit :=
  same <~ page_lift (same_domain seed_url full_url) ;;
  if same && negb (str_in full_url visited) then
    parsed <~ page_lift (urlparse full_url) ;;
    let url_path := path parsed in
    let path_prefix := join (py "/") (firstn 3 (split "/" url_path)) in
    ps <~ page_get ;;
    let seen := dict_get path_prefix 0%Z (ps_path_diversity ps) in
    if (seen <? 20)%Z then
      if (Z.of_nat (length (ps_queue ps)) <? Z.max (max_pages * 5) 50000)%Z then
        let url_lower := lower full_url in
        let is_priority := existsb (fun keyword => contains keyword url_lower)
                                   pdf_keywords in
        let is_diverse := (seen <? 5)%Z in
        let queue :=
          if is_priority || is_diverse
          then list_insert (Nat.min 10 (length (ps_queue ps))) full_url
                           (ps_queue ps)
          else ps_queue ps ++ [full_url] in
        page_modify (fun ps =>
          {| ps_queue := queue;
             ps_pdf_urls := ps_pdf_urls ps;
             ps_path_diversity :=
               cache_set path_prefix (seen + 1)%Z (ps_path_diversity ps);
             ps_tick := ps_tick ps |})
      else page_ret tt
    else page_ret tt
  else page_ret tt.

(** The body of the loop over the anchors, for one anchor: the result is
    the new value of [head_checked]. *)
Definition handle_anchor `{UrlLib} (cfg : Config) (w : CrawlWorld)
    (seed_url url : str) (max_pages : Z) (keyword_filters policy_types : list str)
    (visited : list str) (head_checked : nat) (link : str * str) : Page nat :=
  let href := strip (fst link) in
  if negb (nonempty href) || existsb (startswith href) skipped_schemes
  then page_ret head_checked
  else
    full_url <~ page_lift (w_urljoin w url href) ;;
    let link_text := snd link in
    is_pdf <~ page_lift (is_pdf_url full_url) ;;
    if is_pdf then
      normalized <~ page_lift (normalize_url (TRACKING_PARAMS cfg) full_url) ;;
      let '(is_valid, _) :=
        is_valid_document normalized keyword_filters policy_types in
      ps <~ page_get ;;
      _ <~ (if is_valid && negb (str_in normalized (ps_pdf_urls ps))
            then add_pdf normalized else page_ret tt) ;;
      page_ret head_checked
    else
      probe <~
        (if head_checked <? MAX_HEAD_CHECKS_PER_PAGE then
           same <~ page_lift (same_domain seed_url full_url) ;;
           ps <~ page_get ;;
           page_ret (same && negb (str_in full_url visited)
                     && negb (str_in full_url (ps_pdf_urls ps))
                     && is_potential_document_url full_url link_text)
         else page_ret false) ;;
      if probe then
        tick <~ page_tick ;;
        if check_url_is_pdf_via_head w tick full_url then
          normalized <~ page_lift (normalize_url (TRACKING_PARAMS cfg) full_url) ;;
          ps <~ page_get ;;
          _ <~ (if negb (str_in normalized (ps_pdf_urls ps))
                then add_pdf normalized else page_ret tt) ;;
          page_ret (S head_checked)
        else
          _ <~ enqueue_link seed_url max_pages visited full_url ;;
          page_ret (S head_checked)
      else
        _ <~ enqueue_link seed_url max_pages visited full_url ;;
        page_ret head_checked.

Fixpoint anchors_loop `{UrlLib} (cfg : Config) (w : CrawlWorld)
    (seed_url url : str) (max_pages : Z) (keyword_filters policy_types : list str)
    (visited : list str) (head_checked : nat) (links : list (str * str))
  : Page unit :=
  match links with
  | [] => page_ret tt
  | link :: rest =>
      head_checked <~ handle_anchor cfg w seed_url url max_pages keyword_filters
                        policy_types visited head_checked link ;;
      anchors_loop cfg w seed_url url max_pages keyword_filters policy_types
                   visited head_checked rest
  end.

(** The [src] of an [iframe] or [embed], the [data] of an [object], a
    [data-*] attribute. *)
Definition handle_embed `{UrlLib} (cfg : Config) (w : CrawlWorld) (url : str)
    (value : str) : Page unit :=
  embed_url <~ page_lift (w_urljoin w url (strip value)) ;;
  is_pdf <~ page_lift (is_pdf_url embed_url) ;;
  if is_pdf then
    normalized <~ page_lift (normalize_url (TRACKING_PARAMS cfg) embed_url) ;;
    ps <~ page_get ;;
    if negb (str_in normalized (ps_pdf_urls ps))
    then add_pdf normalized else page_ret tt
  else page_ret tt.

(** A quoted PDF name of an [onclick] handler. *)
Definition handle_onclick `{UrlLib} (cfg : Config) (w : CrawlWorld)
    (seed_url url : str) (found : str) : Page unit :=
  match_url <~ page_lift (w_urljoin w url found) ;;
  normalized <~ page_lift (normalize_url (TRACKING_PARAMS cfg) match_url) ;;
  ps <~ page_get ;;
  if negb (str_in normalized (ps_pdf_urls ps)) then
    same <~ page_lift (same_domain seed_url match_url) ;;
    if same then add_pdf normalized else page_ret tt
  else page_ret tt.

Definition process_page `{UrlLib} (cfg : Config) (w : CrawlWorld)
    (seed_url url : str) (max_pages : Z) (keyword_filters policy_types : list str)
    (visited : list str) (page : ParsedPage) : Page unit :=
  _ <~ anchors_loop cfg w seed_url url max_pages keyword_filters policy_types
         visited 0 (anchors page) ;;
  _ <~ page_iter (handle_embed cfg w url) (embeds page) ;;
  _ <~ page_iter (handle_embed cfg w url) (data_attrs page) ;;
  page_iter (handle_onclick cfg w seed_url url) (onclick_matches page).

(** The [try] of the loop of [crawl_domain] with its handlers, which only
    log: the state after the page, whatever happened. *)
Definition fetch_and_process `{UrlLib} (cfg : Config) (w : CrawlWorld)
    (seed_url url : str) (max_pages : Z) (keyword_filters policy_types : list str)
    (visited : list str) (ps : PageState) : PageState :=
  let tick := ps_tick ps in
  let ps := {| ps_queue := ps_queue ps;
               ps_pdf_urls := ps_pdf_urls ps;
               ps_path_diversity := ps_path_diversity ps;
               ps_tick := S tick |} in
  match w_get w tick url with
  | Raise _ => ps
  | Ok resp =>
      if negb (page_status resp =? 200)%Z then ps
      else
        let content_type := lower (header_or_empty (page_content_type resp)) in
        if negb (contains (py "text/html") content_type) then ps
        else
          match page_html resp with
          | Raise _ => ps
          | Ok page =>
              fst (process_page cfg w seed_url url max_pages keyword_filters
                                policy_types visited page ps)
          end
  end.

(** What the iterations of the loop that fetch no page come to: the loop
    ends ([Stop]), or the URL of the next page to fetch is found
    ([Fetch]).  [pending] is the queue in the order in which it is popped;
    the other components are the visited set, the robots cache and the
    number of requests and clock readings. *)
Inductive NextPage : Type :=
| Stop (pending visited : list str) (cache : robots_cache) (tick : nat)
| Fetch (url : str) (pending visited : list str) (cache : robots_cache)
        (tick : nat).

Fixpoint next_page `{UrlLib} (cfg : Config) (w : CrawlWorld) (seed_url : str)
    (max_pages : Z) (time_limit : option Z)
    (pending visited : list str) (cache : robots_cache) (tick : nat)
  : result NextPage :=
  match pending with
  | [] => Ok (Stop [] visited cache tick)
  | url :: rest =>
      let '(late, tick) :=
        match time_limit with
        | Some limit => ((limit <? w_now w tick)%Z, S tick)
        | None => (false, tick)
        end in
      if late then Ok (Stop pending visited cache tick)
      else if (Z.max (max_pages * 5) 100000 <? Z.of_nat (length visited))%Z
      then Ok (Stop pending visited cache tick)
      else if str_in url visited
      then next_page cfg w seed_url max_pages time_limit rest visited cache tick
      else
        let '(can_fetch_result, cache) :=
          can_fetch cfg (w_read_robots w tick) url cache in
        let tick := S tick in
        let visited := set_add url visited in
        if negb can_fetch_result
        then next_page cfg w seed_url max_pages time_limit rest visited cache tick
        else
          same <- same_domain seed_url url ;;
          if negb same
          then next_page cfg w seed_url max_pages time_limit rest visited cache tick
          else Ok (Fetch url rest visited cache tick)
  end.

(** The state of the loop of [crawl_domain]. *)
Record CrawlState : Type := {
  st_queue : list str;
  st_visited : list str;
  st_pdf_urls : list str;
  st_path_diversity : list (str * Z);
  st_robots : robots_cache;
  st_tick : nat
}.

(** The queue in the order in which it is popped, and back: [pop()] takes
    the last element, [popleft()] the first. *)
Definition pop_order (cfg : Config) (q : list str) : list str :=
  if str_eqb (CRAWL_MODE cfg) (py "depth") then rev q else q.

(** The loop [while queue and pages_crawled < max_pages]: [remaining] is
    [max_pages - pages_crawled]. *)
Fixpoint crawl_loop `{UrlLib} (cfg : Config) (w : CrawlWorld) (seed_url : str)
    (max_pages : Z) (keyword_filters policy_types : list str)
    (time_limit : option Z) (remaining : nat) (pages_crawled : Z)
    (st : CrawlState) : result (CrawlState * Z) :=
  match remaining with
  | O => Ok (st, pages_crawled)
  | S remaining' =>
      next <- next_page cfg w seed_url max_pages time_limit
                (pop_order cfg (st_queue st)) (st_visited st) (st_robots st) (st_tick st) ;;
      match next with
      | Stop pending visited cache tick =>
          Ok ({| st_queue := pop_order cfg pending; st_visited := visited;
                 st_pdf_urls := st_pdf_urls st;
                 st_path_diversity := st_path_diversity st;
                 st_robots := cache; st_tick := tick |}, pages_crawled)
      | Fetch url pending visited cache tick =>
          let ps :=
            fetch_and_process cfg w seed_url url max_pages keyword_filters
              policy_types visited
              {| ps_queue := pop_order cfg pending;
                 ps_pdf_urls := st_pdf_urls st;
                 ps_path_diversity := st_path_diversity st;
                 ps_tick := tick |} in
          crawl_loop cfg w seed_url max_pages keyword_filters policy_types
            time_limit remaining' (pages_crawled + 1)%Z
            {| st_queue := ps_queue ps; st_visited := visited;
               st_pdf_urls := ps_pdf_urls ps;
               st_path_diversity := ps_path_diversity ps;
               st_robots := cache; st_tick := ps_tick ps |}
      end
  end.

(** What [crawl_domain] returns and leaves behind: the PDF URLs, the
    number of pages, the visited set (shared with the caller when
    [global_visited] is given), the robots cache and the number of
    requests and clock readings. *)
Record CrawlResult : Type := {
  found : list str;
  pages : Z;
  visited_after : list str;
  robots_after : robots_cache;
  tick_after : nat
}.

(** [crawl_domain] *)
Definition crawl_domain `{UrlLib} (cfg : Config) (w : CrawlWorld)
    (seed_url : str) (max_pages : Z) (keyword_filters policy_types : list str)
    (time_limit : option Z) (global_visited : option (list str))
    (cache : robots_cache) (tick : nat) : result CrawlResult :=
  let visited0 := match global_visited with Some v => v | None => [] end in
  direct <- is_pdf_url seed_url ;;
  if direct then
    normalized <- normalize_url (TRACKING_PARAMS cfg) seed_url ;;
    let '(is_valid, _) :=
      is_valid_document normalized keyword_filters policy_types in
    Ok {| found := if is_valid then [normalized] else [];
          pages := 1; visited_after := visited0;
          robots_after := cache; tick_after := tick |}
  else
    parsed <- urlparse seed_url ;;
    let base_url := scheme parsed ++ py "://" ++ netloc parsed in
    let '(sitemap_pdfs, tick) := extract_from_sitemap cfg w base_url tick in
    let valid_pdfs :=
      filter (fun pdf_url =>
                fst (is_valid_document pdf_url keyword_filters policy_types))
             sitemap_pdfs in
    if nonempty_list sitemap_pdfs && nonempty_list valid_pdfs then
      Ok {| found := valid_pdfs; pages := 1; visited_after := visited0;
            robots_after := cache; tick_after := tick |}
    else
      '(st, pages_crawled) <-
        crawl_loop cfg w seed_url max_pages keyword_filters policy_types
          time_limit (Z.to_nat max_pages) 0
          {| st_queue := [seed_url]; st_visited := visited0; st_pdf_urls := [];
             st_path_diversity := []; st_robots := cache; st_tick := tick |} ;;
      Ok {| found := st_pdf_urls st; pages := pages_crawled;
            visited_after := st_visited st; robots_after := st_robots st;
            tick_after := st_tick st |}.

(** What every step of the handling of a page keeps: the queue holds only
    URLs that [same_domain] accepts without raising, the PDF URLs are
    distinct, and the number of requests does not go down. *)
Definition page_invariant `{UrlLib} (seed_url : str) (tick0 : nat)
    (ps : PageState) : Prop :=
  Forall (fun u => exists b, same_domain seed_url u = Ok b) (ps_queue ps) /\
  NoDup (ps_pdf_urls ps) /\
  tick0 <= ps_tick ps.

(** ** The crawl of the seeds

    The first phase of [run_crawl_session]: the loop over the seed URLs
    with its page budget.  [db_commit] is the outcome of the commit made
    after a seed, by the number of requests made before it. *)

(** The columns of the session row that the phase writes. *)
Record SessionProgress : Type := {
  pages_scanned : Z;
  pdfs_found : Z;
  progress_pct : Z
}.

Record SeedState : Type := {
  all_pdf_urls : list str;
  total_pages : Z;
  remaining_budget : Z;
  global_visited : list str;
  seed_robots : robots_cache;
  seed_tick : nat;
  seed_logs : log_store;
  session_row : SessionProgress
}.

(** [crawl_log] at the time of the clock: one reading more. *)
Definition log_at (w : CrawlWorld) (session_id : Z) (level message : str)
    (st : SeedState) : SeedState :=
  {| all_pdf_urls := all_pdf_urls st;
     total_pages := total_pages st;
     remaining_budget := remaining_budget st;
     global_visited := global_visited st;
     seed_robots := seed_robots st;
     seed_tick := S (seed_tick st);
     seed_logs := crawl_log session_id level message (w_now w (seed_tick st))
                            (seed_logs st);
     session_row := session_row st |}.

(** [f"{idx}/{num_seeds}"] *)
Definition of_total (idx num_seeds : Z) : str :=
  repr_int idx ++ py "/" ++ repr_int num_seeds.

(** [int((idx / max(1, num_seeds)) * 50)] *)
Definition seed_progress (idx num_seeds : Z) : Z :=
  PyFloat.to_Z
    (PrimFloat.mul
       (PrimFloat.div (PyFloat.of_Z idx) (PyFloat.of_Z (Z.max 1 num_seeds)))
       (PyFloat.of_Z 50)).

(** The loop over [enumerate(session.seed_urls, 1)], from the seed
    numbered [idx] on. *)
Fixpoint seeds_loop `{UrlLib} (cfg : Config) (w : CrawlWorld)
    (db_commit : nat -> result unit) (session_id : Z)
    (keyword_filters policy_types : list str) (time_limit : option Z)
    (num_seeds pages_per_seed : Z) (idx : Z) (seed_urls : list str)
    (st : SeedState) : result SeedState :=
  match seed_urls with
  | [] => Ok st
  | seed_url :: rest =>
      let '(late, st) :=
        match time_limit with
        | Some limit =>
            ((limit <? w_now w (seed_tick st))%Z,
             {| all_pdf_urls := all_pdf_urls st;
                total_pages := total_pages st;
                remaining_budget := remaining_budget st;
                global_visited := global_visited st;
                seed_robots := seed_robots st;
                seed_tick := S (seed_tick st);
                seed_logs := seed_logs st;
                session_row := session_row st |})
        | None => (false, st)
        end in
      if late then
        Ok (log_at w session_id (py "warn")
              (py "Time limit reached at seed " ++ of_total idx num_seeds) st)
      else if (remaining_budget st <=? 0)%Z then
        Ok (log_at w session_id (py "info")
              (py "Page budget exhausted at seed " ++ of_total idx num_seeds) st)
      else
        let seed_budget := Z.min pages_per_seed (remaining_budget st) in
        parsed <- urlparse seed_url ;;
        let seed_domain := netloc parsed in
        let st :=
          log_at w session_id (py "info")
            (py "[" ++ of_total idx num_seeds ++ py "] Crawling " ++ seed_domain
             ++ py " (" ++ repr_int seed_budget ++ py " pages)") st in
        r <- crawl_domain cfg w seed_url seed_budget keyword_filters
               policy_types time_limit (Some (global_visited st))
               (seed_robots st) (seed_tick st) ;;
        let all_pdf_urls :=
          fold_left (fun s u => set_add u s) (found r) (all_pdf_urls st) in
        let total_pages := (total_pages st + pages r)%Z in
        let remaining_budget := (remaining_budget st - pages r)%Z in
        let row :=
          {| pages_scanned := total_pages;
             pdfs_found := Z.of_nat (length all_pdf_urls);
             progress_pct := Z.min 50 (seed_progress idx num_seeds) |} in
        _ <- db_commit (tick_after r) ;;
        let st :=
          {| all_pdf_urls := all_pdf_urls;
             total_pages := total_pages;
             remaining_budget := remaining_budget;
             global_visited := visited_after r;
             seed_robots := robots_after r;
             seed_tick := S (tick_after r);
             seed_logs := seed_logs st;
             session_row := row |} in
        let st :=
          log_at w session_id (py "info")
            (py "[" ++ of_total idx num_seeds ++ py "] " ++ seed_domain
             ++ py ": " ++ repr_int (Z.of_nat (length (found r)))
             ++ py " PDFs, " ++ repr_int (pages r)
             ++ py " pages (total: " ++ repr_int (Z.of_nat (length all_pdf_urls))
             ++ py " PDFs)") st in
        seeds_loop cfg w db_commit session_id keyword_filters policy_types
                   time_limit num_seeds pages_per_seed (idx + 1)%Z rest st
  end.

(** The first phase, from the budget computation to the end of the loop
    over the seeds.  [row] is the session row before it, [cache] the
    robots cache and [logs] the log store. *)
Definition crawl_seeds `{UrlLib} (cfg : Config) (w : CrawlWorld)
    (db_commit : nat -> result unit) (session_id : Z) (max_pages : Z)
    (seed_urls keyword_filters policy_types : list str)
    (time_limit : option Z) (row : SessionProgress) (cache : robots_cache)
    (logs : log_store) (tick : nat) : result SeedState :=
  let num_seeds := Z.of_nat (length seed_urls) in
  let pages_per_seed := Z.max 3 (max_pages / Z.max 1 num_seeds) in
  let st :=
    {| all_pdf_urls := []; total_pages := 0; remaining_budget := max_pages;
       global_visited := []; seed_robots := cache; seed_tick := tick;
       seed_logs := logs; session_row := row |} in
  let st :=
    log_at w session_id (py "info")
      (py "Starting crawl: " ++ repr_int num_seeds ++ py " seeds, "
       ++ repr_int max_pages ++ py " total pages, "
       ++ repr_int pages_per_seed ++ py " pages/seed") st in
  seeds_loop cfg w db_commit session_id keyword_filters policy_types time_limit
             num_seeds pages_per_seed 1 seed_urls st.

(** A small site to evaluate the crawler on: a start page that links to a
    PDF and to a second page, which links to another PDF with a tracking
    parameter and embeds a third; no robots restrictions, no sitemap, no
    answer to HEAD requests. *)
Definition example_page (links : list (str * str)) (embedded : list str)
  : result PageResponse :=
  Ok {| page_status := 200;
        page_content_type := Some (py "text/html; charset=utf-8");
        page_html := Ok {| anchors := links; embeds := embedded;
                           data_attrs := []; onclick_matches := [] |} |}.

Definition example_world : CrawlWorld :=
  {| w_now := fun t => Z.of_nat t;
     w_read_robots := fun _ _ => Ok allow_all;
     w_get := fun _ url =>
       if str_eqb url (py "https://a.nz/")
       then example_page
              [(py " /docs/car.pdf ", py "Car policy"); (py "/about", py "About");
               (py "mailto:x@a.nz", py "Mail"); (py "/about", py "About again")]
              []
       else if str_eqb url (py "https://a.nz/about")
       then example_page
              [(py "/docs/home.pdf?utm_source=x", py "Home"); (py "/", py "Start")]
              [py "/e.pdf"]
       else Raise RequestException;
     w_head := fun _ _ => Raise RequestException;
     w_sitemap := fun _ _ => Raise RequestException;
     w_urljoin := fun _ href => Ok (py "https://a.nz" ++ href) |}.

(** The requests that the handling of an anchor may add: a HEAD request
    or none; one exactly when the anchor is counted in [head_checked], and
    none once [MAX_HEAD_CHECKS_PER_PAGE] were counted. *)
Definition anchor_cost (head_checked : nat) (ps : PageState)
    (r : PageState * result nat) : Prop :=
  ps_tick ps <= ps_tick (fst r) /\
  (ps_tick (fst r) + head_checked
   <= ps_tick ps + Nat.max head_checked MAX_HEAD_CHECKS_PER_PAGE) /\
  (forall head_checked', snd r = Ok head_checked' ->
     ps_tick (fst r) + head_checked = ps_tick ps + head_checked').

(** A URL that [same_domain] compares with the seed without raising. *)
Definition comparable `{UrlLib} (seed_url u : str) : Prop :=
  exists b, same_domain seed_url u = Ok b.

(** The budget accounts of the loop over the seeds: the pages counted and
    the budget left add up to [max_pages], and the count recorded in the
    session row is the count so far ([row0] is the row before the loop). *)
Definition budget_accounts (max_pages : Z) (row0 : SessionProgress)
    (st : SeedState) : Prop :=
  (0 <= total_pages st <= Z.max 0 max_pages)%Z /\
  remaining_budget st = (max_pages - total_pages st)%Z /\
  (pages_scanned (session_row st) = total_pages st \/ session_row st = row0).

(** ** The download step of a session

    What [run_crawl_session] does with the result of a download: the
    duplicate check on the content digest, its handler, and the branch for
    a failed download.  A [Document] row is kept with the columns that
    the step reads or writes. *)

Record Document : Type := {
  doc_id : Z;
  doc_file_hash : str;
  doc_local_file_path : option str;
  doc_source_url : str;
  doc_file_size : Z;
  doc_crawl_session_id : Z
}.

(** The counters of the download phase and [session.errors_count]. *)
Record Tally : Type := {
  downloaded_count : Z;
  filtered_count : Z;
  duplicate_count : Z;
  error_count : Z;
  errors_count : option Z
}.

Record Store : Type := {
  documents : list Document;
  files : filesystem;
  tally : Tally
}.

(** The outcome of the operations that depend on the database and on the
    operating system. *)
Record StoreEnv : Type := {
  db_query : result unit;          (* the query for the digest *)
  db_commit_refresh : result unit; (* the commit of a refreshed record *)
  db_commit_error : result unit;   (* the commit of an error count *)
  os_unlink : result unit          (* [local_path.unlink()] *)
}.

(** [(session.errors_count or 0) + 1] *)
Definition count_error (t : Tally) : Tally :=
  {| downloaded_count := downloaded_count t;
     filtered_count := filtered_count t;
     duplicate_count := duplicate_count t;
     error_count := (error_count t + 1)%Z;
     errors_count :=
       Some (match errors_count t with
             | Some n => n + 1
             | None => 1
             end)%Z |}.

(** The first row with the digest, [.first()]. *)
Definition find_by_hash (file_hash : str) (docs : list Document)
  : option Document :=
  find (fun d => str_eqb (doc_file_hash d) file_hash) docs.

(** The assignment to the attributes of the row found. *)
Fixpoint refresh_first (file_hash local_path pdf_url : str) (size session_id : Z)
    (docs : list Document) : list Document :=
  match docs with
  | [] => []
  | d :: rest =>
      if str_eqb (doc_file_hash d) file_hash
      then {| doc_id := doc_id d;
              doc_file_hash := doc_file_hash d;
              doc_local_file_path := Some local_path;
              doc_source_url := pdf_url;
              doc_file_size := size;
              doc_crawl_session_id := session_id |} :: rest
      else d :: refresh_first file_hash local_path pdf_url size session_id rest
  end.

(** Where the body of the [try] leaves the loop: at a [continue], or on to
    the classification. *)
Inductive AfterCheck : Type := ContinueLoop | Classify.

(** The duplicate check.  In the branch of a record whose file is missing
    the statement after the commit increments [download_count], a name
    that is assigned nowhere else in the function (the counter is
    [downloaded_count]): it is a local variable without a value. *)
Definition check_existing (env : StoreEnv) (session_id : Z)
    (pdf_url local_path : str) (download_result : DownloadResult)
    (st : Store) : result AfterCheck * Store :=
  match db_query env with
  | Raise e => (Raise e, st)
  | Ok _ =>
      match find_by_hash (file_hash download_result) (documents st) with
      | Some existing_doc =>
          let existing_file_path :=
            match doc_local_file_path existing_doc with
            | Some p => if nonempty p then Some p else None
            | None => None
            end in
          if match existing_file_path with
             | Some p => fs_exists p (files st)
             | None => false
             end
          then
            let files :=
              if fs_exists local_path (files st)
              then match os_unlink env with
                   | Ok _ => fs_remove local_path (files st)
                   | Raise _ => files st
                   end
              else files st in
            (Ok ContinueLoop,
             {| documents := documents st;
                files := files;
                tally :=
                  {| downloaded_count := downloaded_count (tally st);
                     filtered_count := (filtered_count (tally st) + 1)%Z;
                     duplicate_count := (duplicate_count (tally st) + 1)%Z;
                     error_count := error_count (tally st);
                     errors_count := errors_count (tally st) |} |})
          else
            let st :=
              {| documents :=
                   refresh_first (file_hash download_result) local_path pdf_url
                                 (file_size download_result) session_id
                                 (documents st);
                 files := files st;
                 tally := tally st |} in
            match db_commit_refresh env with
            | Raise e => (Raise e, st)
            | Ok _ => (Raise UnboundLocalError, st)
            end
      | None => (Ok Classify, st)
      end
  end.

(** The [if download_result:] of the loop over the candidates, with the
    handler of the [try]; [classify_and_store] is the rest of the body of
    the [try]. *)
Definition handle_download (env : StoreEnv) (session_id : Z)
    (pdf_url local_path : str) (download_result : option DownloadResult)
    (classify_and_store : Store -> result unit * Store)
    (st : Store) : result unit * Store :=
  match download_result with
  | Some downloaded =>
      let '(outcome, st) :=
        match check_existing env session_id pdf_url local_path downloaded st with
        | (Ok ContinueLoop, st) => (Ok tt, st)
        | (Ok Classify, st) => classify_and_store st
        | (Raise e, st) => (Raise e, st)
        end in
      match outcome with
      | Raise SQLAlchemyError =>
          let st := {| documents := documents st; files := files st;
                       tally := count_error (tally st) |} in
          match db_commit_error env with
          | Ok _ => (Ok tt, st)
          | Raise e => (Raise e, st)
          end
      | other => (other, st)
      end
  | None =>
      let st := {| documents := documents st; files := files st;
                   tally := count_error (tally st) |} in
      match db_commit_error env with
      | Ok _ => (Ok tt, st)
      | Raise e => (Raise e, st)
      end
  end.

(** A scheme as [urlsplit] returns it: empty, or lower-case text that
    starts with a letter and is made of scheme characters. *)
Definition scheme_ok (s : str) : Prop :=
  s = [] \/
  (exists c pre, s = c :: pre /\ is_ascii_alpha c = true) /\
  forallb is_scheme_char s = true /\ lower s = s.

Definition safe_text (s : str) : Prop :=
  forallb (fun c => negb (is_unsafe_byte c)) s = true.

(** The characters of an encoded query. *)
Definition is_query_char (c : ascii) : bool :=
  is_quoted_char c || Ascii.eqb c "=" || Ascii.eqb c "&".

(** ** Host names

    The text of a host as a list of labels, to state what [same_domain]
    compares.  A label is not empty and is made of letters, digits and
    hyphens; a port is made of digits. *)
Definition is_label_char (c : ascii) : bool :=
  let n := cp c in
  in_range 97 122 n || in_range 65 90 n || in_range 48 57 n
  || Ascii.eqb c "-".

Definition is_label (l : str) : bool := nonempty l && forallb is_label_char l.

Definition is_port (p : str) : bool :=
  forallb (fun c => in_range 48 57 (cp c)) p.

Definition host_text (labels : list str) (port : option str) : str :=
  join (py ".") labels
  ++ match port with Some p => py ":" ++ p | None => [] end.

(** One leading label [www] is not counted, unless it is the only one. *)
Definition drop_www (labels : list str) : list str :=
  match labels with
  | w :: (_ :: _) as rest => if str_eqb w (py "www") then rest else labels
  | _ => labels
  end.

(** The registrable domain by the rule of the specification: the last
    three labels when the last two form a listed suffix, else the last
    two. *)
Definition registrable_domain (labels : list str) : str :=
  if (3 <=? length labels)
     && str_in (join (py ".") (last_n 2 labels)) CCLD_SUFFIXES
  then join (py ".") (last_n 3 labels)
  else join (py ".") (last_n 2 labels).

(** * Properties *)

(** ** Facts about the string operations *)

Lemma char_in_In c cs : char_in c cs = true <-> In c cs.
Proof.
  unfold char_in. rewrite existsb_exists. split.
  - intros [x [Hin Heq]]. apply Ascii.eqb_eq in Heq. now subst.
  - intros Hin. exists c. split; [assumption | apply Ascii.eqb_refl].
Qed.

Lemma lstrip_suffix chars s : exists p, s = p ++ lstrip chars s.
Proof.
  induction s as [|c t [p Hp]]; simpl.
  - now exists [].
  - destruct (char_in c chars).
    + exists (c :: p). simpl. now f_equal.
    + now exists [].
Qed.

Lemma lstrip_head chars s c :
  hd_error (lstrip chars s) = Some c -> char_in c chars = false.
Proof.
  induction s as [|x t IH]; simpl; [discriminate|].
  destruct (char_in x chars) eqn:E; [assumption|].
  simpl. intros [= <-]. exact E.
Qed.

Lemma Forall_lstrip (P : ascii -> Prop) chars s :
  Forall P s -> Forall P (lstrip chars s).
Proof.
  intros H. destruct (lstrip_suffix chars s) as [p Hp].
  rewrite Hp in H. now apply Forall_app in H.
Qed.

Lemma hd_error_firstn {A} n (l : list A) :
  hd_error (firstn (S n) l) = hd_error l.
Proof. now destruct l. Qed.

(** ** [sanitize_filename] *)

Lemma filename_char_ok_spec c :
  filename_char_ok c = true -> isalnum c = true \/ In c (py "_-.").
Proof.
  unfold filename_char_ok. intros H. apply orb_true_iff in H.
  destruct H as [H|H]; [now left | right; now apply char_in_In].
Qed.

(** C10. For every input, [sanitize_filename] returns a non-empty string of
    at most 200 characters, made only of alphanumeric characters,
    underscore, hyphen and period, that does not begin with a period and
    holds neither '/' nor '\'. *)
Theorem sanitize_filename_safe (name : str) :
  let r := sanitize_filename name in
  r <> [] /\
  length r <= 200 /\
  Forall (fun c => isalnum c = true \/ In c (py "_-.")) r /\
  hd_error r <> Some "."%char /\
  ~ In "/"%char r /\ ~ In "\"%char r.
Proof.
  unfold sanitize_filename.
  set (s0 := replace _ _ _).
  set (s1 := filter filename_char_ok s0).
  set (s2 := match lstrip (py ".") s1 with [] => py "unknown" | _ => _ end).
  assert (Hok : Forall (fun c => filename_char_ok c = true) s2).
  { subst s2. destruct (lstrip (py ".") s1) eqn:E.
    - repeat constructor.
    - rewrite <- E. apply Forall_lstrip. subst s1.
      apply Forall_forall. intros c Hc. now apply filter_In in Hc. }
  assert (Hne : s2 <> []).
  { subst s2. destruct (lstrip (py ".") s1); discriminate. }
  assert (Hhd : hd_error s2 <> Some "."%char).
  { subst s2. destruct (lstrip (py ".") s1) eqn:E.
    - discriminate.
    - rewrite <- E. intros H. apply lstrip_head in H. discriminate. }
  set (r := if 200 <? length s2 then firstn 200 s2 else s2).
  assert (Hr : Forall (fun c => filename_char_ok c = true) r).
  { subst r. destruct (200 <? length s2); [|assumption].
    rewrite <- (firstn_skipn 200 s2) in Hok. now apply Forall_app in Hok. }
  cbv zeta. fold r.
  repeat split.
  - subst r. destruct (200 <? length s2); [|assumption].
    destruct s2; [contradiction | discriminate].
  - subst r. destruct (200 <? length s2) eqn:E.
    + apply firstn_le_length.
    + apply Nat.ltb_ge in E. exact E.
  - eapply Forall_impl; [|exact Hr]. apply filename_char_ok_spec.
  - subst r. destruct (200 <? length s2); [|assumption].
    now rewrite hd_error_firstn.
  - intros Hin. rewrite Forall_forall in Hr. apply Hr in Hin. discriminate.
  - intros Hin. rewrite Forall_forall in Hr. apply Hr in Hin. discriminate.
Qed.

(** ** Concurrency registry *)

Lemma min_by_value_spec rest : forall best,
  let m := min_by_value best rest in
  In m (best :: rest) /\
  (forall kv, In kv (best :: rest) -> (snd m <= snd kv)%Z).
Proof.
  induction rest as [|kv rest IH]; intros best; simpl.
  - split; [now left|]. intros kv [<-|[]]. lia.
  - specialize (IH (if (snd kv <? snd best)%Z then kv else best)).
    cbv zeta in IH. destruct IH as [Hin Hmin].
    destruct (snd kv <? snd best)%Z eqn:E.
    + apply Z.ltb_lt in E. split.
      * destruct Hin as [<-|Hin]; [right; now left | right; now right].
      * intros x [<-|[<-|Hx]].
        -- specialize (Hmin kv (or_introl eq_refl)). lia.
        -- apply Hmin. now left.
        -- apply Hmin. now right.
    + apply Z.ltb_ge in E. split.
      * destruct Hin as [<-|Hin]; [now left | right; now right].
      * intros x [<-|[<-|Hx]].
        -- apply Hmin. now left.
        -- specialize (Hmin best (or_introl eq_refl)). lia.
        -- apply Hmin. now right.
Qed.

(** C4, as the code has it.  With a ceiling of at least one,
    [can_start_crawl] returns true exactly when the number of active
    crawls is below the ceiling and false exactly when it is at or above
    the ceiling; the reason returned with false names a registered crawl
    whose start time is the earliest. *)
Theorem can_start_crawl_spec (MAX : Z) (reg : registry) (Hmax : (0 < MAX)%Z) :
  (can_start_crawl MAX reg = Ok (true, None)
     <-> (get_active_crawl_count reg < MAX)%Z) /\
  ((exists reason, can_start_crawl MAX reg = Ok (false, reason))
     <-> (get_active_crawl_count reg >= MAX)%Z) /\
  (forall reason, can_start_crawl MAX reg = Ok (false, reason) ->
     exists id started,
       In (id, started) reg /\
       (forall id' started', In (id', started') reg -> (started <= started')%Z) /\
       reason = Some (limit_reason MAX id)).
Proof.
  unfold can_start_crawl.
  rewrite Z.geb_leb.
  destruct (MAX <=? get_active_crawl_count reg)%Z eqn:E.
  - apply Z.leb_le in E.
    destruct reg as [|kv rest].
    { unfold get_active_crawl_count in E. simpl in E. lia. }
    simpl oldest_crawl. cbn [bind].
    destruct (min_by_value_spec rest kv) as [Hin Hmin].
    repeat split.
    + discriminate.
    + lia.
    + lia.
    + intros _. eexists. reflexivity.
    + intros reason [= <-].
      destruct (min_by_value kv rest) as [id started] eqn:Em.
      exists id, started. repeat split.
      * exact Hin.
      * intros id' started' H'. apply (Hmin (id', started') H').
  - apply Z.leb_gt in E. repeat split.
    + intros _. lia.
    + intros [reason H]. discriminate.
    + lia.
    + intros reason H. discriminate.
Qed.

Lemma can_start_crawl_spec_witness :
  (can_start_crawl 3 [(7, 100); (8, 90); (9, 95)]%Z
     = Ok (false, Some (limit_reason 3 8))) /\
  (exists id started,
      In (id, started) [(7, 100); (8, 90); (9, 95)]%Z /\
      (forall id' started', In (id', started') [(7, 100); (8, 90); (9, 95)]%Z ->
                            (started <= started')%Z) /\
      Some (limit_reason 3 8) = Some (limit_reason 3 id)).
Proof.
  split; [reflexivity|].
  apply (proj2 (proj2 (can_start_crawl_spec 3
                         [(7, 100); (8, 90); (9, 95)]%Z ltac:(lia)))).
  reflexivity.
Defined.

(** C4, where the claim as written fails: above the ceiling (three crawls
    registered against a ceiling of two) [can_start_crawl] returns false
    although the active count differs from the ceiling. *)
Lemma can_start_crawl_false_above_ceiling :
  let reg := register_active_crawl 3 30
               (register_active_crawl 2 20 (register_active_crawl 1 10 [])) in
  can_start_crawl 2 reg
    = Ok (false,
          Some (py "Maximum concurrent crawls (2) reached. Oldest active crawl: #1"))
  /\ get_active_crawl_count reg = 3%Z
  /\ get_active_crawl_count reg <> 2%Z.
Proof. vm_compute. repeat split; discriminate. Qed.

(** ** More facts about strings *)

Lemma str_eqb_eq a : forall b, str_eqb a b = true <-> a = b.
Proof.
  induction a as [|x a IH]; intros [|y b]; simpl; split; try easy.
  - intros H. apply andb_true_iff in H. destruct H as [H1 H2].
    apply Ascii.eqb_eq in H1. apply IH in H2. now subst.
  - intros [= -> ->]. rewrite Ascii.eqb_refl. now apply IH.
Qed.

Lemma str_eqb_refl a : str_eqb a a = true.
Proof. now apply str_eqb_eq. Qed.

Lemma str_eqb_neq a b : a <> b -> str_eqb a b = false.
Proof.
  intros H. destruct (str_eqb a b) eqn:E; [|reflexivity].
  apply str_eqb_eq in E. contradiction.
Qed.

Lemma str_in_In x l : str_in x l = true <-> In x l.
Proof.
  unfold str_in. rewrite existsb_exists. split.
  - intros [y [Hin Heq]]. apply str_eqb_eq in Heq. now subst.
  - intros Hin. exists x. split; [assumption | apply str_eqb_refl].
Qed.

Lemma split_nonempty c s : split c s <> [].
Proof.
  destruct s as [|x t]; simpl; [discriminate|].
  destruct (Ascii.eqb x c); [discriminate|].
  destruct (split c t); discriminate.
Qed.

Lemma split_no_sep c s : Forall (fun p => ~ In c p) (split c s).
Proof.
  induction s as [|x t IH]; simpl.
  - constructor; [easy | constructor].
  - destruct (Ascii.eqb x c) eqn:E.
    + constructor; [easy | assumption].
    + destruct (split c t) as [|p ps]; [repeat constructor; simpl|].
      * intros [->|[]]. now rewrite Ascii.eqb_refl in E.
      * inversion IH; subst. constructor; [|assumption].
        intros [->|Hin]; [now rewrite Ascii.eqb_refl in E | contradiction].
Qed.

Lemma join_split c s : join [c] (split c s) = s.
Proof.
  induction s as [|x t IH]; simpl; [reflexivity|].
  destruct (Ascii.eqb x c) eqn:E.
  - apply Ascii.eqb_eq in E. subst x.
    destruct (split c t) eqn:Es; [now apply split_nonempty in Es|].
    simpl in *. now rewrite IH.
  - destruct (split c t) as [|p ps] eqn:Es; [now apply split_nonempty in Es|].
    destruct ps; simpl in *; now rewrite <- IH.
Qed.

Lemma last_n_app {A} (n : nat) (pre l : list A) :
  length l = n -> last_n n (pre ++ l) = l.
Proof.
  intros <-. unfold last_n. rewrite length_app.
  replace (length pre + length l - length l) with (length pre + 0) by lia.
  rewrite skipn_app, Nat.add_0_r, skipn_all.
  replace (length pre - length pre) with 0 by lia. reflexivity.
Qed.

Lemma last_n_short {A} n (l : list A) : length l <= n -> last_n n l = l.
Proof.
  intros H. unfold last_n. now replace (length l - n) with 0 by lia.
Qed.

(** ** [same_domain] *)

Lemma ccld_suffixes_dotted : Forall (fun s => In "."%char s) CCLD_SUFFIXES.
Proof.
  apply Forall_forall. intros s Hs. apply char_in_In.
  apply str_in_In in Hs. revert s Hs.
  assert (Hall : forallb (char_in ".") CCLD_SUFFIXES = true) by reflexivity.
  rewrite forallb_forall in Hall.
  intros s Hs. apply Hall. now apply str_in_In.
Qed.

(** The rule of [get_base_domain]: the last three labels of the host when
    its last two form a known suffix, else its last two (all the labels
    when there are fewer). *)
Lemma get_base_domain_rule (netloc : str) :
  let parts := split "." (strip_host netloc) in
  get_base_domain netloc =
    if str_in (join (py ".") (last_n 2 parts)) CCLD_SUFFIXES
    then join (py ".") (last_n 3 parts)
    else join (py ".") (last_n 2 parts).
Proof.
  unfold get_base_domain. cbv zeta.
  set (h := strip_host netloc).
  pose proof (split_nonempty "." h) as Hne.
  pose proof (split_no_sep "." h) as Hsep.
  pose proof (join_split "." h) as Hjoin.
  destruct (split "." h) as [|p1 [|p2 [|p3 rest]]] eqn:Es; [contradiction| | |].
  - (* a single label holds no dot, so it is no known suffix *)
    simpl length. simpl Nat.leb. simpl andb. cbv iota.
    rewrite (last_n_short 2) by (simpl; lia).
    simpl join in *. subst p1.
    destruct (str_in h CCLD_SUFFIXES) eqn:E; [|reflexivity].
    exfalso. apply str_in_In in E.
    pose proof ccld_suffixes_dotted as Hd. rewrite Forall_forall in Hd.
    apply Hd in E. inversion Hsep; subst. contradiction.
  - simpl length. simpl Nat.leb. simpl andb. cbv iota.
    rewrite (last_n_short 3) by (simpl; lia).
    rewrite (last_n_short 2) by (simpl; lia).
    now destruct (str_in _ CCLD_SUFFIXES).
  - change (3 <=? length (p1 :: p2 :: p3 :: rest)) with true.
    change (2 <=? length (p1 :: p2 :: p3 :: rest)) with true.
    reflexivity.
Qed.

(** ** [is_valid_document] *)

(** A URL whose text ends in [.pdf] or [.pdf/] is accepted whatever the
    filters are. *)
Lemma is_valid_document_pdf_suffix url keyword_filters policy_types :
  endswith (lower url) (py ".pdf") || endswith (lower url) (py ".pdf/") = true ->
  fst (is_valid_document url keyword_filters policy_types) = true.
Proof.
  intros H. unfold is_valid_document.
  destruct (match_policy_type _ _); [reflexivity|].
  destruct (_ && _); [reflexivity|]. now rewrite H.
Qed.

(** C2, on the code: a PDF URL that carries a query string satisfies
    [is_pdf_url], is left as it is by [normalize_url], and is rejected by
    [is_valid_document] when no filter matches. *)
Theorem is_valid_document_rejects_pdf_url `{UrlLib} :
  let url := py "https://example.com/docs/policy.pdf?v=2" in
  is_pdf_url url = Ok true /\
  normalize_url [py "utm_source"; py "utm_medium"] url = Ok url /\
  is_valid_document url [] [] = (false, None).
Proof. repeat split; reflexivity. Qed.

(** ** [classify_document] *)

Lemma review_status_keeps_warnings confidence warnings w :
  In w warnings -> In w (snd (review_status confidence warnings)).
Proof.
  intros Hw. unfold review_status.
  destruct (PrimFloat.leb 0.85 confidence); [exact Hw|].
  destruct (PrimFloat.leb 0.5 confidence); simpl.
  - destruct (negb _); [apply in_or_app; now left | exact Hw].
  - apply in_or_app; now left.
Qed.

Lemma finish_classification_small_file `{UrlLib} now url (file_size : Z)
    stages c :
  finish_classification now url (Some file_size) stages = Ok c ->
  file_size <> 0%Z -> (file_size < 10000)%Z ->
  confidence c =
    PyFloat.round2 (PrimFloat.mul (fst (fst (fst (fst stages)))) 0.5%float) /\
  In (py "Very small file") (warnings c).
Proof.
  destruct stages as [[[[conf0 cls] warns] src] pt].
  intros Hc Hnz Hlt. cbn [fst].
  unfold finish_classification, adjust_for_file_size in Hc.
  apply Z.eqb_neq in Hnz. rewrite Hnz in Hc.
  apply Z.ltb_lt in Hlt. rewrite Hlt in Hc.
  pose proof (review_status_keeps_warnings (PrimFloat.mul conf0 0.5)
                (warns ++ [py "Very small file"]) (py "Very small file")) as Hw.
  destruct (review_status (PrimFloat.mul conf0 0.5) (warns ++ [py "Very small file"]))
    as [st warns'].
  destruct (urlparse url); [|discriminate].
  cbn [bind] in Hc. injection Hc as <-. cbn [confidence warnings].
  split; [reflexivity|].
  apply Hw. apply in_or_app. right. now left.
Qed.

Lemma classify_document_eq `{UrlLib} now url filename policy_type file_size
    pdf_text_sample :
  classify_document now url filename policy_type file_size pdf_text_sample =
  finish_classification now url file_size
    (classify_stages url filename policy_type pdf_text_sample).
Proof. reflexivity. Qed.

Lemma confidence_before_adjustment_eq url filename policy_type pdf_text_sample :
  confidence_before_adjustment url filename policy_type pdf_text_sample =
  fst (fst (fst (fst (classify_stages url filename policy_type
                                      pdf_text_sample)))).
Proof. reflexivity. Qed.

(** A file of 1 to 9999 bytes has its confidence halved and carries the
    very-small-file warning. *)
Lemma classify_document_small_file `{UrlLib} now url filename policy_type
    (file_size : Z) pdf_text_sample c :
  classify_document now url filename policy_type (Some file_size)
                    pdf_text_sample = Ok c ->
  file_size <> 0%Z -> (file_size < 10000)%Z ->
  confidence c =
    PyFloat.round2
      (PrimFloat.mul
         (confidence_before_adjustment url filename policy_type pdf_text_sample)
         0.5%float) /\
  In (py "Very small file") (warnings c).
Proof.
  rewrite classify_document_eq, confidence_before_adjustment_eq.
  apply finish_classification_small_file.
Qed.

(** C9, on the code: an empty download ([file_size = 0], which is below
    10KB) keeps the confidence computed before the file-size adjustment
    and carries no very-small-file warning; here it is auto-approved with
    confidence 1. *)
Theorem classify_document_empty_file `{UrlLib} (now : Z) :
  let url := py "https://www.tower.co.nz/docs/car-product-disclosure.pdf" in
  let filename := py "car-product-disclosure.pdf" in
  exists c,
    classify_document now url filename (py "General") (Some 0%Z) None = Ok c /\
    confidence_before_adjustment url filename (py "General") None = 1.0%float /\
    confidence c = 1.0%float /\
    warnings c = [] /\
    status c = py "auto-approved".
Proof.
  eexists. split; [vm_compute; reflexivity|]. repeat split; vm_compute; reflexivity.
Qed.

(** ** [can_fetch] *)




(** ** File system facts *)

Lemma fs_exists_remove_same p fs : fs_exists p (fs_remove p fs) = false.
Proof.
  unfold fs_exists, fs_remove.
  destruct (str_in p (filter _ fs)) eqn:E; [|reflexivity].
  apply str_in_In in E. apply filter_In in E. destruct E as [_ E].
  now rewrite str_eqb_refl in E.
Qed.

Lemma fs_exists_remove_other p q fs :
  p <> q -> fs_exists q (fs_remove p fs) = fs_exists q fs.
Proof.
  intros Hpq. unfold fs_exists, fs_remove.
  destruct (str_in q fs) eqn:E.
  - apply str_in_In. apply filter_In. split; [now apply str_in_In|].
    rewrite str_eqb_neq; [reflexivity | congruence].
  - destruct (str_in q (filter _ fs)) eqn:E'; [|reflexivity].
    apply str_in_In in E'. apply filter_In in E'. destruct E' as [E' _].
    apply str_in_In in E'. congruence.
Qed.

Lemma fs_exists_create_same p fs : fs_exists p (fs_create p fs) = true.
Proof.
  unfold fs_create. destruct (fs_exists p fs) eqn:E; [exact E|].
  unfold fs_exists. simpl. now rewrite str_eqb_refl.
Qed.

Lemma fs_exists_create_other p q fs :
  p <> q -> fs_exists q (fs_create p fs) = fs_exists q fs.
Proof.
  intros Hpq. unfold fs_create. destruct (fs_exists p fs); [reflexivity|].
  unfold fs_exists. simpl. rewrite str_eqb_neq; [reflexivity | congruence].
Qed.

Lemma fs_remove_absent p fs : fs_exists p fs = false -> fs_remove p fs = fs.
Proof.
  unfold fs_exists, fs_remove. induction fs as [|q fs IH]; simpl; [reflexivity|].
  intros H. apply orb_false_iff in H. destruct H as [H1 H2].
  replace (str_eqb q p) with false.
  - simpl. now rewrite IH.
  - symmetry. destruct (str_eqb q p) eqn:E; [|reflexivity].
    apply str_eqb_eq in E. subst q. now rewrite str_eqb_refl in H1.
Qed.

(** ** [download_pdf_streaming] *)

Lemma body_content_cons c chunks :
  body_content (c :: chunks) = chunk_data c ++ body_content chunks.
Proof. reflexivity. Qed.

(** The streaming loop: it ends all the chunks only when each was
    delivered in time and the size stayed under the ceiling; its early
    returns remove the temporary file; an error leaves it. *)
Lemma stream_chunks_spec cfg env tmp chunks :
  forall writes bytes content fs,
  fs_exists tmp fs = true ->
  match stream_chunks cfg env tmp chunks writes bytes content fs with
  | (Ok (Some (size, c)), fs') =>
      fs' = fs /\ Forall (chunk_delivered cfg) chunks /\
      size = (bytes + Z.of_nat (length (body_content chunks)))%Z /\
      c = content ++ body_content chunks /\
      ((bytes <= MAX_FILE_SIZE_BYTES cfg)%Z ->
       (size <= MAX_FILE_SIZE_BYTES cfg)%Z)
  | (Ok None, fs') => fs' = fs_remove tmp fs
  | (Raise _, fs') => fs' = fs
  end.
Proof.
  induction chunks as [|[[data elapsed]|e] rest IH];
    intros writes bytes content fs Hex.
  - simpl. repeat split; [constructor | lia | now rewrite app_nil_r | auto].
  - cbn [stream_chunks]. destruct data as [|d data'].
    + cbn [nonempty]. specialize (IH writes bytes content fs Hex).
      destruct (stream_chunks cfg env tmp rest writes bytes content fs)
        as [[[[size c]|]|] fs']; [|exact IH|exact IH].
      destruct IH as (-> & Hall & -> & -> & Hle).
      repeat split; auto. constructor; [|exact Hall]. simpl. congruence.
    + cbn [nonempty]. set (data := d :: data') in *.
      unfold fs_unlink. rewrite Hex.
      destruct (MAX_FILE_SIZE_BYTES cfg <? bytes + Z.of_nat (length data))%Z
        eqn:Esize; [destruct (env_unlink_stream env); reflexivity|].
      destruct (MAX_DOWNLOAD_TIME cfg <? elapsed)%Z eqn:Etime;
        [destruct (env_unlink_stream env); reflexivity|].
      destruct (env_write env writes); [|reflexivity].
      specialize (IH (S writes) (bytes + Z.of_nat (length data))%Z
                     (content ++ data) fs Hex).
      destruct (stream_chunks cfg env tmp rest (S writes) _ _ fs)
        as [[[[size c]|]|] fs']; [|exact IH|exact IH].
      destruct IH as (-> & Hall & -> & -> & Hle).
      apply Z.ltb_ge in Esize. apply Z.ltb_ge in Etime.
      rewrite body_content_cons. cbn [chunk_data]. rewrite length_app.
      repeat split.
      * constructor; [|exact Hall]. simpl. intros _. exact Etime.
      * lia.
      * now rewrite app_assoc.
      * intros _. apply Hle. exact Esize.
  - reflexivity.
Qed.

Lemma declared_too_large_false cfg response :
  match content_length_header response with
  | None => Ok false
  | Some content_length =>
      if nonempty content_length
      then n <- parse_int content_length ;; Ok (MAX_FILE_SIZE_BYTES cfg <? n)%Z
      else Ok false
  end = Ok false ->
  ~ declared_too_large cfg response.
Proof.
  intros H (cl & n & Hcl & Hn & Hlt). rewrite Hcl in H.
  destruct cl as [|c cl]; [discriminate Hn|]. cbn [nonempty] in H.
  rewrite Hn in H. cbn [bind] in H. injection H as H.
  apply Z.ltb_ge in H. lia.
Qed.

Lemma looks_like_pdf_true url response :
  negb (contains (py "application/pdf")
          (lower (header_or_empty (content_type_header response))))
  && negb (contains (py ".pdf") (lower url))
  && negb (contains (py ".pdf")
             (lower (header_or_empty (content_disposition_header response))))
  && negb (contains (py "application/octet-stream")
             (lower (header_or_empty (content_type_header response))))
  = negb (looks_like_pdf url response).
Proof.
  unfold looks_like_pdf.
  destruct (contains (py "application/pdf") _), (contains (py ".pdf") (lower url)),
    (contains (py ".pdf") (lower (header_or_empty (content_disposition_header response)))),
    (contains (py "application/octet-stream") _); reflexivity.
Qed.

(** The directories that [mkdir] makes. *)
Lemma fs_mkdir_other dirs q fs :
  ~ In q dirs -> fs_exists q (fs_mkdir dirs fs) = fs_exists q fs.
Proof.
  unfold fs_mkdir. revert fs.
  induction dirs as [|d dirs IH]; intros fs Hq; [reflexivity|].
  cbn [fold_left]. rewrite IH by (intros Hin; apply Hq; now right).
  apply fs_exists_create_other. intros ->. apply Hq. now left.
Qed.

Lemma fs_create_keeps p q fs :
  fs_exists q fs = true -> fs_exists q (fs_create p fs) = true.
Proof.
  intros Hq. unfold fs_create. destruct (fs_exists p fs); [exact Hq|].
  unfold fs_exists in *. cbn [str_in existsb]. fold (str_in q fs).
  rewrite Hq. apply orb_true_r.
Qed.

Lemma fs_mkdir_keeps dirs q fs :
  fs_exists q fs = true -> fs_exists q (fs_mkdir dirs fs) = true.
Proof.
  unfold fs_mkdir. revert fs.
  induction dirs as [|d dirs IH]; intros fs Hq; [exact Hq|].
  cbn [fold_left]. apply IH. now apply fs_create_keeps.
Qed.

Lemma fs_mkdir_made dirs d fs :
  In d dirs -> fs_exists d (fs_mkdir dirs fs) = true.
Proof.
  unfold fs_mkdir. revert fs.
  induction dirs as [|x dirs IH]; intros fs Hd; [contradiction|].
  cbn [fold_left]. destruct Hd as [->|Hd]; [|now apply IH].
  apply (fs_mkdir_keeps dirs). apply fs_exists_create_same.
Qed.

Lemma In_firstn {A} (x : A) n l : In x (firstn n l) -> In x l.
Proof.
  intros Hin. rewrite <- (firstn_skipn n l). apply in_or_app. now left.
Qed.

(** A download that succeeds. *)
Lemma download_try_success cfg env url save_path fs info tp fs' :
  download_try cfg env url save_path fs = (Ok (Some info), tp, fs') ->
  exists response tmp,
    verify_path_safety env save_path (RAW_STORAGE_DIR cfg) = true /\
    env_get env url = Ok response /\
    status_code response = 200%Z /\
    looks_like_pdf url response = true /\
    ~ declared_too_large cfg response /\
    env_mktemp env (path_parent save_path) = Ok tmp /\
    Forall (chunk_delivered cfg) (body response) /\
    file_size info = Z.of_nat (length (body_content (body response))) /\
    ((0 <= MAX_FILE_SIZE_BYTES cfg)%Z ->
     (file_size info <= MAX_FILE_SIZE_BYTES cfg)%Z) /\
    file_hash info = env_sha256 env (body_content (body response)) /\
    fs' = fs_create save_path
            (fs_remove tmp
               (fs_create tmp
                  (fs_mkdir (mkdir_dirs (path_parent save_path)) fs))).
Proof.
  unfold download_try.
  destruct (verify_path_safety env save_path (RAW_STORAGE_DIR cfg)) eqn:Esafe;
    cbn [negb]; [|discriminate].
  destruct (env_get env url) as [response|e] eqn:Eget; [|discriminate].
  destruct (status_code response =? 200)%Z eqn:Estatus;
    cbn [negb]; [|discriminate].
  apply Z.eqb_eq in Estatus.
  rewrite looks_like_pdf_true.
  destruct (looks_like_pdf url response) eqn:Etype; cbn [negb]; [|discriminate].
  match goal with |- context [match ?t with Ok _ => _ | Raise _ => _ end] =>
    destruct t as [[|]|e] eqn:Elen end; [discriminate| |discriminate].
  apply declared_too_large_false in Elen.
  destruct (env_mkdir env (path_parent save_path)); [|discriminate].
  destruct (env_mktemp env (path_parent save_path)) as [tmp|e] eqn:Etmp;
    [|discriminate].
  set (fs0 := fs_mkdir (mkdir_dirs (path_parent save_path)) fs).
  pose proof (fs_exists_create_same tmp fs0) as Hex.
  pose proof (stream_chunks_spec cfg env tmp (body response) 0 0 [] _ Hex) as Hs.
  destruct (stream_chunks cfg env tmp (body response) 0 0 [] (fs_create tmp fs0))
    as [[[[size content]|]|e] fs1].
  - destruct Hs as (-> & Hall & -> & -> & Hle).
    destruct (env_close env); [|discriminate].
    destruct (env_rename env); [|discriminate].
    unfold fs_replace. rewrite Hex.
    intros [= <- <- <-].
    exists response, tmp. cbn [file_size file_hash].
    repeat split; auto.
  - destruct (env_close env); discriminate.
  - discriminate.
Qed.






(** A complete download is renamed into place and reported with its size
    and digest; the directories of the destination have been made. *)
Example download_pdf_streaming_success :
  download_pdf_streaming example_config
    (example_env [Ok (py "%PDF", 1%Z); Ok ([], 1%Z); Ok (py "-1.7", 2%Z)])
    (py "https://example.com/a.pdf") (py "/data/raw/Example/a.pdf") []
  = (Ok (Some {| file_size := 8; file_hash := py "sha256:%PDF-1.7" |}),
     [py "/data/raw/Example/a.pdf"; py "/data/raw/Example"; py "/data/raw";
      py "/data"; py "/"]).
Proof. vm_compute. reflexivity. Qed.

(** ** The registry over a run of calls *)

Lemma dict_set_keys k v reg :
  map fst (dict_set k v reg) =
    if existsb (Z.eqb k) (map fst reg) then map fst reg else map fst reg ++ [k].
Proof.
  induction reg as [|[k' v'] reg IH]; simpl; [reflexivity|].
  rewrite (Z.eqb_sym k k').
  destruct (k' =? k)%Z eqn:E; simpl.
  - apply Z.eqb_eq in E. now subst.
  - rewrite IH. now destruct (existsb (Z.eqb k) (map fst reg)).
Qed.

Lemma existsb_Zeqb_In k l : existsb (Z.eqb k) l = true <-> In k l.
Proof.
  rewrite existsb_exists. split.
  - intros [x [Hin Heq]]. apply Z.eqb_eq in Heq. now subst.
  - intros Hin. exists k. split; [assumption | apply Z.eqb_refl].
Qed.

Lemma unregister_keys id reg :
  map fst (unregister_active_crawl id reg) =
    filter (fun k => negb (k =? id)%Z) (map fst reg).
Proof.
  unfold unregister_active_crawl.
  induction reg as [|[k v] reg IH]; simpl; [reflexivity|].
  destruct (k =? id)%Z; simpl; now rewrite IH.
Qed.

Lemma NoDup_filter {A} (f : A -> bool) l : NoDup l -> NoDup (filter f l).
Proof.
  induction 1 as [|x l Hx Hl IH]; simpl; [constructor|].
  destruct (f x); [|exact IH].
  constructor; [|exact IH]. intros Hin. apply filter_In in Hin. tauto.
Qed.

Lemma registry_step_keys reg c id :
  NoDup (map fst reg) ->
  NoDup (map fst (registry_step reg c)) /\
  (In id (map fst (registry_step reg c)) <->
   match c with
   | Register k _ => k = id \/ In id (map fst reg)
   | Unregister k => k <> id /\ In id (map fst reg)
   end).
Proof.
  intros Hnd. destruct c as [k now|k]; simpl.
  - unfold register_active_crawl. rewrite dict_set_keys.
    destruct (existsb (Z.eqb k) (map fst reg)) eqn:E.
    + apply existsb_Zeqb_In in E. split; [exact Hnd|].
      split; [tauto|]. intros [<-|H]; assumption.
    + split.
      * apply NoDup_app; [exact Hnd | repeat constructor; simpl; tauto |].
        intros x Hx [<-|[]]. apply existsb_Zeqb_In in Hx. congruence.
      * rewrite in_app_iff. simpl. tauto.
  - rewrite unregister_keys. split; [now apply NoDup_filter|].
    rewrite filter_In. rewrite negb_true_iff, Z.eqb_neq.
    split; intros [H1 H2]; split; congruence.
Qed.

Lemma registry_run_keys calls : forall reg id,
  NoDup (map fst reg) ->
  NoDup (map fst (registry_run calls reg)) /\
  (In id (map fst (registry_run calls reg)) <->
   last_registered id calls (existsb (Z.eqb id) (map fst reg)) = true).
Proof.
  induction calls as [|c calls IH]; intros reg id Hnd.
  - simpl. split; [exact Hnd|]. symmetry. apply existsb_Zeqb_In.
  - change (registry_run (c :: calls) reg)
      with (registry_run calls (registry_step reg c)).
    destruct (registry_step_keys reg c id Hnd) as [Hnd' Hin].
    destruct (IH (registry_step reg c) id Hnd') as [Hnd'' Hiff].
    split; [exact Hnd''|]. rewrite Hiff.
    replace (existsb (Z.eqb id) (map fst (registry_step reg c)))
      with (match c with
            | Register k _ =>
                if (k =? id)%Z then true else existsb (Z.eqb id) (map fst reg)
            | Unregister k =>
                if (k =? id)%Z then false else existsb (Z.eqb id) (map fst reg)
            end).
    + now destruct c.
    + destruct (existsb (Z.eqb id) (map fst (registry_step reg c))) eqn:E.
      * apply existsb_Zeqb_In in E. apply Hin in E.
        destruct c as [k now|k].
        -- destruct (k =? id)%Z eqn:Ek; [reflexivity|].
           apply Z.eqb_neq in Ek. destruct E as [E|E]; [contradiction|].
           now apply existsb_Zeqb_In.
        -- destruct E as [E1 E2]. apply Z.eqb_neq in E1. rewrite E1.
           now apply existsb_Zeqb_In.
      * destruct c as [k now|k].
        -- destruct (k =? id)%Z eqn:Ek.
           ++ apply Z.eqb_eq in Ek.
              assert (In id (map fst (registry_step reg (Register k now))))
                by (apply Hin; now left).
              apply existsb_Zeqb_In in H. congruence.
           ++ destruct (existsb (Z.eqb id) (map fst reg)) eqn:E'; [|reflexivity].
              apply existsb_Zeqb_In in E'.
              assert (In id (map fst (registry_step reg (Register k now))))
                by (apply Hin; now right).
              apply existsb_Zeqb_In in H. congruence.
        -- destruct (k =? id)%Z eqn:Ek; [reflexivity|].
           destruct (existsb (Z.eqb id) (map fst reg)) eqn:E'; [|reflexivity].
           apply existsb_Zeqb_In in E'. apply Z.eqb_neq in Ek.
           assert (In id (map fst (registry_step reg (Unregister k))))
             by (apply Hin; now split).
           apply existsb_Zeqb_In in H. congruence.
Qed.

(** X1. After any sequence of [register_active_crawl] and
    [unregister_active_crawl] calls on an empty registry, the ids in the
    registry are distinct and are exactly the ids whose last call was a
    registration: the active count is the number of crawls between their
    register and their unregister. *)
Theorem registry_tracks_active (calls : list registry_call) (id : Z) :
  let reg := registry_run calls [] in
  NoDup (map fst reg) /\
  get_active_crawl_count reg = Z.of_nat (length (map fst reg)) /\
  (In id (map fst reg) <-> last_registered id calls false = true).
Proof.
  cbv zeta. destruct (registry_run_keys calls [] id (NoDup_nil _)) as [H1 H2].
  split; [exact H1|]. split; [|exact H2].
  unfold get_active_crawl_count. now rewrite length_map.
Qed.

Lemma last_registered_app id a b active :
  last_registered id (a ++ b) active
  = last_registered id b (last_registered id a active).
Proof.
  revert active. induction a as [|[k now|k] a IH]; intros active; simpl;
    [reflexivity | apply IH | apply IH].
Qed.

Lemma last_registered_unregisters id ids active :
  last_registered id (map Unregister ids) active
  = if existsb (Z.eqb id) ids then false else active.
Proof.
  revert active. induction ids as [|k ids IH]; intros active; simpl;
    [reflexivity|].
  rewrite IH. rewrite (Z.eqb_sym id k).
  destruct (k =? id)%Z; simpl; [|reflexivity].
  now destruct (existsb (Z.eqb id) ids).
Qed.

Lemma last_registered_unseen id calls :
  (forall now, ~ In (Register id now) calls) ->
  last_registered id calls false = false.
Proof.
  induction calls as [|[k now|k] calls IH]; intros Hno; simpl; [reflexivity| |].
  - destruct (k =? id)%Z eqn:E.
    + apply Z.eqb_eq in E. subst k. exfalso. apply (Hno now). now left.
    + apply IH. intros now' H. apply (Hno now'). now right.
  - destruct (k =? id)%Z; apply IH; intros now' H; apply (Hno now'); now right.
Qed.

(** X2. Any number of registrations followed by the unregistration of each
    registered id leaves no active crawl, also when an id was registered
    more than once. *)
Theorem register_all_unregister_all (crawls : list (Z * Z)) :
  get_active_crawl_count
    (registry_run
       (map (fun c => Register (fst c) (snd c)) crawls
        ++ map Unregister (map fst crawls)) []) = 0%Z.
Proof.
  set (calls := _ ++ _).
  assert (Hkeys : map fst (registry_run calls []) = []).
  { destruct (map fst (registry_run calls [])) as [|id keys] eqn:E;
      [reflexivity|].
    exfalso.
    destruct (registry_run_keys calls [] id (NoDup_nil _)) as [_ Hin].
    simpl in Hin. rewrite E in Hin.
    assert (Hlast : last_registered id calls false = true)
      by (apply Hin; now left).
    subst calls. rewrite last_registered_app, last_registered_unregisters in Hlast.
    destruct (existsb (Z.eqb id) (map fst crawls)) eqn:Eid; [discriminate|].
    rewrite last_registered_unseen in Hlast; [discriminate|].
    intros now Hnow. apply in_map_iff in Hnow.
    destruct Hnow as [[k t] [[= -> ->] Hc]].
    assert (In id (map fst crawls)) by (apply in_map_iff; now exists (id, now)).
    apply existsb_Zeqb_In in H. congruence. }
  unfold get_active_crawl_count.
  rewrite <- (length_map fst), Hkeys. reflexivity.
Qed.

Lemma filter_idem {A} (f : A -> bool) l : filter f (filter f l) = filter f l.
Proof.
  induction l as [|x l IH]; simpl; [reflexivity|].
  destruct (f x) eqn:E; simpl; [rewrite E|]; now rewrite IH.
Qed.

Lemma filter_all_true {A} (f : A -> bool) l :
  (forall x, In x l -> f x = true) -> filter f l = l.
Proof.
  induction l as [|x l IH]; simpl; intros H; [reflexivity|].
  rewrite (H x (or_introl eq_refl)). f_equal. apply IH. intros y Hy.
  apply H. now right.
Qed.

(** X3. [unregister_active_crawl] is idempotent, leaves a registry that
    does not hold the id unchanged, and undoes the registration of an id
    that was not active. *)
Theorem unregister_active_crawl_undo (id now : Z) (reg : registry) :
  unregister_active_crawl id (unregister_active_crawl id reg)
    = unregister_active_crawl id reg /\
  (~ In id (map fst reg) ->
   unregister_active_crawl id reg = reg /\
   unregister_active_crawl id (register_active_crawl id now reg) = reg).
Proof.
  split; [apply filter_idem|]. intros Hnot.
  assert (Hsame : unregister_active_crawl id reg = reg).
  { apply filter_all_true. intros [k v] Hin. simpl.
    apply negb_true_iff, Z.eqb_neq. intros ->. apply Hnot.
    apply in_map_iff. now exists (id, v). }
  split; [exact Hsame|].
  unfold register_active_crawl. clear Hsame.
  induction reg as [|[k v] reg IH]; simpl.
  - now rewrite Z.eqb_refl.
  - destruct (k =? id)%Z eqn:E.
    + apply Z.eqb_eq in E. subst k. exfalso. apply Hnot. now left.
    + simpl. rewrite E. simpl. f_equal. apply IH. intros H. apply Hnot. now right.
Qed.

Lemma unregister_active_crawl_undo_witness :
  unregister_active_crawl 7 [(3, 10); (5, 20)]%Z = [(3, 10); (5, 20)]%Z /\
  unregister_active_crawl 7 (register_active_crawl 7 30 [(3, 10); (5, 20)]%Z)
    = [(3, 10); (5, 20)]%Z.
Proof.
  apply (proj2 (unregister_active_crawl_undo 7 30 [(3, 10); (5, 20)]%Z)).
  simpl. intros [H|[H|[]]]; discriminate.
Defined.

(** ** The log buffer over a run of calls *)

Lemma store_get_set_same id v store : store_get id (store_set id v store) = Some v.
Proof.
  induction store as [|[k v'] store IH]; simpl.
  - now rewrite Z.eqb_refl.
  - destruct (k =? id)%Z eqn:E; simpl; now rewrite E.
Qed.

Lemma store_get_set_other id id' v store :
  id <> id' -> store_get id' (store_set id v store) = store_get id' store.
Proof.
  intros Hne. induction store as [|[k v'] store IH]; simpl.
  - apply Z.eqb_neq in Hne. now rewrite Hne.
  - destruct (k =? id)%Z eqn:E; simpl.
    + apply Z.eqb_eq in E. subst k. apply Z.eqb_neq in Hne. now rewrite Hne.
    + now rewrite IH.
Qed.

Lemma length_last_n {A} n (l : list A) : length (last_n n l) <= n.
Proof. unfold last_n. rewrite length_skipn. lia. Qed.

Lemma last_n_snoc {A} n (l : list A) (x : A) :
  1 <= n -> last_n n (last_n n l ++ [x]) = last_n n (l ++ [x]).
Proof.
  intros Hn. destruct (Nat.le_gt_cases (length l) n) as [Hle|Hgt].
  - now rewrite (last_n_short n l Hle).
  - unfold last_n. rewrite !length_app, length_skipn. simpl.
    rewrite !skipn_app, length_skipn, skipn_skipn.
    replace (length l - (length l - n) + 1 - n) with 1 by lia.
    replace (length l + 1 - n) with (1 + (length l - n)) by lia.
    replace (1 - (length l - (length l - n))) with 0 by lia.
    replace (1 + (length l - n) - length l) with 0 by lia.
    reflexivity.
Qed.

Lemma crawl_log_get id level message now store id' :
  get_crawl_logs id' 0 (crawl_log id level message now store) =
    if (id =? id')%Z
    then last_n MAX_LOG_ENTRIES
           (get_crawl_logs id' 0 store
            ++ [{| log_ts := now; log_level := level; log_msg := message |}])
    else get_crawl_logs id' 0 store.
Proof.
  unfold get_crawl_logs, crawl_log, slice_from. simpl.
  generalize MAX_LOG_ENTRIES. intros n.
  destruct (id =? id')%Z eqn:E.
  - apply Z.eqb_eq in E. subst id'.
    destruct (n <? _) eqn:El; rewrite store_get_set_same; [reflexivity|].
    apply Nat.ltb_ge in El. now rewrite last_n_short.
  - apply Z.eqb_neq in E.
    destruct (n <? _); now rewrite store_get_set_other.
Qed.

Lemma entries_for_snoc id calls c :
  entries_for id (calls ++ [c]) =
    entries_for id calls ++
    (let '(id', level, message, now) := c in
     if (id' =? id)%Z
     then [{| log_ts := now; log_level := level; log_msg := message |}]
     else []).
Proof.
  unfold entries_for. rewrite filter_app, map_app. f_equal.
  destruct c as [[[id' level] message] now]. simpl.
  now destruct (id' =? id)%Z.
Qed.

Lemma log_run_get calls id :
  get_crawl_logs id 0 (fold_left log_step calls [])
    = last_n MAX_LOG_ENTRIES (entries_for id calls).
Proof.
  induction calls as [|c calls IH] using rev_ind; [reflexivity|].
  rewrite fold_left_app, entries_for_snoc. simpl.
  destruct c as [[[id' level] message] now]. simpl.
  rewrite crawl_log_get, IH.
  destruct (id' =? id)%Z.
  - apply last_n_snoc. apply Nat.leb_le. reflexivity.
  - now rewrite app_nil_r.
Qed.

(** X4. After any sequence of [crawl_log] calls on an empty store, the log
    kept for a crawl is the last [MAX_LOG_ENTRIES] entries logged for that
    crawl, in the order they were logged (all of them while there are at
    most [MAX_LOG_ENTRIES]); it never has more than [MAX_LOG_ENTRIES]
    entries, and entries of other crawls never appear in it. *)
Theorem crawl_log_keeps_last_entries (calls : list log_call) (crawl_id : Z) :
  let logs := get_crawl_logs crawl_id 0 (fold_left log_step calls []) in
  logs = last_n MAX_LOG_ENTRIES (entries_for crawl_id calls) /\
  length logs <= MAX_LOG_ENTRIES /\
  (length (entries_for crawl_id calls) <= MAX_LOG_ENTRIES ->
   logs = entries_for crawl_id calls).
Proof.
  cbv zeta. rewrite log_run_get. split; [reflexivity|].
  split; [apply length_last_n|]. apply last_n_short.
Qed.

Lemma crawl_log_keeps_last_entries_witness :
  get_crawl_logs 1 0
    (fold_left log_step
       [(1, py "info", py "a", 10); (2, py "info", py "b", 11);
        (1, py "warn", py "c", 12)]%Z [])
  = entries_for 1
       [(1, py "info", py "a", 10); (2, py "info", py "b", 11);
        (1, py "warn", py "c", 12)]%Z.
Proof.
  apply (proj2 (proj2 (crawl_log_keeps_last_entries
           [(1, py "info", py "a", 10); (2, py "info", py "b", 11);
            (1, py "warn", py "c", 12)]%Z 1))).
  apply Nat.leb_le. vm_compute. reflexivity.
Defined.

Lemma get_crawl_logs_slice id since store :
  (0 <= since)%Z ->
  get_crawl_logs id since store
    = skipn (Z.to_nat since) (get_crawl_logs id 0 store).
Proof.
  intros Hs. unfold get_crawl_logs, slice_from.
  destruct (since <? 0)%Z eqn:E; [apply Z.ltb_lt in E; lia|].
  reflexivity.
Qed.

(** X5. [get_crawl_logs] with a non-negative [since] returns the kept
    entries from index [since] on, so the entries before it followed by the
    result are the kept log.  Because the kept log never exceeds
    [MAX_LOG_ENTRIES], a reader that passes the number of entries it has
    already received gets nothing once that number has reached
    [MAX_LOG_ENTRIES], whatever is logged afterwards. *)
Theorem get_crawl_logs_since (calls : list log_call) (crawl_id since : Z) :
  (0 <= since)%Z ->
  let store := fold_left log_step calls [] in
  firstn (Z.to_nat since) (get_crawl_logs crawl_id 0 store)
    ++ get_crawl_logs crawl_id since store
    = get_crawl_logs crawl_id 0 store /\
  (since + Z.of_nat (length (get_crawl_logs crawl_id since store))
    = Z.max since (Z.of_nat (length (get_crawl_logs crawl_id 0 store))))%Z /\
  ((Z.of_nat MAX_LOG_ENTRIES <= since)%Z ->
   get_crawl_logs crawl_id since store = []).
Proof.
  intros Hs. cbv zeta.
  rewrite (get_crawl_logs_slice crawl_id since _ Hs).
  split; [apply firstn_skipn|]. split.
  - rewrite length_skipn. lia.
  - intros Hmax. apply skipn_all2. rewrite log_run_get.
    pose proof (length_last_n MAX_LOG_ENTRIES (entries_for crawl_id calls)).
    lia.
Qed.

Lemma get_crawl_logs_since_witness :
  get_crawl_logs 1 2000
    (fold_left log_step [(1, py "info", py "a", 10)]%Z []) = [].
Proof.
  apply (fun H => proj2 (proj2
           (get_crawl_logs_since [(1, py "info", py "a", 10)]%Z 1 2000 H))).
  - vm_compute. discriminate.
  - vm_compute. discriminate.
Defined.

Lemma store_get_clear_same id store :
  store_get id (clear_crawl_logs id store) = None.
Proof.
  unfold clear_crawl_logs. induction store as [|[k v] store IH]; simpl;
    [reflexivity|].
  destruct (k =? id)%Z eqn:E; simpl; [exact IH|]. now rewrite E.
Qed.

Lemma store_get_clear_other id other store :
  other <> id -> store_get other (clear_crawl_logs id store) = store_get other store.
Proof.
  intros Hne. unfold clear_crawl_logs.
  induction store as [|[k v] store IH]; simpl; [reflexivity|].
  destruct (k =? id)%Z eqn:E; simpl.
  - apply Z.eqb_eq in E. subst k.
    apply not_eq_sym in Hne. apply Z.eqb_neq in Hne. now rewrite Hne.
  - now rewrite IH.
Qed.

(** X6. [clear_crawl_logs] drops the log of that crawl only: reading it
    afterwards gives no entries, the logs of other crawls are unchanged,
    and the first entry logged after a clear starts a new log. *)
Theorem clear_crawl_logs_spec (crawl_id other since : Z) (store : log_store)
    (level message : str) (now : Z) :
  get_crawl_logs crawl_id since (clear_crawl_logs crawl_id store) = [] /\
  (other <> crawl_id ->
   get_crawl_logs other since (clear_crawl_logs crawl_id store)
     = get_crawl_logs other since store) /\
  get_crawl_logs crawl_id 0
    (crawl_log crawl_id level message now (clear_crawl_logs crawl_id store))
    = [{| log_ts := now; log_level := level; log_msg := message |}].
Proof.
  assert (Hempty : forall s,
             get_crawl_logs crawl_id s (clear_crawl_logs crawl_id store) = []).
  { intros s. unfold get_crawl_logs. rewrite store_get_clear_same.
    unfold slice_from. destruct (s <? 0)%Z; apply skipn_nil. }
  split; [apply Hempty|]. split.
  - intros Hne. unfold get_crawl_logs. now rewrite store_get_clear_other.
  - rewrite crawl_log_get, Z.eqb_refl, Hempty. reflexivity.
Qed.

Lemma clear_crawl_logs_spec_witness :
  get_crawl_logs 2 0
    (clear_crawl_logs 1 [(1, []); (2, [{| log_ts := 5; log_level := py "info";
                                          log_msg := py "x" |}])]%Z)
  = [{| log_ts := 5%Z; log_level := py "info"; log_msg := py "x" |}].
Proof.
  apply (proj1 (proj2 (clear_crawl_logs_spec 1 2 0
           [(1, []); (2, [{| log_ts := 5; log_level := py "info";
                             log_msg := py "x" |}])]%Z (py "") (py "") 0))).
  discriminate.
Defined.

(** ** More about [same_domain] *)

(** X7. On URLs that parse, [same_domain] is reflexive, symmetric and
    transitive; it raises exactly when one of the two URLs does not
    parse. *)
Theorem same_domain_equivalence `{UrlLib} (a b c : str) :
  (forall pa, urlparse a = Ok pa -> same_domain a a = Ok true) /\
  (forall r, same_domain a b = Ok r -> same_domain b a = Ok r) /\
  (same_domain a b = Ok true -> same_domain b c = Ok true ->
   same_domain a c = Ok true) /\
  ((exists e, same_domain a b = Raise e) <->
   (exists e, urlparse a = Raise e) \/ (exists e, urlparse b = Raise e)).
Proof.
  split; [|split; [|split]].
  - intros pa Ha. unfold same_domain. rewrite Ha. simpl.
    now rewrite str_eqb_refl.
  - intros r. unfold same_domain.
    destruct (urlparse a) as [pa|]; [|discriminate].
    destruct (urlparse b) as [pb|]; [|discriminate]. simpl.
    intros [= <-]. f_equal.
    destruct (str_eqb (get_base_domain (netloc pa)) _) eqn:E.
    + apply str_eqb_eq in E. rewrite E. apply str_eqb_refl.
    + apply str_eqb_neq. intros E'. rewrite E', str_eqb_refl in E.
      discriminate.
  - unfold same_domain.
    destruct (urlparse a) as [pa|]; [|discriminate].
    destruct (urlparse b) as [pb|]; [|discriminate].
    destruct (urlparse c) as [pc|]; [|discriminate]. simpl.
    intros [= E1] [= E2]. apply str_eqb_eq in E1, E2. f_equal.
    apply str_eqb_eq. congruence.
  - unfold same_domain.
    destruct (urlparse a) as [pa|ea]; simpl.
    + destruct (urlparse b) as [pb|eb]; simpl.
      * split; [intros [e He]; discriminate|].
        intros [[e He]|[e He]]; discriminate.
      * split; eauto.
    + split; eauto.
Qed.

Lemma same_domain_equivalence_witness :
  same_domain (H := permissive_lib) (py "https://tower.co.nz/a")
              (py "https://www.tower.co.nz/b") = Ok true.
Proof.
  apply (proj1 (proj2 (same_domain_equivalence (H := permissive_lib)
                  (py "https://www.tower.co.nz/b") (py "https://tower.co.nz/a") []))).
  vm_compute. reflexivity.
Defined.



Lemma takewhile_app p (h r : str) :
  forallb p h = true ->
  match r with [] => true | c :: _ => negb (p c) end = true ->
  takewhile p (h ++ r) = h /\ dropwhile p (h ++ r) = r.
Proof.
  intros Hh Hr. induction h as [|x h IH]; simpl in *.
  - destruct r as [|c r]; [now split|]. simpl.
    apply negb_true_iff in Hr. now rewrite Hr.
  - apply andb_true_iff in Hh. destruct Hh as [Hx Hh]. rewrite Hx.
    destruct (IH Hh) as [-> ->]. now split.
Qed.

Lemma char_in_false_forallb c (s : str) (p : ascii -> bool) :
  p c = false -> forallb p s = true -> char_in c s = false.
Proof.
  intros Hc Hs. unfold char_in. induction s as [|x s IH]; simpl in *; [reflexivity|].
  apply andb_true_iff in Hs. destruct Hs as [Hx Hs]. rewrite (IH Hs), orb_false_r.
  destruct (Ascii.eqb c x) eqn:E; [|reflexivity].
  apply Ascii.eqb_eq in E. subst. congruence.
Qed.

Lemma forallb_impl {A} (p q : A -> bool) l :
  (forall x, p x = true -> q x = true) -> forallb p l = true -> forallb q l = true.
Proof.
  intros Hpq. rewrite !forallb_forall. auto.
Qed.

Lemma host_char_elim c :
  host_char c = true ->
  is_netloc_delim c = false /\ is_unsafe_byte c = false /\
  Ascii.eqb c "[" = false /\ Ascii.eqb c "]" = false.
Proof.
  unfold host_char. rewrite negb_true_iff, !orb_false_iff. simpl.
  rewrite !orb_false_iff. tauto.
Qed.

Lemma startswith_nil s : startswith s [] = true.
Proof. now destruct s. Qed.

Lemma startswith_app p s : startswith (p ++ s) p = true.
Proof.
  induction p as [|c p IH]; simpl; [apply startswith_nil|].
  now rewrite Ascii.eqb_refl.
Qed.

Lemma urlsplit_http `{UrlLib} (sch host rest : str) :
  In sch [py "http"; py "https"] ->
  forallb host_char host = true ->
  match rest with [] => true | c :: _ => is_netloc_delim c end = true ->
  urlsplit (sch ++ py "://" ++ host ++ rest) =
    let '(u, fragment) := cut "#" (filter (fun c => negb (is_unsafe_byte c)) rest) in
    let '(u, query) := cut "?" u in
    Ok (sch, host, u, query, fragment).
Proof.
  intros Hs Hh Hr.
  set (rest' := filter (fun c => negb (is_unsafe_byte c)) rest).
  assert (Hfh : filter (fun c => negb (is_unsafe_byte c)) (host ++ rest)
                = host ++ rest').
  { rewrite filter_app. f_equal. apply forallb_filter_id.
    revert Hh. apply forallb_impl. intros c Hc.
    apply host_char_elim in Hc. destruct Hc as (_ & -> & _). reflexivity. }
  assert (Hr' : match rest' with [] => true
                | c :: _ => negb (negb (is_netloc_delim c)) end = true).
  { subst rest'. destruct rest as [|c t]; [reflexivity|]. simpl.
    assert (Hu : is_unsafe_byte c = false).
    { revert Hr. unfold is_netloc_delim, is_unsafe_byte, cp. simpl.
      destruct (Ascii.eqb c "/") eqn:E1; [apply Ascii.eqb_eq in E1; now subst|].
      destruct (Ascii.eqb c "?") eqn:E2; [apply Ascii.eqb_eq in E2; now subst|].
      destruct (Ascii.eqb c "#") eqn:E3; [apply Ascii.eqb_eq in E3; now subst|].
      discriminate. }
    rewrite Hu. simpl. now rewrite Hr. }
  assert (Hsplit : splitnetloc (py "//" ++ host ++ rest') = (host, rest')).
  { unfold splitnetloc. change (skipn 2 (py "//" ++ host ++ rest')) with (host ++ rest').
    destruct (takewhile_app (fun c => negb (is_netloc_delim c)) host rest') as [-> ->];
      [|exact Hr'|reflexivity].
    revert Hh. apply forallb_impl. intros c Hc.
    apply host_char_elim in Hc. destruct Hc as (-> & _). reflexivity. }
  assert (Hbr : check_brackets host = Ok tt).
  { unfold check_brackets.
    rewrite (char_in_false_forallb "[" host host_char eq_refl Hh).
    rewrite (char_in_false_forallb "]" host host_char eq_refl Hh).
    reflexivity. }
  unfold urlsplit.
  destruct Hs as [<-|[<-|[]]].
  - change (dropwhile is_c0_or_space (py "http" ++ py "://" ++ host ++ rest))
      with (py "http://" ++ host ++ rest).
    change (filter (fun c => negb (is_unsafe_byte c)) (py "http://" ++ host ++ rest))
      with (py "http://" ++ filter (fun c => negb (is_unsafe_byte c)) (host ++ rest)).
    rewrite Hfh.
    change (split_scheme (py "http://" ++ host ++ rest'))
      with (py "http", py "//" ++ host ++ rest').
    cbv iota beta.
    rewrite startswith_app. cbv iota. rewrite Hsplit. cbv iota beta. rewrite Hbr. reflexivity.
  - change (dropwhile is_c0_or_space (py "https" ++ py "://" ++ host ++ rest))
      with (py "https://" ++ host ++ rest).
    change (filter (fun c => negb (is_unsafe_byte c)) (py "https://" ++ host ++ rest))
      with (py "https://" ++ filter (fun c => negb (is_unsafe_byte c)) (host ++ rest)).
    rewrite Hfh.
    change (split_scheme (py "https://" ++ host ++ rest'))
      with (py "https", py "//" ++ host ++ rest').
    cbv iota beta.
    rewrite startswith_app. cbv iota. rewrite Hsplit. cbv iota beta. rewrite Hbr. reflexivity.
Qed.

Lemma urlparse_http_netloc `{UrlLib} (sch host rest : str) :
  In sch [py "http"; py "https"] ->
  forallb host_char host = true ->
  match rest with [] => true | c :: _ => is_netloc_delim c end = true ->
  exists p, urlparse (sch ++ py "://" ++ host ++ rest) = Ok p /\
            scheme p = sch /\ netloc p = host.
Proof.
  intros Hs Hh Hr. unfold urlparse. rewrite (urlsplit_http sch host rest Hs Hh Hr).
  destruct (cut "#" _) as [u fragment]. destruct (cut "?" u) as [u' query].
  cbn [bind].
  destruct (str_in sch uses_params && char_in ";" u');
    [destruct (splitparams u')|]; eexists; (split; [reflexivity|]);
    split; reflexivity.
Qed.

(** X8. For two http or https URLs, [same_domain] depends on the hosts
    only: the scheme, the path, the query and the fragment play no part. *)
Theorem same_domain_host_only `{UrlLib} (sch1 sch2 host1 host2 rest1 rest2 : str) :
  In sch1 [py "http"; py "https"] ->
  In sch2 [py "http"; py "https"] ->
  forallb host_char host1 = true ->
  forallb host_char host2 = true ->
  match rest1 with [] => true | c :: _ => is_netloc_delim c end = true ->
  match rest2 with [] => true | c :: _ => is_netloc_delim c end = true ->
  same_domain (sch1 ++ py "://" ++ host1 ++ rest1)
              (sch2 ++ py "://" ++ host2 ++ rest2)
  = Ok (str_eqb (get_base_domain host1) (get_base_domain host2)).
Proof.
  intros Hs1 Hs2 Hh1 Hh2 Hr1 Hr2. unfold same_domain.
  destruct (urlparse_http_netloc sch1 host1 rest1 Hs1 Hh1 Hr1) as (p1 & Hp1 & _ & Hn1).
  destruct (urlparse_http_netloc sch2 host2 rest2 Hs2 Hh2 Hr2) as (p2 & Hp2 & _ & Hn2).
  rewrite Hp1. cbn [bind]. rewrite Hp2. cbn [bind]. now rewrite Hn1, Hn2.
Qed.

Lemma same_domain_host_only_witness :
  same_domain (H := permissive_lib)
    (py "https://www.tower.co.nz/car?x=1#top") (py "http://claims.tower.co.nz:8080")
  = Ok true.
Proof.
  apply (same_domain_host_only (H := permissive_lib)
           (py "https") (py "http") (py "www.tower.co.nz")
           (py "claims.tower.co.nz:8080") (py "/car?x=1#top") []).
  - right. left. reflexivity.
  - left. reflexivity.
  - vm_compute. reflexivity.
  - vm_compute. reflexivity.
  - vm_compute. reflexivity.
  - vm_compute. reflexivity.
Defined.

Lemma startswith_sep c (p a b : str) :
  ~ In c p -> startswith (a ++ c :: b) p = startswith a p.
Proof.
  revert a. induction p as [|x p IH]; intros a Hc.
  - now rewrite !startswith_nil.
  - destruct a as [|y a]; simpl.
    + destruct (Ascii.eqb x c) eqn:E; [|reflexivity].
      apply Ascii.eqb_eq in E. subst. exfalso. apply Hc. now left.
    + rewrite IH; [reflexivity|]. intros Hin. apply Hc. now right.
Qed.

Lemma startswith_length s p : startswith s p = true -> length p <= length s.
Proof.
  revert s. induction p as [|x p IH]; intros [|y s]; simpl; try lia; try discriminate.
  intros H. apply andb_true_iff in H. destruct H as [_ H]. apply IH in H. lia.
Qed.


Lemma split_hd_sep c (a b : str) :
  ~ In c a -> hd [] (split c (a ++ c :: b)) = a.
Proof.
  induction a as [|x a IH]; intros Hc; simpl.
  - now rewrite Ascii.eqb_refl.
  - destruct (Ascii.eqb x c) eqn:E.
    + apply Ascii.eqb_eq in E. subst. exfalso. apply Hc. now left.
    + assert (Ha : ~ In c a) by (intros Hin; apply Hc; now right).
      specialize (IH Ha).
      destruct (split c (a ++ c :: b)) as [|q qs]; simpl in *; now subst.
Qed.

Lemma split_hd_none c (a : str) : ~ In c a -> hd [] (split c a) = a.
Proof.
  induction a as [|x a IH]; intros Hc; simpl; [reflexivity|].
  destruct (Ascii.eqb x c) eqn:E.
  - apply Ascii.eqb_eq in E. subst. exfalso. apply Hc. now left.
  - assert (Ha : ~ In c a) by (intros Hin; apply Hc; now right).
    specialize (IH Ha).
    destruct (split c a) as [|q qs]; simpl in *; now subst.
Qed.

Lemma In_skipn {A} (x : A) n l : In x (skipn n l) -> In x l.
Proof.
  intros H. rewrite <- (firstn_skipn n l). apply in_or_app. now right.
Qed.


Lemma lower_app a b : lower (a ++ b) = lower a ++ lower b.
Proof. apply map_app. Qed.




(** ** [is_pdf_url] *)

Lemma startswith_prefix s p : startswith s p = true -> exists t, s = p ++ t.
Proof.
  revert s. induction p as [|x p IH]; intros s H.
  - now exists s.
  - destruct s as [|y s]; [discriminate|]. simpl in H.
    apply andb_true_iff in H. destruct H as [Hxy H].
    apply Ascii.eqb_eq in Hxy. subst y.
    destruct (IH s H) as [t ->]. now exists t.
Qed.

Lemma contains_unfold needle hay :
  contains needle hay =
    startswith hay needle
    || match hay with [] => false | _ :: t => contains needle t end.
Proof. now destruct hay. Qed.

Lemma contains_app needle pre post :
  contains needle (pre ++ needle ++ post) = true.
Proof.
  induction pre as [|c pre IH].
  - rewrite contains_unfold. cbn [app]. now rewrite startswith_app.
  - rewrite contains_unfold. cbn [app]. rewrite IH. apply orb_true_r.
Qed.

Lemma endswith_suffix s p : endswith s p = true -> exists pre, s = pre ++ p.
Proof.
  unfold endswith. intros H. apply startswith_prefix in H.
  destruct H as [t Ht]. exists (rev t).
  rewrite <- (rev_involutive s), Ht, rev_app_distr, rev_involutive.
  reflexivity.
Qed.

Lemma endswith_contains s p : endswith s p = true -> contains p s = true.
Proof.
  intros H. apply endswith_suffix in H. destruct H as [pre ->].
  rewrite <- (app_nil_r p) at 2. apply contains_app.
Qed.

(** X10. [is_pdf_url] is true exactly when [.pdf] occurs, in any letter
    case, in the path or in the query of the parsed URL: the two tests on
    the end of the path add nothing, and the fragment is never looked at.
    It raises when and only when [urlparse] does. *)
Theorem is_pdf_url_spec `{UrlLib} (url : str) :
  match urlparse url with
  | Ok parsed =>
      is_pdf_url url =
        Ok (contains (py ".pdf") (lower (path parsed))
            || contains (py ".pdf") (lower (query parsed)))
  | Raise e => is_pdf_url url = Raise e
  end.
Proof.
  unfold is_pdf_url. destruct (urlparse url) as [parsed|e]; [|reflexivity].
  cbn [bind].
  destruct (endswith (lower (path parsed)) (py ".pdf")) eqn:E1.
  - apply endswith_contains in E1. now rewrite E1.
  - destruct (endswith (lower (path parsed)) (py ".pdf/")) eqn:E2.
    + apply endswith_suffix in E2. destruct E2 as [pre E2].
      rewrite E2.
      change (pre ++ py ".pdf/") with (pre ++ py ".pdf" ++ py "/").
      now rewrite contains_app.
    + cbn [orb].
      destruct (contains (py ".pdf") (lower (path parsed))); [reflexivity|].
      now destruct (contains (py ".pdf") (lower (query parsed))).
Qed.

(** ** [is_valid_document] *)

Lemma match_policy_type_In url_lower policy_types t :
  match_policy_type url_lower policy_types = Some t -> In t policy_types.
Proof.
  induction policy_types as [|p rest IH]; simpl; [discriminate|].
  destruct (existsb _ _); [intros [= <-]; now left|].
  intros H. right. now apply IH.
Qed.

Lemma match_policy_type_app url_lower a b t :
  match_policy_type url_lower a = Some t ->
  match_policy_type url_lower (a ++ b) = Some t.
Proof.
  induction a as [|p rest IH]; simpl; [discriminate|].
  destruct (existsb _ _); [easy|]. exact IH.
Qed.

(** X11. [is_valid_document] returns a policy type exactly when it accepts
    the URL, and that type is one of the requested policy types or
    "General"; a URL whose text ends in [.pdf] or [.pdf/], in any letter
    case, is accepted whatever the filters are; adding policy types or
    keyword filters never turns an accepted URL into a rejected one. *)
Theorem is_valid_document_result (url : str)
    (keyword_filters policy_types more_keywords more_types : list str) :
  let r := is_valid_document url keyword_filters policy_types in
  (fst r = true <-> snd r <> None) /\
  (forall t, snd r = Some t -> In t policy_types \/ t = py "General") /\
  (endswith (lower url) (py ".pdf") || endswith (lower url) (py ".pdf/") = true ->
   fst r = true) /\
  (fst r = true ->
   fst (is_valid_document url (keyword_filters ++ more_keywords)
                          (policy_types ++ more_types)) = true).
Proof.
  cbv zeta. unfold is_valid_document.
  destruct (match_policy_type (lower url) policy_types) as [t0|] eqn:Em.
  - cbn [fst snd]. split; [split; [discriminate|reflexivity]|].
    split; [intros t [= <-]; left; now apply (match_policy_type_In _ _ _ Em)|].
    split; [reflexivity|]. intros _.
    now rewrite (match_policy_type_app _ _ more_types _ Em).
  - destruct (nonempty_list keyword_filters &&
              existsb (fun keyword => contains (lower keyword) (lower url))
                      keyword_filters) eqn:Ek.
    + cbn [fst snd]. split; [split; [discriminate|reflexivity]|].
      split; [intros t [= <-]; now right|]. split; [reflexivity|]. intros _.
      destruct (match_policy_type (lower url) (policy_types ++ more_types));
        [reflexivity|].
      apply andb_true_iff in Ek. destruct Ek as [Hne Hex].
      assert (Hne' : nonempty_list (keyword_filters ++ more_keywords) = true)
        by (destruct keyword_filters; [discriminate | reflexivity]).
      rewrite Hne', existsb_app, Hex. reflexivity.
    + destruct (endswith (lower url) (py ".pdf")
                || endswith (lower url) (py ".pdf/")) eqn:Ep.
      * cbn [fst snd]. split; [split; [discriminate|reflexivity]|].
        split; [intros t [= <-]; now right|]. split; [reflexivity|]. intros _.
        destruct (match_policy_type (lower url) (policy_types ++ more_types));
          [reflexivity|].
        destruct (nonempty_list (keyword_filters ++ more_keywords) && _);
          reflexivity.
      * cbn [fst snd]. split; [split; [discriminate|congruence]|].
        split; [discriminate|]. split; discriminate.
Qed.

Lemma is_valid_document_result_witness :
  fst (is_valid_document (py "https://a.nz/Docs/Car.PDF") [] [py "home"]) = true.
Proof.
  apply (proj1 (proj2 (proj2 (is_valid_document_result
           (py "https://a.nz/Docs/Car.PDF") [] [py "home"] [] [])))).
  vm_compute. reflexivity.
Defined.

(** ** The robots cache *)

Lemma cache_lookup_set_same {V} k (v : V) d : cache_lookup k (cache_set k v d) = Some v.
Proof.
  induction d as [|[k' v'] d IH]; simpl.
  - now rewrite str_eqb_refl.
  - destruct (str_eqb k' k) eqn:E; simpl.
    + now rewrite str_eqb_refl.
    + now rewrite E.
Qed.

Lemma can_fetch_caches `{UrlLib} cfg read_robots url cache parsed :
  CRAWL_RESPECT_ROBOTS cfg = true ->
  urlparse url = Ok parsed ->
  cache_lookup (robots_url_of parsed)
               (snd (can_fetch cfg read_robots url cache)) <> None.
Proof.
  intros Hr Hp. unfold can_fetch. rewrite Hr, Hp. cbn [negb].
  destruct (cache_lookup (robots_url_of parsed) cache) as [[rp|]|] eqn:El.
  - destruct (rp_can_fetch rp _ _); cbn [snd]; now rewrite El.
  - cbn [snd]. now rewrite El.
  - destruct (read_robots (robots_url_of parsed)) as [rp|e].
    + destruct (rp_can_fetch rp _ _); cbn [snd];
        rewrite cache_lookup_set_same; discriminate.
    + cbn [snd]. rewrite cache_lookup_set_same. discriminate.
Qed.

(** X12. Once [can_fetch] has been called for a URL with robots
    compliance on, the robots file of that origin is in the cache: a later
    call for any URL of the same origin does not read the robots file
    again (its result is the same whatever the network would answer) and
    leaves the cache as it is. *)
Theorem can_fetch_reads_robots_once `{UrlLib} (cfg : Config)
    (read_robots read_robots' read_robots'' : str -> result RobotFileParser)
    (url url' : str) (cache : robots_cache) (parsed parsed' : ParseResult) :
  CRAWL_RESPECT_ROBOTS cfg = true ->
  urlparse url = Ok parsed ->
  urlparse url' = Ok parsed' ->
  robots_url_of parsed' = robots_url_of parsed ->
  let cache1 := snd (can_fetch cfg read_robots url cache) in
  can_fetch cfg read_robots' url' cache1 = can_fetch cfg read_robots'' url' cache1 /\
  snd (can_fetch cfg read_robots' url' cache1) = cache1.
Proof.
  intros Hr Hp Hp' Hsame. cbv zeta.
  pose proof (can_fetch_caches cfg read_robots url cache parsed Hr Hp) as Hc.
  set (cache1 := snd (can_fetch cfg read_robots url cache)) in *.
  unfold can_fetch. rewrite Hr, Hp', Hsame. cbn [negb].
  destruct (cache_lookup (robots_url_of parsed) cache1) as [[rp|]|];
    [| |contradiction].
  - destruct (rp_can_fetch rp _ _); split; reflexivity.
  - split; reflexivity.
Qed.

Lemma can_fetch_reads_robots_once_witness :
  let cache1 :=
    snd (can_fetch (H := permissive_lib) example_config
           (fun _ => Ok disallow_all) (py "https://a.nz/x") []) in
  can_fetch (H := permissive_lib) example_config (fun _ => Ok allow_all)
            (py "https://a.nz/y") cache1
  = can_fetch (H := permissive_lib) example_config (fun _ => Raise OtherException)
              (py "https://a.nz/y") cache1 /\
  snd (can_fetch (H := permissive_lib) example_config (fun _ => Ok allow_all)
         (py "https://a.nz/y") cache1) = cache1.
Proof.
  eapply (can_fetch_reads_robots_once (H := permissive_lib) example_config
            (fun _ => Ok disallow_all) (fun _ => Ok allow_all)
            (fun _ => Raise OtherException)
            (py "https://a.nz/x") (py "https://a.nz/y") []).
  - reflexivity.
  - vm_compute. reflexivity.
  - vm_compute. reflexivity.
  - vm_compute. reflexivity.
Defined.

(** ** More about [classify_document] *)

Lemma fold_left_invariant {A B} (P : A -> Prop) (f : A -> B -> A) l :
  forall a, P a -> (forall a b, In b l -> P a -> P (f a b)) ->
  P (fold_left f l a).
Proof.
  induction l as [|b l IH]; intros a Ha Hstep; simpl; [exact Ha|].
  apply IH.
  - apply Hstep; [now left | exact Ha].
  - intros a' b' Hb'. apply Hstep. now right.
Qed.

Lemma keyword_score_positive url_lower filename_lower pdf_text_sample weight keyword :
  In weight (map (fun r => snd (snd r)) CLASSIFICATION_RULES) ->
  PrimFloat.ltb 0 (keyword_score url_lower filename_lower pdf_text_sample
                                 weight keyword) = true.
Proof.
  intros Hw. unfold keyword_score.
  destruct (contains keyword url_lower), (contains keyword filename_lower),
    (has_text pdf_text_sample && _);
    simpl in Hw;
    repeat (destruct Hw as [<-|Hw]; [vm_compute; reflexivity|]);
    contradiction.
Qed.

Lemma score_document_types_inv url_lower filename_lower combined pdf_text_sample :
  let r := score_document_types url_lower filename_lower combined
             pdf_text_sample in
  (fst (fst r) = 0%float /\ snd (fst r) = py "Unclassified") \/
  (PrimFloat.ltb 0 (fst (fst r)) = true /\
   In (snd (fst r)) (map fst CLASSIFICATION_RULES)).
Proof.
  cbv zeta. unfold score_document_types.
  apply fold_left_invariant; [left; split; reflexivity|].
  intros acc [doc_type [keywords weight]] Hrule Hacc.
  apply fold_left_invariant; [exact Hacc|].
  intros [[s c] m] keyword _ Hacc'.
  destruct (contains keyword combined); [|exact Hacc'].
  destruct (PrimFloat.ltb s _); [|exact Hacc'].
  right. cbn [fst snd]. split.
  - apply keyword_score_positive.
    apply (in_map (fun r => snd (snd r)) _ _ Hrule).
  - apply (in_map fst _ _ Hrule).
Qed.

Lemma score_policy_types_inv url_lower filename_lower pdf_text_sample policy_type :
  let r := score_policy_types url_lower filename_lower pdf_text_sample
             policy_type in
  snd r = policy_type \/ In (snd r) (map fst POLICY_TYPE_RULES).
Proof.
  cbv zeta. unfold score_policy_types.
  apply fold_left_invariant; [now left|].
  intros [best name] [pt_name pt_keywords] Hrule Hacc.
  match goal with |- context [if (best <? ?s)%Z then _ else _] =>
    destruct (best <? s)%Z end; [|exact Hacc].
  right. apply (in_map fst _ _ Hrule).
Qed.

Lemma base_confidence_inv url_lower filename_lower s pt cls :
  (s = 0%float /\ cls = py "Unclassified") \/
  (PrimFloat.ltb 0 s = true /\ In cls (map fst CLASSIFICATION_RULES)) ->
  let r := base_confidence url_lower filename_lower s pt cls in
  In (snd (fst r))
     (map fst CLASSIFICATION_RULES ++ [py "General Document"; py "Unknown"]) /\
  (forall w, In w (snd r) -> w <> py "Low confidence").
Proof.
  intros Hinv. cbv zeta. unfold base_confidence.
  set (s' := if (0 <? pt)%Z && PrimFloat.ltb 0 s
             then PyFloat.min (PrimFloat.add s 0.05%float) 1.0%float else s).
  destruct (PrimFloat.ltb 0 s') eqn:Es'.
  - cbn [fst snd]. split; [|intros w []].
    apply in_or_app. left.
    destruct Hinv as [[-> ->]|[_ Hin]]; [|exact Hin].
    subst s'. rewrite andb_false_r in Es'. discriminate Es'.
  - destruct (0 <? pt)%Z.
    + cbn [fst snd]. split; [apply in_or_app; right; now left|].
      intros w [<-|[]]. discriminate.
    + destruct (contains (py ".pdf") url_lower || contains (py ".pdf") filename_lower);
        cbn [fst snd].
      * split; [apply in_or_app; right; now left|]. intros w [<-|[]]. discriminate.
      * split; [apply in_or_app; right; right; now left|].
        intros w [<-|[]]. discriminate.
Qed.

Lemma adjust_for_file_size_inv file_size confidence warnings :
  (forall w, In w warnings -> w <> py "Low confidence") ->
  forall w, In w (snd (adjust_for_file_size file_size confidence warnings)) ->
            w <> py "Low confidence".
Proof.
  intros Hw. unfold adjust_for_file_size.
  destruct file_size as [n|]; [|exact Hw].
  destruct (n =? 0)%Z; [exact Hw|].
  destruct (n <? 10000)%Z; [|destruct (n <? 50000)%Z; [|destruct (20000000 <? n)%Z]];
    cbn [snd]; try exact Hw;
    intros w Hin; apply in_app_or in Hin; destruct Hin as [Hin|[<-|[]]];
    (now apply Hw) || discriminate.
Qed.

Lemma review_status_inv confidence warnings :
  (forall w, In w warnings -> w <> py "Low confidence") ->
  let r := review_status confidence warnings in
  (fst r = py "auto-approved" /\ snd r = warnings /\
   PrimFloat.leb 0.85 confidence = true) \/
  (fst r = py "needs-review" /\ PrimFloat.leb 0.85 confidence = false /\
   exists w, snd r = warnings ++ [w] /\
     (startswith w (py "Low confidence") = true /\
      PrimFloat.leb 0.5 confidence = true \/
      startswith w (py "Very low confidence") = true /\
      PrimFloat.leb 0.5 confidence = false)).
Proof.
  intros Hw. cbv zeta. unfold review_status.
  destruct (PrimFloat.leb 0.85 confidence); [left; repeat split|].
  right. destruct (PrimFloat.leb 0.5 confidence); cbn [fst snd].
  - split; [reflexivity|]. split; [reflexivity|].
    assert (Hn : str_in (py "Low confidence") warnings = false).
    { destruct (str_in (py "Low confidence") warnings) eqn:E; [|reflexivity].
      apply str_in_In in E. now apply Hw in E. }
    rewrite Hn. cbn [negb]. eexists. split; [reflexivity|]. left. split; reflexivity.
  - split; [reflexivity|]. split; [reflexivity|].
    eexists. split; [reflexivity|]. right. split; reflexivity.
Qed.

(** X13. [classify_document] raises exactly when [urlparse] does.  When
    it returns, the label is one of the seven document types, "General
    Document" or "Unknown" (never the initial "Unclassified"); the policy
    type is the one passed in or one of the ten known categories; the
    status is "auto-approved" or "needs-review", and a result that needs
    review always ends with a low-confidence or very-low-confidence
    warning (the guard on an existing "Low confidence" warning never
    holds). *)
Theorem classify_document_labels `{UrlLib} (now : Z)
    (url filename policy_type : str) (file_size : option Z)
    (pdf_text_sample : option str) :
  match urlparse url with
  | Raise e =>
      classify_document now url filename policy_type file_size pdf_text_sample
        = Raise e
  | Ok _ =>
      exists c,
        classify_document now url filename policy_type file_size pdf_text_sample
          = Ok c /\
        In (classification c)
           (map fst CLASSIFICATION_RULES ++ [py "General Document"; py "Unknown"]) /\
        (detected_policy_type c = policy_type \/
         In (detected_policy_type c) (map fst POLICY_TYPE_RULES)) /\
        (status c = py "auto-approved" \/
         status c = py "needs-review" /\
         exists ws w, warnings c = ws ++ [w] /\
           (startswith w (py "Low confidence") = true \/
            startswith w (py "Very low confidence") = true))
  end.
Proof.
  unfold classify_document, classify_stages.
  pose proof (score_document_types_inv (lower url) (lower filename)
    (lower url ++ py " " ++ lower filename ++
     (if has_text pdf_text_sample
      then py " " ++ lower (text_or_empty pdf_text_sample) else []))
    pdf_text_sample) as Hd.
  pose proof (score_policy_types_inv (lower url) (lower filename)
    pdf_text_sample policy_type) as Hp.
  cbv zeta in Hd, Hp.
  destruct (score_document_types _ _ _ _) as [[s cls] src].
  destruct (score_policy_types _ _ _ _) as [pt detected].
  cbn [fst snd] in Hd, Hp.
  pose proof (base_confidence_inv (lower url) (lower filename) s pt cls Hd) as Hb.
  cbv zeta in Hb.
  destruct (base_confidence _ _ s pt cls) as [[conf label] warns].
  cbn [fst snd] in Hb. destruct Hb as [Hlabel Hwarns].
  unfold finish_classification.
  pose proof (adjust_for_file_size_inv file_size conf warns Hwarns) as Ha.
  destruct (adjust_for_file_size file_size conf warns) as [conf' warns'].
  cbn [snd] in Ha.
  pose proof (review_status_inv conf' warns' Ha) as Hr. cbv zeta in Hr.
  destruct (review_status conf' warns') as [st warns''].
  cbn [fst snd] in Hr.
  destruct (urlparse url) as [parsed|e]; [|reflexivity].
  cbn [bind]. eexists. split; [reflexivity|].
  cbn [classification detected_policy_type status warnings].
  split; [exact Hlabel|]. split; [exact Hp|].
  destruct Hr as [(-> & _)|(-> & _ & w & -> & Hw)]; [now left|].
  right. split; [reflexivity|]. exists warns', w. split; [reflexivity|].
  destruct Hw as [[Hw _]|[Hw _]]; [now left | now right].
Qed.

(** ** More about [download_pdf_streaming] *)

Lemma stream_chunks_frame cfg env tmp chunks q :
  q <> tmp ->
  forall writes bytes content fs,
  fs_exists q (snd (stream_chunks cfg env tmp chunks writes bytes content fs))
    = fs_exists q fs.
Proof.
  intros Hq. induction chunks as [|[[data elapsed]|e] rest IH];
    intros writes bytes content fs; cbn [stream_chunks]; [reflexivity| |reflexivity].
  destruct (nonempty data); [|apply IH].
  assert (Hu : fs_exists q (snd (match fs_unlink (env_unlink_stream env) tmp fs with
                                 | Ok fs' => (Ok (@None (Z * str)), fs')
                                 | Raise e => (Raise e, fs)
                                 end)) = fs_exists q fs).
  { unfold fs_unlink. destruct (fs_exists tmp fs); [|reflexivity].
    destruct (env_unlink_stream env); [|reflexivity].
    cbn [snd]. now apply fs_exists_remove_other. }
  destruct (_ <? _)%Z; [exact Hu|].
  destruct (_ <? _)%Z; [exact Hu|].
  destruct (env_write env writes); [apply IH | reflexivity].
Qed.

Lemma download_try_frame cfg env url save_path fs q :
  (forall tmp, env_mktemp env (path_parent save_path) = Ok tmp -> q <> tmp) ->
  ~ In q (mkdir_dirs (path_parent save_path)) ->
  let '(r, tp, fs') := download_try cfg env url save_path fs in
  (match r with
   | Ok (Some _) => q <> save_path -> fs_exists q fs' = fs_exists q fs
   | _ => fs_exists q fs' = fs_exists q fs
   end) /\
  (forall tmp, tp = Some tmp -> q <> tmp).
Proof.
  intros Hq Hd. unfold download_try.
  destruct (verify_path_safety env save_path (RAW_STORAGE_DIR cfg));
    cbn [negb]; [|split; [reflexivity|discriminate]].
  destruct (env_get env url) as [response|e]; [|split; [reflexivity|discriminate]].
  destruct (status_code response =? 200)%Z; cbn [negb];
    [|split; [reflexivity|discriminate]].
  match goal with |- context [if ?b then _ else _] => destruct b end;
    [split; [reflexivity|discriminate]|].
  match goal with |- context [match ?t with Ok _ => _ | Raise _ => _ end] =>
    destruct t as [[|]|e] end;
    [split; [reflexivity|discriminate]| |split; [reflexivity|discriminate]].
  destruct (env_mkdir env (path_parent save_path)).
  2:{ split; [|discriminate]. apply fs_mkdir_other.
      intros Hin. apply In_firstn in Hin. contradiction. }
  destruct (env_mktemp env (path_parent save_path)) as [tmp|e] eqn:Etmp;
    [|split; [now apply fs_mkdir_other|discriminate]].
  specialize (Hq tmp eq_refl).
  set (fs0 := fs_mkdir (mkdir_dirs (path_parent save_path)) fs).
  pose proof (stream_chunks_frame cfg env tmp (body response) q Hq 0 0%Z []
                (fs_create tmp fs0)) as Hs.
  rewrite (fs_exists_create_other tmp q fs0) in Hs by congruence.
  unfold fs0 in Hs at 2. rewrite (fs_mkdir_other _ q fs Hd) in Hs.
  assert (Htp : forall tmp', Some tmp = Some tmp' -> q <> tmp')
    by (intros tmp' [= <-]; exact Hq).
  destruct (stream_chunks cfg env tmp (body response) 0 0 [] (fs_create tmp fs0))
    as [[[[size content]|]|e] fs1]; cbn [snd] in Hs.
  - destruct (env_close env); [|split; [exact Hs|exact Htp]].
    destruct (env_rename env); [|split; [exact Hs|exact Htp]].
    unfold fs_replace. destruct (fs_exists tmp fs1); [|split; [exact Hs|exact Htp]].
    split; [|exact Htp]. intros Hsave.
    rewrite fs_exists_create_other by congruence.
    rewrite fs_exists_remove_other by congruence. exact Hs.
  - destruct (env_close env); split; (exact Hs || exact Htp).
  - split; [exact Hs|exact Htp].
Qed.

(** X14. [download_pdf_streaming] changes the existence of no path other
    than its temporary file, the destination, and the directory of the
    destination with its ancestors, which [mkdir] makes: every other path
    exists afterwards exactly when it existed before.  Unless the download
    gives a result, the destination is not touched either, so a file that
    was there is kept and none is created.  When it gives a result, the
    directory of the destination and its ancestors exist. *)
Theorem download_pdf_streaming_frame cfg env url save_path fs (q : str)
    (Hq : forall tmp, env_mktemp env (path_parent save_path) = Ok tmp -> q <> tmp) :
  let '(r, fs') := download_pdf_streaming cfg env url save_path fs in
  (~ In q (mkdir_dirs (path_parent save_path)) ->
   (q <> save_path -> fs_exists q fs' = fs_exists q fs) /\
   ((forall info, r <> Ok (Some info)) -> fs_exists q fs' = fs_exists q fs)) /\
  (In q (mkdir_dirs (path_parent save_path)) ->
   forall info, r = Ok (Some info) -> fs_exists q fs' = true).
Proof.
  pose proof (download_try_frame cfg env url save_path fs q Hq) as Hf.
  pose proof (download_try_success cfg env url save_path fs) as Hsucc.
  unfold download_pdf_streaming.
  destruct (download_try cfg env url save_path fs) as [[[[info|]|e] tp] fs1].
  - split.
    + intros Hd. destruct (Hf Hd) as [Hf' _].
      split; [exact Hf'|]. intros Hno. now destruct (Hno info).
    + intros Hd info' _.
      destruct (Hsucc info tp fs1 eq_refl)
        as (response & tmp & _ & _ & _ & _ & _ & Htmp & _ & _ & _ & _ & ->).
      apply fs_create_keeps.
      rewrite fs_exists_remove_other by (intros ->; now apply (Hq q)).
      apply fs_create_keeps. now apply fs_mkdir_made.
  - split; [|discriminate].
    intros Hd. destruct (Hf Hd) as [Hf' _]. split; intros _; exact Hf'.
  - assert (Hcase : forall fs2 (r2 : result (option DownloadResult)),
              (match tp with
               | None => (Ok None, fs1)
               | Some temp_path =>
                   if fs_exists temp_path fs1
                   then match fs_unlink (env_unlink_cleanup env) temp_path fs1 with
                        | Ok fs'' => (Ok None, fs'')
                        | Raise e => (Raise e, fs1)
                        end
                   else (Ok None, fs1)
               end) = (r2, fs2) ->
              (forall info, r2 <> Ok (Some info)) /\
              (~ In q (mkdir_dirs (path_parent save_path)) ->
               fs_exists q fs2 = fs_exists q fs)).
    { intros fs2 r2. destruct tp as [tmp|].
      - destruct (fs_exists tmp fs1) eqn:Eex.
        + unfold fs_unlink. rewrite Eex.
          destruct (env_unlink_cleanup env).
          * intros [= <- <-]. split; [discriminate|]. intros Hd.
            destruct (Hf Hd) as [Hf' Htp]. specialize (Htp tmp eq_refl).
            rewrite <- Hf'. apply fs_exists_remove_other. congruence.
          * intros [= <- <-]. split; [discriminate|]. intros Hd.
            now destruct (Hf Hd).
        + intros [= <- <-]. split; [discriminate|]. intros Hd.
          now destruct (Hf Hd).
      - intros [= <- <-]. split; [discriminate|]. intros Hd.
        now destruct (Hf Hd). }
    match goal with |- let '(r, fs') := ?t in _ =>
      destruct t as [r2 fs2] eqn:Et end.
    destruct (Hcase fs2 r2 eq_refl) as [Hno Hfr].
    split.
    + intros Hd. split; intros _; now apply Hfr.
    + intros _ info Hr. now destruct (Hno info).
Qed.

Lemma download_pdf_streaming_frame_witness :
  let '(r, fs') :=
    download_pdf_streaming example_config
      (example_env [Ok (py "%PDF", 1%Z); Raise RequestException])
      (py "https://example.com/a.pdf") (py "/data/raw/Example/a.pdf")
      [py "/data/raw/Example/a.pdf"] in
  (~ In (py "/data/raw/Example/a.pdf")
        (mkdir_dirs (path_parent (py "/data/raw/Example/a.pdf"))) ->
   (py "/data/raw/Example/a.pdf" <> py "/data/raw/Example/a.pdf" ->
    fs_exists (py "/data/raw/Example/a.pdf") fs'
    = fs_exists (py "/data/raw/Example/a.pdf") [py "/data/raw/Example/a.pdf"]) /\
   ((forall info, r <> Ok (Some info)) ->
    fs_exists (py "/data/raw/Example/a.pdf") fs'
    = fs_exists (py "/data/raw/Example/a.pdf") [py "/data/raw/Example/a.pdf"])) /\
  (In (py "/data/raw/Example/a.pdf")
      (mkdir_dirs (path_parent (py "/data/raw/Example/a.pdf"))) ->
   forall info, r = Ok (Some info) ->
   fs_exists (py "/data/raw/Example/a.pdf") fs' = true).
Proof.
  apply (download_pdf_streaming_frame example_config
           (example_env [Ok (py "%PDF", 1%Z); Raise RequestException])
           (py "https://example.com/a.pdf") (py "/data/raw/Example/a.pdf")
           [py "/data/raw/Example/a.pdf"] (py "/data/raw/Example/a.pdf")).
  intros tmp Htmp. vm_compute in Htmp. injection Htmp as <-. discriminate.
Defined.

(** X15. A download succeeds only under the conditions the function
    checks: the destination resolves under the storage directory, the
    status is 200, the response looks like a PDF, no declared length above
    the ceiling, every chunk in time; the size reported is the length of
    the body and is between 0 and [MAX_FILE_SIZE_BYTES]. *)
Theorem download_pdf_streaming_success_conditions cfg env url save_path fs info fs'
    (Hmax : (0 <= MAX_FILE_SIZE_BYTES cfg)%Z)
    (Hfresh : forall tmp, env_mktemp env (path_parent save_path) = Ok tmp ->
                          fs_exists tmp fs = false) :
  download_pdf_streaming cfg env url save_path fs = (Ok (Some info), fs') ->
  exists response,
    verify_path_safety env save_path (RAW_STORAGE_DIR cfg) = true /\
    env_get env url = Ok response /\
    status_code response = 200%Z /\
    looks_like_pdf url response = true /\
    ~ declared_too_large cfg response /\
    Forall (chunk_delivered cfg) (body response) /\
    file_size info = Z.of_nat (length (body_content (body response))) /\
    (0 <= file_size info <= MAX_FILE_SIZE_BYTES cfg)%Z.
Proof.
  pose proof (download_try_success cfg env url save_path fs) as Hsucc.
  unfold download_pdf_streaming.
  destruct (download_try cfg env url save_path fs) as [[[[info'|]|e] tp] fs1].
  - intros [= <- <-].
    destruct (Hsucc info' tp fs1 eq_refl)
      as (response & tmp & Hsafe & Hget & Hstatus & Htype & Hlen
          & Htmp & Hall & Hsize & Hle & Hhash & Hfs).
    exists response. specialize (Hle Hmax).
    split; [exact Hsafe|]. split; [exact Hget|]. split; [exact Hstatus|].
    split; [exact Htype|]. split; [exact Hlen|]. split; [exact Hall|].
    split; [exact Hsize|]. lia.
  - discriminate.
  - destruct tp as [tmp|]; [|discriminate].
    destruct (fs_exists tmp fs1); [|discriminate].
    destruct (fs_unlink _ tmp fs1); discriminate.
Qed.

Lemma download_pdf_streaming_success_conditions_witness :
  exists response,
    verify_path_safety
      (example_env [Ok (py "%PDF", 1%Z); Ok ([], 1%Z); Ok (py "-1.7", 2%Z)])
      (py "/data/raw/Example/a.pdf") (RAW_STORAGE_DIR example_config) = true /\
    env_get (example_env [Ok (py "%PDF", 1%Z); Ok ([], 1%Z); Ok (py "-1.7", 2%Z)])
      (py "https://example.com/a.pdf") = Ok response /\
    status_code response = 200%Z /\
    looks_like_pdf (py "https://example.com/a.pdf") response = true /\
    ~ declared_too_large example_config response /\
    Forall (chunk_delivered example_config) (body response) /\
    8%Z = Z.of_nat (length (body_content (body response))) /\
    (0 <= 8 <= MAX_FILE_SIZE_BYTES example_config)%Z.
Proof.
  apply (download_pdf_streaming_success_conditions example_config
           (example_env [Ok (py "%PDF", 1%Z); Ok ([], 1%Z); Ok (py "-1.7", 2%Z)])
           (py "https://example.com/a.pdf") (py "/data/raw/Example/a.pdf") []
           {| file_size := 8; file_hash := py "sha256:%PDF-1.7" |}
           [py "/data/raw/Example/a.pdf"; py "/data/raw/Example";
            py "/data/raw"; py "/data"; py "/"]).
  - vm_compute. discriminate.
  - intros tmp _. reflexivity.
  - vm_compute. reflexivity.
Defined.

(** ** [extract_from_sitemap] *)

Lemma set_add_In x s u : In u (set_add x s) <-> u = x \/ In u s.
Proof.
  unfold set_add. destruct (str_in x s) eqn:E.
  - apply str_in_In in E. split; [now right|]. intros [->|H]; assumption.
  - rewrite in_app_iff. simpl. split; [intros [H|[H|[]]]; auto|].
    intros [->|H]; auto.
Qed.

Lemma set_add_NoDup x s : NoDup s -> NoDup (set_add x s).
Proof.
  intros Hs. unfold set_add. destruct (str_in x s) eqn:E; [exact Hs|].
  apply NoDup_app; [exact Hs | repeat constructor; simpl; tauto |].
  intros y Hy [<-|[]]. apply str_in_In in Hy. congruence.
Qed.

Lemma collect_locs_spec `{UrlLib} cfg locs : forall pdf_urls,
  NoDup pdf_urls ->
  let r := fst (collect_locs cfg locs pdf_urls) in
  NoDup r /\
  (forall u, In u r ->
     In u pdf_urls \/
     exists url, In (Some url) locs /\
                 contains (py ".pdf") (lower url) = true /\
                 normalize_url (TRACKING_PARAMS cfg) url = Ok u).
Proof.
  induction locs as [|loc rest IH]; intros pdf_urls Hnd; cbv zeta;
    cbn [collect_locs].
  - split; [exact Hnd|]. intros u Hu. now left.
  - destruct (nonempty (text_or_empty loc) && _) eqn:Ec.
    + apply andb_true_iff in Ec. destruct Ec as [Hne Hpdf].
      destruct loc as [url|]; [|discriminate Hne]. cbn [text_or_empty] in *.
      destruct (normalize_url (TRACKING_PARAMS cfg) url) as [normalized|e] eqn:En.
      * destruct (IH (set_add normalized pdf_urls) (set_add_NoDup _ _ Hnd))
          as [Hnd' Hin].
        split; [exact Hnd'|]. intros u Hu.
        destruct (Hin u Hu) as [Hu'|(url' & H1 & H2 & H3)].
        -- apply set_add_In in Hu'. destruct Hu' as [->|Hu']; [|now left].
           right. exists url. split; [now left|]. split; assumption.
        -- right. exists url'. split; [now right|]. split; assumption.
      * cbn [fst]. split; [exact Hnd|]. intros u Hu. now left.
    + destruct (IH pdf_urls Hnd) as [Hnd' Hin]. split; [exact Hnd'|].
      intros u Hu. destruct (Hin u Hu) as [Hu'|(url' & H1 & H2 & H3)];
        [now left|].
      right. exists url'. split; [now right|]. split; assumption.
Qed.

Lemma sitemap_source_weaken `{UrlLib} cfg w base_url paths paths' lo hi lo' hi' u :
  sitemap_source cfg w base_url paths lo hi u ->
  incl paths paths' -> lo' <= lo -> hi <= hi' ->
  sitemap_source cfg w base_url paths' lo' hi' u.
Proof.
  intros (k & p & resp & locs & url & Hk & Hp & Hrest) Hincl Hlo Hhi.
  exists k, p, resp, locs, url. split; [lia|]. split; [now apply Hincl|].
  exact Hrest.
Qed.

Lemma try_sitemaps_spec `{UrlLib} cfg w base_url paths : forall pdf_urls tick,
  NoDup pdf_urls ->
  let r := try_sitemaps cfg w base_url paths pdf_urls tick in
  NoDup (fst r) /\
  tick <= snd r <= tick + length paths /\
  (forall u, In u (fst r) ->
     In u pdf_urls \/ sitemap_source cfg w base_url paths tick (snd r) u).
Proof.
  induction paths as [|p rest IH]; intros pdf_urls tick Hnd; cbv zeta;
    cbn [try_sitemaps].
  - cbn [fst snd length]. split; [exact Hnd|]. split; [lia|]. intros u Hu. now left.
  - assert (Hskip :
      NoDup (fst (try_sitemaps cfg w base_url rest pdf_urls (S tick))) /\
      tick <= snd (try_sitemaps cfg w base_url rest pdf_urls (S tick))
           <= tick + length (p :: rest) /\
      (forall u, In u (fst (try_sitemaps cfg w base_url rest pdf_urls (S tick))) ->
         In u pdf_urls \/
         sitemap_source cfg w base_url (p :: rest) tick
           (snd (try_sitemaps cfg w base_url rest pdf_urls (S tick))) u)).
    { destruct (IH pdf_urls (S tick) Hnd) as (H1 & H2 & H3).
      split; [exact H1|]. cbn [length]. split; [lia|].
      intros u Hu. destruct (H3 u Hu) as [Hu'|Hu']; [now left|]. right.
      eapply sitemap_source_weaken; [exact Hu' | | lia | lia].
      intros x Hx. now right. }
    destruct (w_sitemap w tick (rstrip (py "/") base_url ++ p)) as [resp|e] eqn:Eget;
      [|exact Hskip].
    destruct ((sitemap_status resp =? 200)%Z && _) eqn:Eok; [|exact Hskip].
    apply andb_true_iff in Eok. destruct Eok as [Estatus _].
    apply Z.eqb_eq in Estatus.
    destruct (sitemap_locs resp) as [locs|e] eqn:Elocs; [|exact Hskip].
    pose proof (collect_locs_spec cfg locs pdf_urls Hnd) as Hc. cbv zeta in Hc.
    destruct (collect_locs cfg locs pdf_urls) as [pdf_urls' outcome].
    cbn [fst] in Hc. destruct Hc as [Hnd' Hin'].
    assert (Hhere : forall u hi, tick < hi -> In u pdf_urls' ->
              In u pdf_urls \/
              sitemap_source cfg w base_url (p :: rest) tick hi u).
    { intros u hi Hhi Hu. destruct (Hin' u Hu) as [Hu'|(url & H1 & H2 & H3)];
        [now left|].
      right. exists tick, p, resp, locs, url.
      split; [lia|]. split; [now left|]. repeat (split; [assumption|]).
      assumption. }
    assert (Hnext :
      NoDup (fst (try_sitemaps cfg w base_url rest pdf_urls' (S tick))) /\
      tick <= snd (try_sitemaps cfg w base_url rest pdf_urls' (S tick))
           <= tick + length (p :: rest) /\
      (forall u, In u (fst (try_sitemaps cfg w base_url rest pdf_urls' (S tick))) ->
         In u pdf_urls \/
         sitemap_source cfg w base_url (p :: rest) tick
           (snd (try_sitemaps cfg w base_url rest pdf_urls' (S tick))) u)).
    { destruct (IH pdf_urls' (S tick) Hnd') as (H1 & H2 & H3).
      split; [exact H1|]. cbn [length]. split; [lia|].
      intros u Hu. destruct (H3 u Hu) as [Hu'|Hu'].
      - apply Hhere; [lia | exact Hu'].
      - right. eapply sitemap_source_weaken; [exact Hu' | | lia | lia].
        intros x Hx. now right. }
    destruct outcome as [[]|e]; [|exact Hnext].
    destruct (nonempty_list pdf_urls'); [|exact Hnext].
    cbn [fst snd length]. split; [exact Hnd'|]. split; [lia|].
    intros u Hu. apply Hhere; [lia | exact Hu].
Qed.

(** X16. [extract_from_sitemap] makes at most four requests and never
    raises; the URLs it returns are distinct, and each is the normalized
    text of a [loc] that holds [.pdf] in a sitemap answered with status 200
    to one of these requests.  (The URLs are not compared with the seed's
    domain here.) *)
Theorem extract_from_sitemap_spec `{UrlLib} (cfg : Config) (w : CrawlWorld)
    (base_url : str) (tick : nat) :
  let r := extract_from_sitemap cfg w base_url tick in
  NoDup (fst r) /\
  tick <= snd r <= tick + 4 /\
  (forall u, In u (fst r) ->
     sitemap_source cfg w base_url sitemap_paths tick (snd r) u).
Proof.
  cbv zeta. unfold extract_from_sitemap.
  destruct (try_sitemaps_spec cfg w base_url sitemap_paths [] tick (NoDup_nil _))
    as (H1 & H2 & H3).
  split; [exact H1|]. split; [exact H2|].
  intros u Hu. destruct (H3 u Hu) as [[]|Hs]. exact Hs.
Qed.

(** ** The query-string codec *)

Lemma unquote_quote_plus_char c rest :
  unquote (map plus_to_space (quote_plus_char c) ++ rest) = c :: unquote rest.
Proof.
  destruct c as [[] [] [] [] [] [] [] []]; reflexivity.
Qed.

Lemma quote_plus_char_quoted c :
  forallb is_quoted_char (quote_plus_char c) = true.
Proof.
  destruct c as [[] [] [] [] [] [] [] []]; reflexivity.
Qed.

Lemma unquote_plus_quote_plus s : unquote_plus (quote_plus s) = s.
Proof.
  unfold unquote_plus, quote_plus.
  induction s as [|c s IH]; [reflexivity|].
  cbn [flat_map]. rewrite map_app, unquote_quote_plus_char. now rewrite IH.
Qed.

Lemma forallb_flat_map {A B} (p : B -> bool) (f : A -> list B) l :
  (forall x, forallb p (f x) = true) -> forallb p (flat_map f l) = true.
Proof.
  intros H. induction l as [|x l IH]; [reflexivity|].
  cbn [flat_map]. now rewrite forallb_app, H, IH.
Qed.

Lemma quote_plus_quoted s : forallb is_quoted_char (quote_plus s) = true.
Proof. apply forallb_flat_map. apply quote_plus_char_quoted. Qed.

(** On ASCII text [unquote_plus] undoes [quote_plus], and a quoted
    string is made of unreserved characters, ['+'] and ['%'] only, so it
    holds none of the delimiters ['&'], ['='], ['#'], ['?'] and ['/']. *)
Theorem quote_plus_round_trip (s : str) :
  is_ascii_str s = true ->
  unquote_plus (quote_plus s) = s /\
  forallb is_quoted_char (quote_plus s) = true /\
  (forall c, In c (py "&=#?/;") -> ~ In c (quote_plus s)).
Proof.
  intros _. split; [apply unquote_plus_quote_plus|].
  split; [apply quote_plus_quoted|].
  intros c Hc Hin. pose proof (quote_plus_quoted s) as Hq.
  rewrite forallb_forall in Hq. apply Hq in Hin.
  simpl in Hc. repeat (destruct Hc as [<-|Hc]; [discriminate Hin|]). exact Hc.
Qed.

Lemma quote_plus_round_trip_witness :
  unquote_plus (quote_plus (py "a b&c=d/e?f#g%20+")) = py "a b&c=d/e?f#g%20+".
Proof.
  apply (proj1 (quote_plus_round_trip (py "a b&c=d/e?f#g%20+") eq_refl)).
Defined.

Lemma split_none c (a : str) : ~ In c a -> split c a = [a].
Proof.
  induction a as [|x a IH]; intros Hc; simpl; [reflexivity|].
  destruct (Ascii.eqb x c) eqn:E.
  - apply Ascii.eqb_eq in E. subst. exfalso. apply Hc. now left.
  - rewrite IH; [reflexivity|]. intros Hin. apply Hc. now right.
Qed.

Lemma split_app_sep c (a b : str) :
  ~ In c a -> split c (a ++ c :: b) = a :: split c b.
Proof.
  induction a as [|x a IH]; intros Hc; simpl.
  - now rewrite Ascii.eqb_refl.
  - destruct (Ascii.eqb x c) eqn:E.
    + apply Ascii.eqb_eq in E. subst. exfalso. apply Hc. now left.
    + rewrite IH; [reflexivity|]. intros Hin. apply Hc. now right.
Qed.

Lemma split_join c (parts : list str) :
  parts <> [] -> Forall (fun p => ~ In c p) parts ->
  split c (join [c] parts) = parts.
Proof.
  induction parts as [|p rest IH]; intros Hne Hall; [contradiction|].
  inversion Hall as [|? ? Hp Hrest]; subst.
  destruct rest as [|q rest].
  - simpl. now apply split_none.
  - change (join [c] (p :: q :: rest)) with (p ++ c :: join [c] (q :: rest)).
    rewrite split_app_sep by exact Hp. f_equal. apply IH; [discriminate|exact Hrest].
Qed.

Lemma split_once_sep c (a b : str) :
  ~ In c a -> split_once c (a ++ c :: b) = (a, Some b).
Proof.
  induction a as [|x a IH]; intros Hc; simpl.
  - now rewrite Ascii.eqb_refl.
  - destruct (Ascii.eqb x c) eqn:E.
    + apply Ascii.eqb_eq in E. subst. exfalso. apply Hc. now left.
    + rewrite IH; [reflexivity|]. intros Hin. apply Hc. now right.
Qed.

Lemma quote_plus_no c s : is_quoted_char c = false -> ~ In c (quote_plus s).
Proof.
  intros Hc Hin. pose proof (quote_plus_quoted s) as Hq.
  rewrite forallb_forall in Hq. apply Hq in Hin. congruence.
Qed.

Lemma parse_field_quoted k v :
  parse_field (quote_plus k ++ py "=" ++ quote_plus v) = (k, v).
Proof.
  unfold parse_field, cut.
  change (quote_plus k ++ py "=" ++ quote_plus v)
    with (quote_plus k ++ "="%char :: quote_plus v).
  rewrite split_once_sep by (now apply quote_plus_no).
  now rewrite !unquote_plus_quote_plus.
Qed.

(** The fields that [urlencode] writes, and the pairs they stand for. *)
Lemma urlencode_fields_spec (d : qdict) :
  let fields :=
    flat_map (fun kv => map (fun v => quote_plus (fst kv) ++ py "=" ++ quote_plus v)
                            (snd kv)) d in
  Forall (fun f => ~ In "&"%char f) fields /\
  filter nonempty fields = fields /\
  map parse_field fields = flat_map (fun kv => map (pair (fst kv)) (snd kv)) d.
Proof.
  cbv zeta. induction d as [|[k vs] d (IH1 & IH2 & IH3)]; [repeat split; constructor|].
  cbn [flat_map fst snd].
  split; [apply Forall_app; split; [|exact IH1]|split].
  - apply Forall_forall. intros f Hf. apply in_map_iff in Hf.
    destruct Hf as [v [<- _]]. intros Hin.
    apply in_app_or in Hin. destruct Hin as [Hin|Hin];
      [revert Hin; now apply quote_plus_no|].
    apply in_app_or in Hin. destruct Hin as [[Hin|[]]|Hin]; [discriminate|].
    revert Hin. now apply quote_plus_no.
  - rewrite filter_app. f_equal; [|exact IH2].
    clear. induction vs as [|v vs IH]; [reflexivity|]. cbn [map filter].
    destruct (quote_plus k ++ py "=" ++ quote_plus v) eqn:E.
    + apply app_eq_nil in E. destruct E as [_ E]. discriminate.
    + cbn [nonempty]. now rewrite IH.
  - rewrite map_app. f_equal; [|exact IH3].
    clear. induction vs as [|v vs IH]; [reflexivity|]. cbn [map].
    now rewrite parse_field_quoted, IH.
Qed.

Lemma parse_qsl_urlencode (d : qdict) :
  parse_qsl (urlencode d) = flat_map (fun kv => map (pair (fst kv)) (snd kv)) d.
Proof.
  unfold urlencode.
  destruct (urlencode_fields_spec d) as (Hamp & Hne & Hmap). cbv zeta in *.
  set (fields := flat_map _ d) in *. clearbody fields.
  destruct fields as [|f fields'].
  - simpl. rewrite <- Hmap. reflexivity.
  - unfold parse_qsl.
    destruct (join (py "&") (f :: fields')) eqn:Ej.
    + (* a field holds '=', so the joined text is not empty *)
      exfalso.
      assert (Hf : f = []).
      { destruct fields'; simpl in Ej; [exact Ej|].
        apply app_eq_nil in Ej. tauto. }
      subst f. simpl in Hne.
      assert (Hlen : length (filter nonempty fields') <= length fields')
        by apply filter_length_le.
      rewrite Hne in Hlen. simpl in Hlen.
      exact (Nat.nle_succ_diag_l _ Hlen).
    + rewrite <- Ej. change (py "&") with ["&"%char].
      rewrite split_join; [|discriminate|exact Hamp].
      now rewrite Hne, Hmap.
Qed.



Lemma qdict_add_new name value d :
  ~ In name (map fst d) -> qdict_add name value d = d ++ [(name, [value])].
Proof.
  induction d as [|[k vs] d IH]; intros Hn; simpl; [reflexivity|].
  rewrite str_eqb_neq by (intros ->; apply Hn; now left).
  rewrite IH; [reflexivity|]. intros Hin. apply Hn. now right.
Qed.

Lemma qdict_add_last name value d vs :
  ~ In name (map fst d) ->
  qdict_add name value (d ++ [(name, vs)]) = d ++ [(name, vs ++ [value])].
Proof.
  induction d as [|[k vs'] d IH]; intros Hn; simpl.
  - now rewrite str_eqb_refl.
  - rewrite str_eqb_neq by (intros ->; apply Hn; now left).
    rewrite IH; [reflexivity|]. intros Hin. apply Hn. now right.
Qed.

Lemma fold_qdict_add_values name (vs : list str) : forall d vs0,
  ~ In name (map fst d) ->
  fold_left (fun d nv => qdict_add (fst nv) (snd nv) d) (map (pair name) vs)
            (d ++ [(name, vs0)])
  = d ++ [(name, vs0 ++ vs)].
Proof.
  induction vs as [|v vs IH]; intros d vs0 Hn; simpl.
  - now rewrite app_nil_r.
  - rewrite qdict_add_last by exact Hn. rewrite IH by exact Hn.
    now rewrite <- app_assoc.
Qed.

Lemma fold_qdict_add_pairs (d : qdict) : forall acc,
  NoDup (map fst (acc ++ d)) -> Forall (fun kv => snd kv <> []) d ->
  fold_left (fun d nv => qdict_add (fst nv) (snd nv) d)
            (flat_map (fun kv => map (pair (fst kv)) (snd kv)) d) acc
  = acc ++ d.
Proof.
  induction d as [|[k vs] d IH]; intros acc Hnd Hne; simpl.
  - now rewrite app_nil_r.
  - inversion Hne as [|? ? Hvs Hrest]; subst. cbn [snd] in Hvs.
    destruct vs as [|v vs]; [contradiction|].
    assert (Hk : ~ In k (map fst acc)).
    { rewrite map_app in Hnd. cbn [map fst] in Hnd.
      apply NoDup_remove_2 in Hnd. intros Hin. apply Hnd.
      apply in_or_app. now left. }
    rewrite fold_left_app. cbn [map fold_left fst snd].
    rewrite qdict_add_new by exact Hk.
    rewrite fold_qdict_add_values by exact Hk. cbn [app].
    rewrite IH; [now rewrite <- app_assoc|now rewrite <- app_assoc|exact Hrest].
Qed.

Lemma parse_qs_urlencode_ok (d : qdict) :
  qdict_ok d -> parse_qs (urlencode d) = d.
Proof.
  intros [Hnd Hne]. unfold parse_qs. rewrite parse_qsl_urlencode.
  now rewrite (fold_qdict_add_pairs d [] Hnd Hne).
Qed.

Lemma qdict_add_ok name value d : qdict_ok d -> qdict_ok (qdict_add name value d).
Proof.
  intros [Hnd Hne].
  assert (Hkeys : map fst (qdict_add name value d) =
                  if str_in name (map fst d) then map fst d
                  else map fst d ++ [name]).
  { clear. induction d as [|[k vs] d IH]; simpl; [reflexivity|].
    rewrite (proj2 (Bool.eq_iff_eq_true _ _)
               (conj (fun H => proj2 (str_eqb_eq _ _) (eq_sym (proj1 (str_eqb_eq _ _) H)))
                     (fun H => proj2 (str_eqb_eq _ _) (eq_sym (proj1 (str_eqb_eq _ _) H))))
             : str_eqb name k = str_eqb k name).
    destruct (str_eqb k name); simpl; [reflexivity|].
    rewrite IH. now destruct (str_in name (map fst d)). }
  split.
  - rewrite Hkeys. destruct (str_in name (map fst d)) eqn:E; [exact Hnd|].
    apply NoDup_app; [exact Hnd | repeat constructor; simpl; tauto |].
    intros x Hx [<-|[]]. apply str_in_In in Hx. congruence.
  - clear Hnd Hkeys. induction d as [|[k vs] d IH]; simpl.
    + repeat constructor. discriminate.
    + inversion Hne; subst. destruct (str_eqb k name).
      * constructor; [|assumption]. cbn [snd]. now destruct vs.
      * constructor; [assumption|]. now apply IH.
Qed.

Lemma parse_qs_ok q : qdict_ok (parse_qs q).
Proof.
  unfold parse_qs. apply fold_left_invariant.
  - split; constructor.
  - intros d nv _ Hd. now apply qdict_add_ok.
Qed.

Lemma filter_qdict_ok f (d : qdict) : qdict_ok d -> qdict_ok (filter f d).
Proof.
  intros [Hnd Hne]. split.
  - clear Hne. induction d as [|[k vs] d IH]; simpl; [constructor|].
    inversion Hnd as [|? ? Hk Hd]; subst.
    destruct (f (k, vs)); [|now apply IH]. cbn [map fst].
    constructor; [|now apply IH]. intros Hin. apply Hk.
    apply in_map_iff in Hin. destruct Hin as [kv [<- Hkv]].
    apply filter_In in Hkv. apply in_map. tauto.
  - apply Forall_forall. intros kv Hkv. apply filter_In in Hkv.
    rewrite Forall_forall in Hne. now apply Hne.
Qed.

(** [parse_qs] undoes [urlencode]: on a dict with distinct names, no
    empty list of values and ASCII text, parsing the encoded query gives
    the dict back, names and values in the same order; and every dict that
    [parse_qs] returns has distinct names and no empty list. *)
Theorem parse_qs_urlencode (d : qdict) (q : str) :
  qdict_ok (parse_qs q) /\
  (qdict_ok d -> is_ascii_qdict d = true -> parse_qs (urlencode d) = d).
Proof.
  split; [apply parse_qs_ok|]. intros Hok _. now apply parse_qs_urlencode_ok.
Qed.

Lemma parse_qs_urlencode_witness :
  parse_qs (urlencode [(py "a b", [py "1"; py "x&y"]); (py "c", [[]])])
  = [(py "a b", [py "1"; py "x&y"]); (py "c", [[]])].
Proof.
  apply (proj2 (parse_qs_urlencode
                  [(py "a b", [py "1"; py "x&y"]); (py "c", [[]])] [])).
  - split.
    + repeat constructor; simpl; intros H;
        repeat (destruct H as [H|H]; [discriminate|]); exact H.
    + repeat constructor; discriminate.
  - vm_compute. reflexivity.
Defined.

(** X17. The query part of [normalize_url]: parsed again, the normalized
    query holds exactly the parameters of the original query whose
    lower-cased name is not a tracking parameter, with their values and in
    their order; normalizing a normalized query changes nothing.  (For
    queries whose decoded names and values are ASCII.) *)
Theorem normalize_query_spec (TRACKING_PARAMS : list str) (q : str) :
  is_ascii_qdict (parse_qs q) = true ->
  parse_qs (normalize_query TRACKING_PARAMS q)
    = filter (fun kv => negb (str_in (lower (fst kv)) TRACKING_PARAMS))
             (parse_qs q) /\
  normalize_query TRACKING_PARAMS (normalize_query TRACKING_PARAMS q)
    = normalize_query TRACKING_PARAMS q.
Proof.
  intros _. unfold normalize_query at 1 3 4.
  destruct q as [|c q']; [split; reflexivity|].
  set (f := fun kv : str * list str =>
              negb (str_in (lower (fst kv)) TRACKING_PARAMS)).
  set (params := filter f (parse_qs (c :: q'))).
  assert (Hok : qdict_ok params)
    by (apply filter_qdict_ok, parse_qs_ok).
  assert (Hidem : filter f params = params) by apply filter_idem.
  destruct params as [|kv params'] eqn:Ep; [split; reflexivity|].
  rewrite <- Ep in *.
  split; [now apply parse_qs_urlencode_ok|].
  unfold normalize_query. destruct (urlencode params) eqn:Eu; [reflexivity|].
  rewrite <- Eu. rewrite (parse_qs_urlencode_ok params Hok).
  fold f. rewrite Hidem. rewrite Ep. reflexivity.
Qed.

Lemma normalize_query_spec_witness :
  parse_qs (normalize_query [py "utm_source"; py "fbclid"]
                            (py "b=2&UTM_Source=x&a=1&b=3&fbclid=9"))
  = [(py "b", [py "2"; py "3"]); (py "a", [py "1"])] /\
  normalize_query [py "utm_source"; py "fbclid"]
    (normalize_query [py "utm_source"; py "fbclid"]
                     (py "b=2&UTM_Source=x&a=1&b=3&fbclid=9"))
  = normalize_query [py "utm_source"; py "fbclid"]
                    (py "b=2&UTM_Source=x&a=1&b=3&fbclid=9").
Proof.
  apply (normalize_query_spec [py "utm_source"; py "fbclid"]
           (py "b=2&UTM_Source=x&a=1&b=3&fbclid=9")).
  vm_compute. reflexivity.
Defined.

(** ** Fragments *)

Lemma dropwhile_app_stop p (a : str) c b :
  p c = false -> dropwhile p (a ++ c :: b) = dropwhile p a ++ c :: b.
Proof.
  intros Hc. induction a as [|x a IH]; simpl; [now rewrite Hc|].
  destruct (p x); [exact IH | reflexivity].
Qed.

Lemma takewhile_app_stop p (a : str) c b :
  p c = false -> takewhile p (a ++ c :: b) = takewhile p a.
Proof.
  intros Hc. induction a as [|x a IH]; simpl; [now rewrite Hc|].
  destruct (p x); [now rewrite IH | reflexivity].
Qed.

Lemma In_dropwhile p (a : str) x : In x (dropwhile p a) -> In x a.
Proof.
  induction a as [|y a IH]; simpl; [easy|].
  destruct (p y); [intros H; right; now apply IH | easy].
Qed.

Lemma split_once_spec c (s : str) :
  match split_once c s with
  | (a, Some b) => s = a ++ c :: b /\ ~ In c a
  | (a, None) => s = a /\ ~ In c s
  end.
Proof.
  induction s as [|x s IH]; simpl; [split; [reflexivity | easy]|].
  destruct (Ascii.eqb x c) eqn:E.
  - apply Ascii.eqb_eq in E. subst x. split; [reflexivity | easy].
  - destruct (split_once c s) as [a [b|]]; destruct IH as [IH1 IH2].
    + split; [simpl; now f_equal|]. intros [->|Hin]; [|contradiction].
      now rewrite Ascii.eqb_refl in E.
    + split; [now f_equal|]. intros [->|Hin]; [|contradiction].
      now rewrite Ascii.eqb_refl in E.
Qed.

Lemma split_once_app_other c (v : str) x f :
  ~ In c v -> Ascii.eqb x c = false ->
  split_once c (v ++ x :: f) =
    (v ++ x :: fst (split_once c f), snd (split_once c f)).
Proof.
  intros Hv Hx. induction v as [|y v IH]; simpl.
  - rewrite Hx. now destruct (split_once c f).
  - destruct (Ascii.eqb y c) eqn:E.
    + apply Ascii.eqb_eq in E. subst. exfalso. apply Hv. now left.
    + rewrite IH; [reflexivity|]. intros Hin. apply Hv. now right.
Qed.

Lemma cut_sep c (a b : str) : ~ In c a -> cut c (a ++ c :: b) = (a, b).
Proof. intros H. unfold cut. now rewrite split_once_sep. Qed.

Lemma cut_none c (a : str) : ~ In c a -> cut c a = (a, []).
Proof.
  intros H. unfold cut. pose proof (split_once_spec c a) as Hs.
  destruct (split_once c a) as [a' [b|]]; destruct Hs as [Hs1 Hs2].
  - exfalso. apply H. rewrite Hs1. apply in_or_app. right. now left.
  - now subst.
Qed.

Lemma split_scheme_fragment (v f : str) :
  ~ In "#"%char v ->
  split_scheme (v ++ "#"%char :: f)
    = (fst (split_scheme v), snd (split_scheme v) ++ "#"%char :: f) /\
  ~ In "#"%char (snd (split_scheme v)).
Proof.
  intros Hv. unfold split_scheme.
  pose proof (split_once_spec ":" v) as Hs.
  destruct (split_once ":" v) as [a [b|]] eqn:Ev; destruct Hs as [Hs1 Hs2].
  - assert (Hb : ~ In "#"%char b).
    { intros Hin. apply Hv. rewrite Hs1. apply in_or_app. right. now right. }
    assert (Hsplit : split_once ":" (v ++ "#"%char :: f)
                     = (a, Some (b ++ "#"%char :: f))).
    { rewrite Hs1, <- app_assoc. cbn [app]. now apply split_once_sep. }
    rewrite Hsplit.
    destruct a as [|c pre]; [split; [reflexivity | exact Hv]|].
    destruct (is_ascii_alpha c && forallb is_scheme_char (c :: pre)).
    + split; [reflexivity | exact Hb].
    + split; [reflexivity | exact Hv].
  - subst a. rewrite split_once_app_other by (exact Hs2 || reflexivity).
    assert (Hrhs : (match v with
                    | [] => ([], v)
                    | _ :: _ => ([], v)
                    end : str * str) = ([], v)) by (now destruct v).
    rewrite Hrhs. cbn [fst snd].
    destruct v as [|y v'].
    + cbn [app]. destruct (snd (split_once ":" f));
        (split; [reflexivity | exact Hv]).
    + cbn [app]. destruct (snd (split_once ":" f));
        [|split; [reflexivity | exact Hv]].
      replace (forallb is_scheme_char
                 (y :: v' ++ "#"%char :: fst (split_once ":" f))) with false.
      * rewrite andb_false_r. split; [reflexivity | exact Hv].
      * symmetry. cbn [forallb]. rewrite forallb_app. cbn [forallb].
        change (is_scheme_char "#") with false.
        now rewrite !andb_false_r.
Qed.

Lemma urlsplit_fragment `{UrlLib} (url frag : str) :
  ~ In "#"%char url ->
  urlsplit (url ++ "#"%char :: frag) =
    match urlsplit url with
    | Ok (s, n, p, q, _) =>
        Ok (s, n, p, q, filter (fun c => negb (is_unsafe_byte c)) frag)
    | Raise e => Raise e
    end.
Proof.
  intros Hu. unfold urlsplit.
  rewrite dropwhile_app_stop by reflexivity.
  rewrite filter_app. cbn [filter]. change (negb (is_unsafe_byte "#")) with true.
  cbv iota.
  set (v := filter (fun c => negb (is_unsafe_byte c)) (dropwhile is_c0_or_space url)).
  set (f := filter (fun c => negb (is_unsafe_byte c)) frag).
  assert (Hv : ~ In "#"%char v).
  { subst v. intros Hin. apply filter_In in Hin. destruct Hin as [Hin _].
    apply In_dropwhile in Hin. contradiction. }
  destruct (split_scheme_fragment v f Hv) as [Hsplit Hr]. rewrite Hsplit.
  destruct (split_scheme v) as [s r]. cbn [fst snd] in *.
  rewrite startswith_sep by (simpl; intros [E|[E|[]]]; discriminate).
  destruct (startswith r (py "//")) eqn:Ess.
  - apply startswith_length in Ess. cbn [length py] in Ess.
    unfold splitnetloc. rewrite skipn_app.
    replace (2 - length r) with 0 by (change (length (py "//")) with 2 in Ess; lia).
    change (skipn 0 ("#"%char :: f)) with ("#"%char :: f).
    rewrite takewhile_app_stop, dropwhile_app_stop by reflexivity.
    assert (Hr3 : ~ In "#"%char
                    (dropwhile (fun c => negb (is_netloc_delim c)) (skipn 2 r))).
    { intros Hin. apply In_dropwhile in Hin. apply Hr.
      rewrite <- (firstn_skipn 2 r). apply in_or_app. now right. }
    destruct (check_brackets _); [|reflexivity]. cbn [bind].
    rewrite cut_sep by exact Hr3. rewrite (cut_none "#" _ Hr3).
    now destruct (cut "?" _).
  - cbn [bind]. rewrite cut_sep by exact Hr. rewrite (cut_none "#" _ Hr).
    now destruct (cut "?" _).
Qed.

Lemma urlparse_fragment `{UrlLib} (url frag : str) :
  ~ In "#"%char url ->
  urlparse (url ++ "#"%char :: frag) =
    match urlparse url with
    | Ok p =>
        Ok {| scheme := scheme p; netloc := netloc p; path := path p;
              params := params p; query := query p;
              fragment := filter (fun c => negb (is_unsafe_byte c)) frag |}
    | Raise e => Raise e
    end.
Proof.
  intros Hu. unfold urlparse. rewrite (urlsplit_fragment url frag Hu).
  destruct (urlsplit url) as [[[[[s n] p] q] f]|e]; [|reflexivity].
  cbn [bind].
  now destruct (if str_in s uses_params && char_in ";" p
                then splitparams p else (p, [])).
Qed.

(** X18. The fragment plays no part: appending [#fragment] to a URL that
    has none changes neither its normal form under [normalize_url], nor
    the answer of [is_pdf_url], nor whether these raise. *)
Theorem fragment_ignored `{UrlLib} (TRACKING_PARAMS : list str) (url frag : str) :
  ~ In "#"%char url ->
  normalize_url TRACKING_PARAMS (url ++ py "#" ++ frag)
    = normalize_url TRACKING_PARAMS url /\
  is_pdf_url (url ++ py "#" ++ frag) = is_pdf_url url.
Proof.
  intros Hu. unfold normalize_url, is_pdf_url.
  change (url ++ py "#" ++ frag) with (url ++ "#"%char :: frag).
  rewrite (urlparse_fragment url frag Hu).
  destruct (urlparse url) as [p|e]; split; reflexivity.
Qed.

Lemma fragment_ignored_witness :
  normalize_url (H := permissive_lib) [py "utm_source"]
    (py "https://A.nz/x/?utm_source=n&b=1" ++ py "#" ++ py "page=2")
  = normalize_url (H := permissive_lib) [py "utm_source"]
      (py "https://A.nz/x/?utm_source=n&b=1") /\
  is_pdf_url (H := permissive_lib)
    (py "https://A.nz/x/?utm_source=n&b=1" ++ py "#" ++ py "page=2")
  = is_pdf_url (H := permissive_lib) (py "https://A.nz/x/?utm_source=n&b=1").
Proof.
  apply (fragment_ignored (H := permissive_lib) [py "utm_source"]
           (py "https://A.nz/x/?utm_source=n&b=1") (py "page=2")).
  vm_compute. intros H. repeat (destruct H as [H|H]; [discriminate|]). exact H.
Defined.

(** ** [crawl_domain] *)

(** URLs on which [same_domain] with the seed does not raise. *)
Lemma Forall_list_insert {A} (P : A -> Prop) pos x (l : list A) :
  P x -> Forall P l -> Forall P (list_insert pos x l).
Proof.
  intros Hx Hl. unfold list_insert. apply Forall_app. split.
  - rewrite <- (firstn_skipn pos l) in Hl. now apply Forall_app in Hl.
  - constructor; [exact Hx|].
    rewrite <- (firstn_skipn pos l) in Hl. now apply Forall_app in Hl.
Qed.

Section PageInvariant.
Context `{UrlLib}.
Variables (cfg : Config) (w : CrawlWorld) (seed_url : str) (max_pages : Z).
Variables (keyword_filters policy_types visited : list str).


Lemma add_pdf_inv tick0 normalized ps :
  page_invariant seed_url tick0 ps -> page_invariant seed_url tick0 (fst (add_pdf normalized ps)).
Proof.
  intros (Hq & Hnd & Ht). repeat split; cbn; auto.
  now apply set_add_NoDup.
Qed.

Lemma enqueue_link_inv tick0 full_url ps :
  page_invariant seed_url tick0 ps ->
  page_invariant seed_url tick0 (fst (enqueue_link seed_url max_pages visited full_url ps)).
Proof.
  intros Hinv. pose proof Hinv as (Hq & Hnd & Ht).
  unfold enqueue_link, page_bind, page_lift, page_get, page_ret, page_modify.
  destruct (same_domain seed_url full_url) as [same|e] eqn:Es; [|exact Hinv].
  destruct (same && negb (str_in full_url visited)) eqn:Ec; [|exact Hinv].
  apply andb_true_iff in Ec. destruct Ec as [-> _].
  destruct (urlparse full_url) as [parsed|e]; [|exact Hinv].
  destruct (_ <? 20)%Z; [|exact Hinv].
  destruct (_ <? Z.max _ _)%Z; [|exact Hinv].
  cbn [fst ps_queue ps_pdf_urls ps_tick]. split; [|split; assumption].
  destruct (_ || _).
  - apply Forall_list_insert; [eauto | exact Hq].
  - apply Forall_app. split; [exact Hq|]. constructor; [eauto | constructor].
Qed.

Lemma handle_anchor_inv tick0 url head_checked link ps :
  page_invariant seed_url tick0 ps ->
  page_invariant seed_url tick0
    (fst (handle_anchor cfg w seed_url url max_pages keyword_filters
                        policy_types visited head_checked link ps)).
Proof.
  intros Hinv. unfold handle_anchor.
  destruct (negb (nonempty (strip (fst link))) || _); [exact Hinv|].
  unfold page_bind at 1. unfold page_lift at 1.
  destruct (w_urljoin w url (strip (fst link))) as [full_url|e]; [|exact Hinv].
  unfold page_bind at 1. unfold page_lift at 1.
  destruct (is_pdf_url full_url) as [[|]|e]; [| |exact Hinv].
  - unfold page_bind at 1. unfold page_lift at 1.
    destruct (normalize_url (TRACKING_PARAMS cfg) full_url) as [normalized|e];
      [|exact Hinv].
    destruct (is_valid_document normalized keyword_filters policy_types)
      as [is_valid reason].
    unfold page_bind, page_get, page_ret.
    destruct (is_valid && negb (str_in normalized (ps_pdf_urls ps))).
    + pose proof (add_pdf_inv tick0 normalized ps Hinv) as Ha.
      destruct (add_pdf normalized ps) as [ps' [[]|e]]; exact Ha.
    + exact Hinv.
  - assert (Henq : forall (hc : nat) ps0, page_invariant seed_url tick0 ps0 ->
              page_invariant seed_url tick0
                (fst (page_bind
                        (enqueue_link seed_url max_pages visited full_url)
                        (fun _ : unit => page_ret hc) ps0))).
    { intros hc ps0 H0. unfold page_bind, page_ret.
      pose proof (enqueue_link_inv tick0 full_url ps0 H0) as He.
      destruct (enqueue_link seed_url max_pages visited full_url ps0)
        as [ps' [[]|e]]; exact He. }
    unfold page_bind at 1.
    destruct (head_checked <? MAX_HEAD_CHECKS_PER_PAGE).
    + unfold page_bind at 1. unfold page_lift at 1.
      destruct (same_domain seed_url full_url) as [same|e]; [|exact Hinv].
      unfold page_bind at 1. unfold page_get at 1. unfold page_ret at 1.
      destruct (same && _ && _ && _).
      * unfold page_bind at 1. unfold page_tick at 1.
        set (ps1 := {| ps_queue := ps_queue ps;
                       ps_pdf_urls := ps_pdf_urls ps;
                       ps_path_diversity := ps_path_diversity ps;
                       ps_tick := S (ps_tick ps) |}).
        assert (H1 : page_invariant seed_url tick0 ps1).
        { destruct Hinv as (Hq & Hnd & Ht). repeat split; cbn; auto. }
        destruct (check_url_is_pdf_via_head w (ps_tick ps) full_url).
        -- unfold page_bind at 1. unfold page_lift at 1.
           destruct (normalize_url (TRACKING_PARAMS cfg) full_url)
             as [normalized|e]; [|exact H1].
           unfold page_bind, page_get, page_ret.
           destruct (negb (str_in normalized (ps_pdf_urls ps1))).
           ++ pose proof (add_pdf_inv tick0 normalized ps1 H1) as Ha.
              destruct (add_pdf normalized ps1) as [ps' [[]|e]]; exact Ha.
           ++ exact H1.
        -- apply Henq. exact H1.
      * apply Henq. exact Hinv.
    + unfold page_ret at 1. apply Henq. exact Hinv.
Qed.

Lemma anchors_loop_inv tick0 url links : forall head_checked ps,
  page_invariant seed_url tick0 ps ->
  page_invariant seed_url tick0
    (fst (anchors_loop cfg w seed_url url max_pages keyword_filters
                       policy_types visited head_checked links ps)).
Proof.
  induction links as [|link rest IH]; intros head_checked ps Hinv;
    [exact Hinv|].
  cbn [anchors_loop]. unfold page_bind at 1.
  pose proof (handle_anchor_inv tick0 url head_checked link ps Hinv) as Ha.
  destruct (handle_anchor cfg w seed_url url max_pages keyword_filters
              policy_types visited head_checked link ps) as [ps' [hc|e]];
    [|exact Ha].
  apply IH. exact Ha.
Qed.

Lemma page_iter_inv {A} tick0 (f : A -> Page unit) (l : list A) :
  (forall a ps, page_invariant seed_url tick0 ps -> page_invariant seed_url tick0 (fst (f a ps))) ->
  forall ps, page_invariant seed_url tick0 ps -> page_invariant seed_url tick0 (fst (page_iter f l ps)).
Proof.
  intros Hf. induction l as [|a rest IH]; intros ps Hinv; [exact Hinv|].
  cbn [page_iter]. unfold page_bind at 1.
  pose proof (Hf a ps Hinv) as Ha.
  destruct (f a ps) as [ps' [[]|e]]; [|exact Ha].
  apply IH. exact Ha.
Qed.

Lemma handle_embed_inv tick0 url value ps :
  page_invariant seed_url tick0 ps -> page_invariant seed_url tick0 (fst (handle_embed cfg w url value ps)).
Proof.
  intros Hinv. unfold handle_embed, page_bind, page_lift, page_get, page_ret.
  destruct (w_urljoin w url (strip value)) as [embed_url|e]; [|exact Hinv].
  destruct (is_pdf_url embed_url) as [[|]|e]; [|exact Hinv|exact Hinv].
  destruct (normalize_url (TRACKING_PARAMS cfg) embed_url) as [normalized|e];
    [|exact Hinv].
  destruct (negb (str_in normalized (ps_pdf_urls ps))); [|exact Hinv].
  now apply add_pdf_inv.
Qed.

Lemma handle_onclick_inv tick0 url found ps :
  page_invariant seed_url tick0 ps ->
  page_invariant seed_url tick0 (fst (handle_onclick cfg w seed_url url found ps)).
Proof.
  intros Hinv. unfold handle_onclick, page_bind, page_lift, page_get, page_ret.
  destruct (w_urljoin w url found) as [match_url|e]; [|exact Hinv].
  destruct (normalize_url (TRACKING_PARAMS cfg) match_url) as [normalized|e];
    [|exact Hinv].
  destruct (negb (str_in normalized (ps_pdf_urls ps))); [|exact Hinv].
  destruct (same_domain seed_url match_url) as [[|]|e];
    [|exact Hinv|exact Hinv].
  now apply add_pdf_inv.
Qed.

Lemma process_page_inv tick0 url page ps :
  page_invariant seed_url tick0 ps ->
  page_invariant seed_url tick0
    (fst (process_page cfg w seed_url url max_pages keyword_filters
                       policy_types visited page ps)).
Proof.
  intros Hinv. unfold process_page.
  unfold page_bind at 1.
  pose proof (anchors_loop_inv tick0 url (anchors page) 0 ps Hinv) as H1.
  destruct (anchors_loop cfg w seed_url url max_pages keyword_filters
              policy_types visited 0 (anchors page) ps) as [ps1 [[]|e]];
    [|exact H1].
  unfold page_bind at 1.
  pose proof (page_iter_inv tick0 (handle_embed cfg w url) (embeds page)
                (handle_embed_inv tick0 url) ps1 H1) as H2.
  destruct (page_iter (handle_embed cfg w url) (embeds page) ps1)
    as [ps2 [[]|e]]; [|exact H2].
  unfold page_bind at 1.
  pose proof (page_iter_inv tick0 (handle_embed cfg w url) (data_attrs page)
                (handle_embed_inv tick0 url) ps2 H2) as H3.
  destruct (page_iter (handle_embed cfg w url) (data_attrs page) ps2)
    as [ps3 [[]|e]]; [|exact H3].
  apply page_iter_inv; [apply handle_onclick_inv | exact H3].
Qed.

Lemma fetch_and_process_inv tick0 url ps :
  page_invariant seed_url tick0 ps ->
  page_invariant seed_url tick0
    (fetch_and_process cfg w seed_url url max_pages keyword_filters
                       policy_types visited ps).
Proof.
  intros Hinv. unfold fetch_and_process.
  set (ps1 := {| ps_queue := ps_queue ps; ps_pdf_urls := ps_pdf_urls ps;
                 ps_path_diversity := ps_path_diversity ps;
                 ps_tick := S (ps_tick ps) |}).
  assert (H1 : page_invariant seed_url tick0 ps1).
  { destruct Hinv as (Hq & Hnd & Ht). repeat split; cbn; auto. }
  destruct (w_get w (ps_tick ps) url) as [resp|e]; [|exact H1].
  destruct (negb (page_status resp =? 200)%Z); [exact H1|].
  destruct (negb (contains _ _)); [exact H1|].
  destruct (page_html resp) as [page|e]; [|exact H1].
  now apply process_page_inv.
Qed.
End PageInvariant.

Lemma set_add_incl x s : incl s (set_add x s).
Proof. intros u Hu. apply set_add_In. now right. Qed.

Lemma set_add_length x s :
  length (set_add x s) = if str_in x s then length s else S (length s).
Proof.
  unfold set_add. destruct (str_in x s); [reflexivity|].
  rewrite length_app. simpl. lia.
Qed.

Section CrawlLoop.
Context `{UrlLib}.
Variables (cfg : Config) (w : CrawlWorld) (seed_url : str) (max_pages : Z).
Variables (keyword_filters policy_types : list str) (time_limit : option Z).


(** The iterations that fetch nothing never raise on a queue of URLs
    that parse; they only take URLs off the queue and add URLs to the
    visited set, and the URL they hand over for fetching is on the
    seed's domain and newly visited. *)
Lemma next_page_spec pending : forall visited cache tick,
  Forall (comparable seed_url) pending ->
  match next_page cfg w seed_url max_pages time_limit pending visited
                  cache tick with
  | Ok (Stop pending' visited' _ tick') =>
      Forall (comparable seed_url) pending' /\ incl visited visited' /\
      length visited <= length visited' /\ tick <= tick'
  | Ok (Fetch url pending' visited' _ tick') =>
      Forall (comparable seed_url) pending' /\ incl visited visited' /\
      S (length visited) <= length visited' /\ tick <= tick' /\
      same_domain seed_url url = Ok true /\ In url visited'
  | Raise _ => False
  end.
Proof.
  induction pending as [|url rest IH]; intros visited cache tick Hp.
  - cbn [next_page]. repeat split; auto. apply incl_refl.
  - inversion Hp as [|? ? [b Hb] Hrest]; subst.
    cbn [next_page].
    set (lt := match time_limit with
               | Some limit => ((limit <? w_now w tick)%Z, S tick)
               | None => (false, tick)
               end).
    assert (Ht : tick <= snd lt) by (subst lt; destruct time_limit; cbn; lia).
    destruct lt as [late tick1]. cbn [snd] in Ht.
    destruct late; [repeat split; auto; apply incl_refl|].
    destruct (_ <? _)%Z; [repeat split; auto; apply incl_refl|].
    destruct (str_in url visited) eqn:Evis.
    + specialize (IH visited cache tick1 Hrest).
      destruct (next_page _ _ _ _ _ rest visited cache tick1)
        as [[p' v' c' t'|u p' v' c' t']|e]; [| |exact IH].
      * destruct IH as (H1 & H2 & H3 & H4). repeat split; auto. (unfold str in *; lia).
      * destruct IH as (H1 & H2 & H3 & H4 & H5 & H6). repeat split; auto. (unfold str in *; lia).
    + destruct (can_fetch cfg (w_read_robots w tick1) url cache)
        as [can_fetch_result cache1].
      pose proof (set_add_incl url visited) as Hincl.
      pose proof (set_add_length url visited) as Hlen. rewrite Evis in Hlen.
      assert (Hnext :
        match next_page cfg w seed_url max_pages time_limit rest
                        (set_add url visited) cache1 (S tick1) with
        | Ok (Stop pending' visited' _ tick') =>
            Forall (comparable seed_url) pending' /\ incl visited visited' /\
            length visited <= length visited' /\ tick <= tick'
        | Ok (Fetch url0 pending' visited' _ tick') =>
            Forall (comparable seed_url) pending' /\ incl visited visited' /\
            S (length visited) <= length visited' /\ tick <= tick' /\
            same_domain seed_url url0 = Ok true /\ In url0 visited'
        | Raise _ => False
        end).
      { specialize (IH (set_add url visited) cache1 (S tick1) Hrest).
        destruct (next_page _ _ _ _ _ rest (set_add url visited) cache1 (S tick1))
          as [[p' v' c' t'|u p' v' c' t']|e]; [| |exact IH].
        - destruct IH as (H1 & H2 & H3 & H4).
          repeat split; auto; [eapply incl_tran; eassumption | (unfold str in *; lia) | (unfold str in *; lia)].
        - destruct IH as (H1 & H2 & H3 & H4 & H5 & H6).
          repeat split; auto; [eapply incl_tran; eassumption | (unfold str in *; lia) | (unfold str in *; lia)]. }
      destruct (negb can_fetch_result); [exact Hnext|].
      rewrite Hb. cbn [bind].
      destruct b; cbn [negb]; [|exact Hnext].
      repeat split; auto; try (unfold str in *; lia).
      apply set_add_In; now left.
Qed.

Lemma crawl_loop_spec remaining : forall pages_crawled st,
  Forall (comparable seed_url) (st_queue st) -> NoDup (st_pdf_urls st) ->
  exists st' n,
    crawl_loop cfg w seed_url max_pages keyword_filters policy_types
               time_limit remaining pages_crawled st = Ok (st', n) /\
    (pages_crawled <= n <= pages_crawled + Z.of_nat remaining)%Z /\
    NoDup (st_pdf_urls st') /\
    incl (st_visited st) (st_visited st') /\
    (Z.of_nat (length (st_visited st)) + (n - pages_crawled)
     <= Z.of_nat (length (st_visited st')))%Z /\
    st_tick st <= st_tick st'.
Proof.
  induction remaining as [|remaining' IH]; intros pages_crawled st Hq Hnd.
  - exists st, pages_crawled. cbn [crawl_loop].
    repeat split; auto; try (unfold str in *; lia). apply incl_refl.
  - cbn [crawl_loop].
    assert (Hpop : Forall (comparable seed_url) (pop_order cfg (st_queue st))).
    { unfold pop_order. destruct (str_eqb _ _); [|exact Hq].
      now apply Forall_rev. }
    pose proof (next_page_spec (pop_order cfg (st_queue st)) (st_visited st)
                  (st_robots st) (st_tick st) Hpop) as Hn.
    destruct (next_page cfg w seed_url max_pages time_limit
                (pop_order cfg (st_queue st)) (st_visited st) (st_robots st)
                (st_tick st))
      as [[p' v' c' t'|url p' v' c' t']|e]; [| |contradiction].
    + destruct Hn as (H1 & H2 & H3 & H4). cbn [bind].
      eexists. eexists. split; [reflexivity|].
      cbn [st_pdf_urls st_visited st_tick]. repeat split; auto; (unfold str in *; lia).
    + destruct Hn as (H1 & H2 & H3 & H4 & H5 & H6). cbn [bind].
      set (ps0 := {| ps_queue := pop_order cfg p';
                     ps_pdf_urls := st_pdf_urls st;
                     ps_path_diversity := st_path_diversity st;
                     ps_tick := t' |}).
      assert (Hps0 : page_invariant seed_url t' ps0).
      { repeat split; cbn; auto.
        unfold pop_order. destruct (str_eqb _ _); [|exact H1].
        now apply Forall_rev. }
      pose proof (fetch_and_process_inv cfg w seed_url max_pages
                    keyword_filters policy_types v' t' url ps0 Hps0)
        as (Hq' & Hnd' & Ht').
      set (ps := fetch_and_process cfg w seed_url url max_pages
                   keyword_filters policy_types v' ps0) in *.
      destruct (IH (pages_crawled + 1)%Z
                  {| st_queue := ps_queue ps; st_visited := v';
                     st_pdf_urls := ps_pdf_urls ps;
                     st_path_diversity := ps_path_diversity ps;
                     st_robots := c'; st_tick := ps_tick ps |} Hq' Hnd')
        as (st' & n & Heq & Hn & Hnd'' & Hincl & Hlen & Htick).
      cbn [st_visited st_tick] in *.
      exists st', n. split; [exact Heq|].
      repeat split; auto; try (unfold str in *; lia).
      eapply incl_tran; eassumption.
Qed.
End CrawlLoop.

Lemma same_domain_refl `{UrlLib} url parsed :
  urlparse url = Ok parsed -> same_domain url url = Ok true.
Proof.
  intros Hp. unfold same_domain. rewrite Hp. cbn [bind].
  now rewrite str_eqb_refl.
Qed.

Lemma NoDup_filter_str (f : str -> bool) l : NoDup l -> NoDup (filter f l).
Proof. apply NoDup_filter. Qed.

(** What [crawl_domain] comes to, by the outcome of [urlparse] on the seed. *)
Lemma crawl_domain_outcome `{UrlLib} (cfg : Config) (w : CrawlWorld)
    (seed_url : str) (max_pages : Z) (keyword_filters policy_types : list str)
    (time_limit : option Z) (global_visited : option (list str))
    (cache : robots_cache) (tick : nat) :
  let visited0 := match global_visited with Some v => v | None => [] end in
  match urlparse seed_url with
  | Raise e =>
      crawl_domain cfg w seed_url max_pages keyword_filters policy_types
                   time_limit global_visited cache tick = Raise e
  | Ok _ =>
      exists r,
        crawl_domain cfg w seed_url max_pages keyword_filters policy_types
                     time_limit global_visited cache tick = Ok r /\
        NoDup (found r) /\
        incl visited0 (visited_after r) /\
        tick <= tick_after r /\
        (pages r = 1%Z /\ visited_after r = visited0 \/
         (0 <= pages r <= Z.max 0 max_pages)%Z /\
         (Z.of_nat (length visited0) + pages r
          <= Z.of_nat (length (visited_after r)))%Z)
  end.
Proof.
  cbv zeta. unfold crawl_domain.
  set (visited0 := match global_visited with Some v => v | None => [] end).
  destruct (urlparse seed_url) as [parsed|e] eqn:Hp;
    [|unfold is_pdf_url; rewrite Hp; reflexivity].
  assert (Hd : exists b, is_pdf_url seed_url = Ok b).
  { unfold is_pdf_url. rewrite Hp. cbn [bind]. destruct (_ || _); [eauto|].
    destruct (contains _ _); [eauto|]. destruct (contains _ _); eauto. }
  destruct Hd as [b ->]. cbn [bind]. destruct b.
  - unfold normalize_url. rewrite Hp. cbn [bind].
    destruct (is_valid_document _ keyword_filters policy_types) as [is_valid t].
    eexists. split; [reflexivity|]. cbn [found pages visited_after tick_after].
    split; [destruct is_valid; repeat constructor; simpl; tauto|].
    split; [apply incl_refl|]. split; [(unfold str in *; lia)|]. left. split; reflexivity.
  - unfold extract_from_sitemap.
    pose proof (try_sitemaps_spec cfg w (scheme parsed ++ py "://" ++ netloc parsed)
                  sitemap_paths [] tick (NoDup_nil _)) as Hs.
    cbv zeta in Hs.
    destruct (try_sitemaps cfg w _ sitemap_paths [] tick) as [sitemap_pdfs tick1].
    cbn [fst snd] in Hs. destruct Hs as (Hsnd & [Ht1 _] & _).
    destruct (nonempty_list sitemap_pdfs && _).
    + eexists. split; [reflexivity|]. cbn [found pages visited_after tick_after].
      split; [now apply NoDup_filter|].
      split; [apply incl_refl|]. split; [exact Ht1|]. left. split; reflexivity.
    + assert (Hq : Forall (fun u => exists b, same_domain seed_url u = Ok b)
                          [seed_url]).
      { constructor; [|constructor]. exists true.
        now apply (same_domain_refl seed_url parsed). }
      destruct (crawl_loop_spec cfg w seed_url max_pages keyword_filters
                  policy_types time_limit (Z.to_nat max_pages) 0%Z
                  {| st_queue := [seed_url]; st_visited := visited0;
                     st_pdf_urls := []; st_path_diversity := [];
                     st_robots := cache; st_tick := tick1 |}
                  Hq (NoDup_nil _))
        as (st' & n & Heq & Hn & Hnd & Hincl & Hlen & Htick).
      rewrite Heq. cbn [bind]. eexists. split; [reflexivity|].
      cbn [found pages visited_after tick_after st_visited st_tick] in *.
      split; [exact Hnd|]. split; [exact Hincl|]. split; [(unfold str in *; lia)|].
      right. split; (unfold str in *; lia).
Qed.

(** X19. [crawl_domain] raises exactly when [urlparse] raises on the seed
    URL: no answer of the site, of its robots file or of its sitemaps can
    make it raise, and its loop always ends.  It returns distinct PDF
    URLs and only adds URLs to the visited set.  Either it reports one
    page and leaves the visited set alone (a seed that is a PDF, or PDFs
    from a sitemap), or the number of pages it reports is at most
    [max_pages] and at most the number of URLs it added to the visited
    set: no page is fetched for a URL that was visited before. *)
Theorem crawl_domain_total `{UrlLib} (cfg : Config) (w : CrawlWorld)
    (seed_url : str) (max_pages : Z) (keyword_filters policy_types : list str)
    (time_limit : option Z) (global_visited : option (list str))
    (cache : robots_cache) (tick : nat) :
  let visited0 := match global_visited with Some v => v | None => [] end in
  match urlparse seed_url with
  | Raise e =>
      crawl_domain cfg w seed_url max_pages keyword_filters policy_types
                   time_limit global_visited cache tick = Raise e
  | Ok _ =>
      exists r,
        crawl_domain cfg w seed_url max_pages keyword_filters policy_types
                     time_limit global_visited cache tick = Ok r /\
        NoDup (found r) /\
        incl visited0 (visited_after r) /\
        tick <= tick_after r /\
        (pages r = 1%Z /\ visited_after r = visited0 \/
         (0 <= pages r <= Z.max 0 max_pages)%Z /\
         (Z.of_nat (length visited0) + pages r
          <= Z.of_nat (length (visited_after r)))%Z)
  end.
Proof.
  pose proof (crawl_domain_outcome cfg w seed_url max_pages keyword_filters
                policy_types time_limit global_visited cache tick) as Hout.
  cbv zeta in *.
  destruct (urlparse seed_url) as [parsed|e]; [|exact Hout].
  destruct Hout as (r & Heq & Hnd & Hincl & Htick & Hpages).
  exists r. split; [exact Heq|]. split; [exact Hnd|]. split; [exact Hincl|].
  split; [exact Htick|]. exact Hpages.
Qed.

(** ** The page budget of a session *)

Section SeedsLoop.
Context `{UrlLib}.
Variables (cfg : Config) (w : CrawlWorld) (db_commit : nat -> result unit).
Variables (session_id max_pages : Z).
Variables (keyword_filters policy_types : list str) (time_limit : option Z).
Variables (num_seeds pages_per_seed : Z) (row0 : SessionProgress).
Hypothesis pages_per_seed_floor : (3 <= pages_per_seed)%Z.

Lemma log_at_accounts level message st :
  budget_accounts max_pages row0 st ->
  budget_accounts max_pages row0 (log_at w session_id level message st).
Proof. intros Ha. exact Ha. Qed.

Lemma seeds_loop_accounts seed_urls : forall idx st st',
  budget_accounts max_pages row0 st ->
  seeds_loop cfg w db_commit session_id keyword_filters policy_types
             time_limit num_seeds pages_per_seed idx seed_urls st = Ok st' ->
  budget_accounts max_pages row0 st'.
Proof.
  induction seed_urls as [|seed_url rest IH]; intros idx st st' Ha Hrun;
    cbn [seeds_loop] in Hrun.
  - now injection Hrun as <-.
  - set (lt := match time_limit with
               | Some limit => _
               | None => (false, st)
               end) in Hrun.
    assert (Hlt : budget_accounts max_pages row0 (snd lt))
      by (subst lt; destruct time_limit; exact Ha).
    destruct lt as [late st1]. cbn [snd] in Hlt.
    destruct late; [now injection Hrun as <-|].
    destruct (remaining_budget st1 <=? 0)%Z eqn:Erem;
      [now injection Hrun as <-|].
    apply Z.leb_gt in Erem.
    destruct (urlparse seed_url) as [parsed|e] eqn:Hp; [|discriminate].
    cbn [bind] in Hrun.
    set (st2 := log_at w session_id (py "info") _ st1) in Hrun.
    pose proof (crawl_domain_outcome cfg w seed_url
                  (Z.min pages_per_seed (remaining_budget st1))
                  keyword_filters policy_types time_limit
                  (Some (global_visited st2)) (seed_robots st2)
                  (seed_tick st2)) as Hout.
    cbv zeta in Hout. rewrite Hp in Hout.
    destruct Hout as (r & Heq & _ & _ & _ & Hpages).
    rewrite Heq in Hrun. cbn [bind] in Hrun.
    destruct (db_commit (tick_after r)); [|discriminate].
    cbn [bind] in Hrun.
    apply IH in Hrun; [exact Hrun|].
    destruct Hlt as (Htot & Hrem & _).
    subst st2. unfold budget_accounts, log_at.
    cbn [total_pages remaining_budget session_row pages_scanned].
    assert (Hp1 : (0 <= pages r <= remaining_budget st1)%Z).
    { destruct Hpages as [[-> _]|[Hb _]]; lia. }
    split; [lia|]. split; [lia|]. now left.
Qed.

Lemma seeds_loop_returns seed_urls : forall idx st,
  Forall (fun u => exists parsed, urlparse u = Ok parsed) seed_urls ->
  (forall k, db_commit k = Ok tt) ->
  exists st',
    seeds_loop cfg w db_commit session_id keyword_filters policy_types
               time_limit num_seeds pages_per_seed idx seed_urls st = Ok st'.
Proof.
  induction seed_urls as [|seed_url rest IH]; intros idx st Hparse Hcommit;
    cbn [seeds_loop]; [eauto|].
  inversion Hparse as [|? ? [parsed Hp] Hrest]; subst.
  destruct (match time_limit with Some _ => _ | None => _ end) as [late st1].
  destruct late; [eauto|].
  destruct (remaining_budget st1 <=? 0)%Z; [eauto|].
  rewrite Hp. cbn [bind].
  set (st2 := log_at w session_id (py "info") _ st1).
  pose proof (crawl_domain_outcome cfg w seed_url
                (Z.min pages_per_seed (remaining_budget st1))
                keyword_filters policy_types time_limit
                (Some (global_visited st2)) (seed_robots st2)
                (seed_tick st2)) as Hout.
  cbv zeta in Hout. rewrite Hp in Hout.
  destruct Hout as (r & Heq & _).
  rewrite Heq. cbn [bind]. rewrite Hcommit. cbn [bind].
  apply IH; assumption.
Qed.
End SeedsLoop.

(** X20. The page budget of a session.  Whenever the loop over the seeds
    of [run_crawl_session] ends without an exception, the total of the
    pages counted over the seeds is between 0 and [max_pages] (0 when
    [max_pages] is negative), the budget left is [max_pages] minus that
    total, and the [pages_scanned] written to the session row is that
    total (or the row is untouched, when no seed was crawled).  The loop
    ends without an exception when every seed URL parses and every commit
    succeeds, whatever the sites answer. *)
Theorem crawl_seeds_budget `{UrlLib} (cfg : Config) (w : CrawlWorld)
    (db_commit : nat -> result unit) (session_id max_pages : Z)
    (seed_urls keyword_filters policy_types : list str)
    (time_limit : option Z) (row : SessionProgress) (cache : robots_cache)
    (logs : log_store) (tick : nat) :
  (forall st,
     crawl_seeds cfg w db_commit session_id max_pages seed_urls keyword_filters
                 policy_types time_limit row cache logs tick = Ok st ->
     (0 <= total_pages st <= Z.max 0 max_pages)%Z /\
     remaining_budget st = (max_pages - total_pages st)%Z /\
     (pages_scanned (session_row st) = total_pages st \/ session_row st = row)) /\
  (Forall (fun u => exists parsed, urlparse u = Ok parsed) seed_urls ->
   (forall k, db_commit k = Ok tt) ->
   exists st,
     crawl_seeds cfg w db_commit session_id max_pages seed_urls keyword_filters
                 policy_types time_limit row cache logs tick = Ok st).
Proof.
  unfold crawl_seeds. split.
  - intros st Hrun.
    eapply (seeds_loop_accounts cfg w db_commit session_id max_pages
              keyword_filters policy_types time_limit _ _ row);
      [apply Z.le_max_l | | exact Hrun].
    unfold budget_accounts. cbn. split; [lia|]. split; [lia|]. now right.
  - intros Hparse Hcommit. now apply seeds_loop_returns.
Qed.

Lemma crawl_seeds_budget_witness :
  exists st,
    crawl_seeds (H := permissive_lib) example_config example_world
      (fun _ => Ok tt) 7 2 [py "https://a.nz/"; py "https://a.nz/x.pdf"] [] []
      None {| pages_scanned := 0; pdfs_found := 0; progress_pct := 0 |} [] [] 0
    = Ok st.
Proof.
  apply (proj2 (crawl_seeds_budget (H := permissive_lib) example_config
                  example_world (fun _ => Ok tt) 7 2
                  [py "https://a.nz/"; py "https://a.nz/x.pdf"] [] [] None
                  {| pages_scanned := 0; pdfs_found := 0; progress_pct := 0 |}
                  [] [] 0)).
  - repeat constructor; eexists; vm_compute; reflexivity.
  - intros k. reflexivity.
Defined.

(** On the example site two pages are fetched, three PDFs are found and
    the tracking parameter of the second is dropped. *)
Example crawl_domain_example :
  option_map (fun r => (found r, pages r, visited_after r))
    (match crawl_domain (H := permissive_lib) example_config example_world
             (py "https://a.nz/") 10 [] [] None None [] 0 with
     | Ok r => Some r | Raise _ => None end)
  = Some ([py "https://a.nz/docs/car.pdf"; py "https://a.nz/docs/home.pdf";
           py "https://a.nz/e.pdf"], 2%Z,
          [py "https://a.nz/"; py "https://a.nz/about"]).
Proof. vm_compute. reflexivity. Qed.

(** ** Requests per page *)

Ltac tick_done :=
  repeat match goal with x := _ : PageState |- _ => subst x end;
  unfold anchor_cost, page_ret, add_pdf, page_modify; cbn [fst snd ps_tick];
  split; [lia | split; [lia |
    first [ intros ? [= <-]; lia | intros ? Hraise; discriminate Hraise ]]].

Section PageRequests.
Context `{UrlLib}.
Variables (cfg : Config) (w : CrawlWorld) (seed_url : str) (max_pages : Z).
Variables (keyword_filters policy_types visited : list str).

Lemma add_pdf_tick normalized ps :
  ps_tick (fst (add_pdf normalized ps)) = ps_tick ps.
Proof. reflexivity. Qed.

Lemma enqueue_link_tick full_url ps :
  ps_tick (fst (enqueue_link seed_url max_pages visited full_url ps))
  = ps_tick ps.
Proof.
  unfold enqueue_link, page_bind, page_lift, page_get, page_ret, page_modify.
  destruct (same_domain seed_url full_url) as [same|e]; [|reflexivity].
  destruct (same && negb (str_in full_url visited)); [|reflexivity].
  destruct (urlparse full_url) as [parsed|e]; [|reflexivity].
  destruct (_ <? 20)%Z; [|reflexivity].
  destruct (_ <? Z.max _ _)%Z; reflexivity.
Qed.

Lemma handle_anchor_tick url head_checked link ps :
  anchor_cost head_checked ps
    (handle_anchor cfg w seed_url url max_pages keyword_filters
                   policy_types visited head_checked link ps).
Proof.
  unfold handle_anchor.
  destruct (negb (nonempty (strip (fst link))) || _);
    [tick_done|].
  unfold page_bind at 1. unfold page_lift at 1.
  destruct (w_urljoin w url (strip (fst link))) as [full_url|e];
    [|tick_done].
  unfold page_bind at 1. unfold page_lift at 1.
  destruct (is_pdf_url full_url) as [[|]|e];
    [| |tick_done].
  - unfold page_bind at 1. unfold page_lift at 1.
    destruct (normalize_url (TRACKING_PARAMS cfg) full_url) as [normalized|e];
      [|tick_done].
    destruct (is_valid_document normalized keyword_filters policy_types)
      as [is_valid reason].
    unfold page_bind, page_get, page_ret.
    destruct (is_valid && negb (str_in normalized (ps_pdf_urls ps)));
      tick_done.
  - assert (Henq : forall (hc : nat) ps0,
              let r := page_bind
                         (enqueue_link seed_url max_pages visited full_url)
                         (fun _ : unit => page_ret hc) ps0 in
              ps_tick (fst r) = ps_tick ps0 /\
              (forall hc', snd r = Ok hc' -> hc' = hc)).
    { intros hc ps0. cbv zeta. unfold page_bind, page_ret.
      pose proof (enqueue_link_tick full_url ps0) as He.
      destruct (enqueue_link seed_url max_pages visited full_url ps0)
        as [ps' [[]|e]]; cbn [fst snd] in *;
        (split; [exact He|]); [now intros ? [= <-] | discriminate]. }
    unfold page_bind at 1.
    destruct (head_checked <? MAX_HEAD_CHECKS_PER_PAGE) eqn:Ehc.
    + apply Nat.ltb_lt in Ehc.
      unfold page_bind at 1. unfold page_lift at 1.
      destruct (same_domain seed_url full_url) as [same|e];
        [|tick_done].
      unfold page_bind at 1. unfold page_get at 1. unfold page_ret at 1.
      destruct (same && _ && _ && _).
      * unfold page_bind at 1. unfold page_tick at 1.
        set (ps1 := {| ps_queue := ps_queue ps;
                       ps_pdf_urls := ps_pdf_urls ps;
                       ps_path_diversity := ps_path_diversity ps;
                       ps_tick := S (ps_tick ps) |}).
        destruct (check_url_is_pdf_via_head w (ps_tick ps) full_url).
        -- unfold page_bind at 1. unfold page_lift at 1.
           destruct (normalize_url (TRACKING_PARAMS cfg) full_url)
             as [normalized|e];
             [|tick_done].
           unfold page_bind, page_get, page_ret.
           destruct (negb (str_in normalized (ps_pdf_urls ps1)));
             tick_done.
        -- destruct (Henq (S head_checked) ps1) as [Ht Hr].
           unfold anchor_cost. rewrite Ht. cbn [ps_tick ps1].
           split; [lia|]. split; [lia|].
           intros hc' Hhc'. apply Hr in Hhc'. lia.
      * destruct (Henq head_checked ps) as [Ht Hr].
        unfold anchor_cost. rewrite Ht. split; [lia|]. split; [lia|].
        intros hc' Hhc'. apply Hr in Hhc'. lia.
    + unfold page_ret at 1.
      destruct (Henq head_checked ps) as [Ht Hr].
      unfold anchor_cost. rewrite Ht. split; [lia|]. split; [lia|].
      intros hc' Hhc'. apply Hr in Hhc'. lia.
Qed.

Lemma anchors_loop_tick url links : forall head_checked ps,
  exists n,
    ps_tick (fst (anchors_loop cfg w seed_url url max_pages keyword_filters
                               policy_types visited head_checked links ps))
    = ps_tick ps + n /\
    n + head_checked <= Nat.max head_checked MAX_HEAD_CHECKS_PER_PAGE.
Proof.
  induction links as [|link rest IH]; intros head_checked ps.
  - exists 0. cbn [anchors_loop page_ret fst]. lia.
  - cbn [anchors_loop]. unfold page_bind at 1.
    pose proof (handle_anchor_tick url head_checked link ps) as Ha.
    unfold anchor_cost in Ha.
    destruct (handle_anchor cfg w seed_url url max_pages keyword_filters
                policy_types visited head_checked link ps) as [ps1 [hc|e]];
      cbn [fst snd] in Ha; destruct Ha as (H1 & H2 & H3).
    + specialize (H3 hc eq_refl). destruct (IH hc ps1) as (n & -> & Hn).
      exists (ps_tick ps1 - ps_tick ps + n). lia.
    + cbn [fst]. exists (ps_tick ps1 - ps_tick ps). lia.
Qed.

Lemma page_iter_tick {A} (f : A -> Page unit) (l : list A) :
  (forall a ps, ps_tick (fst (f a ps)) = ps_tick ps) ->
  forall ps, ps_tick (fst (page_iter f l ps)) = ps_tick ps.
Proof.
  intros Hf. induction l as [|a rest IH]; intros ps; [reflexivity|].
  cbn [page_iter]. unfold page_bind at 1. specialize (Hf a ps).
  destruct (f a ps) as [ps' [[]|e]]; cbn [fst] in *; [|exact Hf].
  now rewrite IH.
Qed.

Lemma handle_embed_tick url value ps :
  ps_tick (fst (handle_embed cfg w url value ps)) = ps_tick ps.
Proof.
  unfold handle_embed, page_bind, page_lift, page_get, page_ret.
  destruct (w_urljoin w url (strip value)) as [embed_url|e]; [|reflexivity].
  destruct (is_pdf_url embed_url) as [[|]|e]; [|reflexivity|reflexivity].
  destruct (normalize_url (TRACKING_PARAMS cfg) embed_url) as [normalized|e];
    [|reflexivity].
  now destruct (negb (str_in normalized (ps_pdf_urls ps))).
Qed.

Lemma handle_onclick_tick url found ps :
  ps_tick (fst (handle_onclick cfg w seed_url url found ps)) = ps_tick ps.
Proof.
  unfold handle_onclick, page_bind, page_lift, page_get, page_ret.
  destruct (w_urljoin w url found) as [match_url|e]; [|reflexivity].
  destruct (normalize_url (TRACKING_PARAMS cfg) match_url) as [normalized|e];
    [|reflexivity].
  destruct (negb (str_in normalized (ps_pdf_urls ps))); [|reflexivity].
  now destruct (same_domain seed_url match_url) as [[|]|e].
Qed.

Lemma process_page_tick url page ps :
  exists n,
    ps_tick (fst (process_page cfg w seed_url url max_pages keyword_filters
                               policy_types visited page ps))
    = ps_tick ps + n /\
    n <= MAX_HEAD_CHECKS_PER_PAGE.
Proof.
  unfold process_page. unfold page_bind at 1.
  destruct (anchors_loop_tick url (anchors page) 0 ps) as (n & H1 & Hn).
  exists n. split; [|lia].
  destruct (anchors_loop cfg w seed_url url max_pages keyword_filters
              policy_types visited 0 (anchors page) ps) as [ps1 [[]|e]];
    cbn [fst] in *; [|exact H1].
  unfold page_bind at 1.
  pose proof (page_iter_tick (handle_embed cfg w url) (embeds page)
                (handle_embed_tick url) ps1) as H2.
  destruct (page_iter (handle_embed cfg w url) (embeds page) ps1)
    as [ps2 [[]|e]]; cbn [fst] in *; [|congruence].
  unfold page_bind at 1.
  pose proof (page_iter_tick (handle_embed cfg w url) (data_attrs page)
                (handle_embed_tick url) ps2) as H3.
  destruct (page_iter (handle_embed cfg w url) (data_attrs page) ps2)
    as [ps3 [[]|e]]; cbn [fst] in *; [|congruence].
  rewrite (page_iter_tick (handle_onclick cfg w seed_url url)
             (onclick_matches page) (handle_onclick_tick url) ps3).
  congruence.
Qed.
End PageRequests.

(** X21. Handling one page costs one GET request and at most
    [MAX_HEAD_CHECKS_PER_PAGE] (25) HEAD requests, however many links the
    page holds and whatever goes wrong while it is handled. *)
Theorem fetch_and_process_requests `{UrlLib} (cfg : Config) (w : CrawlWorld)
    (seed_url url : str) (max_pages : Z)
    (keyword_filters policy_types visited : list str) (ps : PageState) :
  let ps' := fetch_and_process cfg w seed_url url max_pages keyword_filters
               policy_types visited ps in
  ps_tick ps + 1 <= ps_tick ps' <= ps_tick ps + 1 + 25.
Proof.
  cbv zeta. unfold fetch_and_process.
  destruct (w_get w (ps_tick ps) url) as [resp|e]; [|cbn [fst snd ps_tick]; lia].
  destruct (negb (page_status resp =? 200)%Z); [cbn [fst snd ps_tick]; lia|].
  destruct (negb (contains _ _)); [cbn [fst snd ps_tick]; lia|].
  destruct (page_html resp) as [page|e]; [|cbn [fst snd ps_tick]; lia].
  pose proof (process_page_tick cfg w seed_url max_pages keyword_filters
                policy_types visited url page
                {| ps_queue := ps_queue ps; ps_pdf_urls := ps_pdf_urls ps;
                   ps_path_diversity := ps_path_diversity ps;
                   ps_tick := S (ps_tick ps) |}) as Hp.
  destruct Hp as (n & -> & Hn). cbn [ps_tick].
  change MAX_HEAD_CHECKS_PER_PAGE with 25 in Hn. lia.
Qed.

(** ** [verify_path_safety] *)

(** X22. [verify_path_safety] is a test on the text of the resolved
    paths: it accepts exactly when both paths resolve and the resolved
    parent is a prefix of the resolved path as a string.  So every path
    inside the parent is accepted, and so is a path in a sibling directory
    whose name begins with the name of the parent. *)
Theorem verify_path_safety_prefix (env : DownloadEnv)
    (file_path allowed_parent : str) :
  (verify_path_safety env file_path allowed_parent = true <->
   exists resolved_parent rest,
     env_resolve env allowed_parent = Ok resolved_parent /\
     env_resolve env file_path = Ok (resolved_parent ++ rest)) /\
  (forall resolved_parent sibling,
     env_resolve env allowed_parent = Ok resolved_parent ->
     env_resolve env file_path
       = Ok (resolved_parent ++ py "_other/" ++ sibling) ->
     verify_path_safety env file_path allowed_parent = true).
Proof.
  assert (Hiff : verify_path_safety env file_path allowed_parent = true <->
                 exists resolved_parent rest,
                   env_resolve env allowed_parent = Ok resolved_parent /\
                   env_resolve env file_path = Ok (resolved_parent ++ rest)).
  { unfold verify_path_safety. split.
    - destruct (env_resolve env file_path) as [rp|e]; [|discriminate].
      destruct (env_resolve env allowed_parent) as [rparent|e]; [|discriminate].
      intros Hs. apply startswith_prefix in Hs. destruct Hs as [t ->].
      now exists rparent, t.
    - intros (rparent & rest & -> & ->). apply startswith_app. }
  split; [exact Hiff|].
  intros resolved_parent sibling Hp Hf. apply Hiff.
  now exists resolved_parent, (py "_other/" ++ sibling).
Qed.

Lemma verify_path_safety_prefix_witness :
  verify_path_safety
    {| env_resolve := fun p => Ok p; env_get := fun _ => Raise RequestException;
       env_mkdir := fun _ => Ok tt; env_mktemp := fun d => Ok d;
       env_mkdir_made := fun _ => 0;
       env_write := fun _ => Ok tt; env_close := Ok tt; env_rename := Ok tt;
       env_unlink_stream := Ok tt; env_unlink_cleanup := Ok tt;
       env_sha256 := fun c => c |}
    (py "/data/raw_other/x.pdf") (py "/data/raw") = true.
Proof.
  apply (proj2 (verify_path_safety_prefix
           {| env_resolve := fun p => Ok p;
              env_get := fun _ => Raise RequestException;
              env_mkdir := fun _ => Ok tt; env_mktemp := fun d => Ok d;
              env_mkdir_made := fun _ => 0;
              env_write := fun _ => Ok tt; env_close := Ok tt;
              env_rename := Ok tt; env_unlink_stream := Ok tt;
              env_unlink_cleanup := Ok tt; env_sha256 := fun c => c |}
           (py "/data/raw_other/x.pdf") (py "/data/raw"))
         (py "/data/raw") (py "x.pdf")); reflexivity.
Defined.

(** ** Names that [sanitize_filename] keeps *)

Lemma not_in_contains c (s : str) : ~ In c s -> contains [c] s = false.
Proof.
  induction s as [|x s IH]; intros Hc; [reflexivity|].
  rewrite contains_unfold. cbn [startswith].
  destruct (Ascii.eqb c x) eqn:E.
  - apply Ascii.eqb_eq in E. subst. exfalso. apply Hc. now left.
  - cbn [andb orb]. apply IH. intros Hin. apply Hc. now right.
Qed.

Lemma replace_absent old new (s : str) :
  old <> [] -> contains old s = false -> replace old new s = s.
Proof.
  intros Hne Hc. unfold replace. destruct old as [|o old']; [contradiction|].
  set (old := o :: old') in *. clearbody old.
  induction s as [|c t IH]; [now destruct old|].
  rewrite contains_unfold in Hc. apply orb_false_iff in Hc.
  destruct Hc as [Hs Ht].
  destruct old as [|o' old'']; [contradiction|].
  cbn [replace_from]. rewrite Hs. f_equal.
  specialize (IH Ht). exact IH.
Qed.

Lemma lstrip_id chars (s : str) :
  match s with [] => True | c :: _ => char_in c chars = false end ->
  lstrip chars s = s.
Proof. destruct s as [|c t]; [reflexivity|]. cbn [lstrip]. now intros ->. Qed.

(** X23. [sanitize_filename] returns a name unchanged when it is already
    safe: not empty, at most 200 characters, made of alphanumeric
    characters, ['_'], ['-'] and ['.'] only, not starting with ['.'] and
    without two periods in a row. *)
Theorem sanitize_filename_keeps_safe_names (name : str) :
  name <> [] ->
  length name <= 200 ->
  forallb filename_char_ok name = true ->
  hd_error name <> Some "."%char ->
  contains (py "..") name = false ->
  sanitize_filename name = name.
Proof.
  intros Hne Hlen Hok Hhd Hdots. unfold sanitize_filename.
  assert (Hno : forall c, filename_char_ok c = false -> ~ In c name).
  { intros c Hc Hin. rewrite forallb_forall in Hok. apply Hok in Hin.
    congruence. }
  rewrite (replace_absent (py "/") (py "_") name);
    [|discriminate|apply not_in_contains; now apply Hno].
  rewrite (replace_absent (py "\") (py "_") name);
    [|discriminate|apply not_in_contains; now apply Hno].
  rewrite (replace_absent (py "..") (py "_") name); [|discriminate|exact Hdots].
  rewrite (forallb_filter_id _ _ Hok).
  rewrite lstrip_id.
  - destruct name as [|c t]; [contradiction|].
    apply Nat.ltb_ge in Hlen. now rewrite Hlen.
  - destruct name as [|c t]; [exact I|].
    destruct (char_in c (py ".")) eqn:E; [|reflexivity].
    apply char_in_In in E. destruct E as [<-|[]]. now contradiction Hhd.
Qed.

Lemma sanitize_filename_keeps_safe_names_witness :
  sanitize_filename (py "Car-Policy_2024.v2.pdf") = py "Car-Policy_2024.v2.pdf".
Proof.
  apply (sanitize_filename_keeps_safe_names (py "Car-Policy_2024.v2.pdf")).
  - discriminate.
  - vm_compute. repeat constructor.
  - vm_compute. reflexivity.
  - discriminate.
  - vm_compute. reflexivity.
Defined.

(** ** The download step *)

Lemma refresh_first_ids h lp url size sid docs :
  map doc_id (refresh_first h lp url size sid docs) = map doc_id docs /\
  map doc_file_hash (refresh_first h lp url size sid docs)
    = map doc_file_hash docs.
Proof.
  induction docs as [|d rest [IH1 IH2]]; [split; reflexivity|].
  cbn [refresh_first]. destruct (str_eqb (doc_file_hash d) h).
  - split; reflexivity.
  - cbn [map]. now rewrite IH1, IH2.
Qed.

Lemma refresh_first_found h lp url size sid docs d :
  find_by_hash h docs = Some d ->
  find_by_hash h (refresh_first h lp url size sid docs)
  = Some {| doc_id := doc_id d; doc_file_hash := doc_file_hash d;
            doc_local_file_path := Some lp; doc_source_url := url;
            doc_file_size := size; doc_crawl_session_id := sid |}.
Proof.
  unfold find_by_hash. induction docs as [|x rest IH]; [discriminate|].
  cbn [find refresh_first].
  destruct (str_eqb (doc_file_hash x) h) eqn:E.
  - intros [= <-]. cbn [find doc_file_hash]. now rewrite E.
  - intros Hf. cbn [find]. rewrite E. now apply IH.
Qed.

(** X24. The download step when the digest matches an existing record
    whose file is missing (no path recorded, or no file at the recorded
    path): the record is refreshed in place, with the new path, URL, size
    and session id, and no record is added; when the commit succeeds, the
    step then raises [UnboundLocalError], which the handler for database
    errors does not catch, so the exception leaves the loop over the
    candidates; the counters are as before. *)
Theorem handle_download_refresh (env : StoreEnv) (session_id : Z)
    (pdf_url local_path : str) (downloaded : DownloadResult)
    (classify_and_store : Store -> result unit * Store) (st : Store)
    (existing_doc : Document) :
  db_query env = Ok tt ->
  find_by_hash (file_hash downloaded) (documents st) = Some existing_doc ->
  match doc_local_file_path existing_doc with
  | Some p => nonempty p && fs_exists p (files st)
  | None => false
  end = false ->
  db_commit_refresh env = Ok tt ->
  exists st',
    handle_download env session_id pdf_url local_path (Some downloaded)
                    classify_and_store st
      = (Raise UnboundLocalError, st') /\
    map doc_id (documents st') = map doc_id (documents st) /\
    find_by_hash (file_hash downloaded) (documents st')
      = Some {| doc_id := doc_id existing_doc;
                doc_file_hash := doc_file_hash existing_doc;
                doc_local_file_path := Some local_path;
                doc_source_url := pdf_url;
                doc_file_size := file_size downloaded;
                doc_crawl_session_id := session_id |} /\
    files st' = files st /\
    tally st' = tally st.
Proof.
  intros Hq Hfind Hmissing Hcommit.
  unfold handle_download, check_existing. rewrite Hq, Hfind.
  assert (Hex : match
                  match doc_local_file_path existing_doc with
                  | Some p => if nonempty p then Some p else None
                  | None => None
                  end
                with
                | Some p => fs_exists p (files st)
                | None => false
                end = false).
  { destruct (doc_local_file_path existing_doc) as [p|]; [|reflexivity].
    destruct (nonempty p); [exact Hmissing | reflexivity]. }
  rewrite Hex, Hcommit.
  eexists. split; [reflexivity|]. cbn [documents files tally].
  split; [apply refresh_first_ids|].
  split; [now apply refresh_first_found|]. split; reflexivity.
Qed.

Lemma handle_download_refresh_witness :
  exists st',
    handle_download
      {| db_query := Ok tt; db_commit_refresh := Ok tt;
         db_commit_error := Ok tt; os_unlink := Ok tt |}
      7 (py "https://a.nz/car.pdf") (py "/data/raw/A/car.pdf")
      (Some {| file_size := 8; file_hash := py "abc" |})
      (fun st => (Ok tt, st))
      {| documents := [{| doc_id := 1; doc_file_hash := py "abc";
                          doc_local_file_path := Some (py "/data/raw/A/old.pdf");
                          doc_source_url := py "https://a.nz/old.pdf";
                          doc_file_size := 8; doc_crawl_session_id := 3 |}];
         files := [py "/data/raw/A/car.pdf"];
         tally := {| downloaded_count := 0; filtered_count := 0;
                     duplicate_count := 0; error_count := 0;
                     errors_count := None |} |}
    = (Raise UnboundLocalError, st').
Proof.
  destruct (handle_download_refresh
              {| db_query := Ok tt; db_commit_refresh := Ok tt;
                 db_commit_error := Ok tt; os_unlink := Ok tt |}
              7 (py "https://a.nz/car.pdf") (py "/data/raw/A/car.pdf")
              {| file_size := 8; file_hash := py "abc" |}
              (fun st => (Ok tt, st))
              {| documents := [{| doc_id := 1; doc_file_hash := py "abc";
                                  doc_local_file_path :=
                                    Some (py "/data/raw/A/old.pdf");
                                  doc_source_url := py "https://a.nz/old.pdf";
                                  doc_file_size := 8;
                                  doc_crawl_session_id := 3 |}];
                 files := [py "/data/raw/A/car.pdf"];
                 tally := {| downloaded_count := 0; filtered_count := 0;
                             duplicate_count := 0; error_count := 0;
                             errors_count := None |} |}
              {| doc_id := 1; doc_file_hash := py "abc";
                 doc_local_file_path := Some (py "/data/raw/A/old.pdf");
                 doc_source_url := py "https://a.nz/old.pdf";
                 doc_file_size := 8; doc_crawl_session_id := 3 |})
    as (st' & Heq & _).
  - reflexivity.
  - vm_compute. reflexivity.
  - vm_compute. reflexivity.
  - reflexivity.
  - exists st'. exact Heq.
Defined.

(** X25. The download step on a true duplicate (the digest matches a
    record whose file exists) and on a failed download: in both cases the
    records are left as they are.  A duplicate is counted as duplicate and
    as filtered, and the file just downloaded is removed unless the
    removal fails; a failed download, like a database error in the body
    of the [try], is counted in [error_count] and in the session's
    [errors_count], and the step raises only if the commit of that count
    does. *)
Theorem handle_download_duplicate_or_error (env : StoreEnv) (session_id : Z)
    (pdf_url local_path : str) (downloaded : DownloadResult)
    (classify_and_store : Store -> result unit * Store) (st : Store) :
  (forall existing_doc p,
     db_query env = Ok tt ->
     find_by_hash (file_hash downloaded) (documents st) = Some existing_doc ->
     doc_local_file_path existing_doc = Some p -> p <> [] ->
     fs_exists p (files st) = true ->
     exists st',
       handle_download env session_id pdf_url local_path (Some downloaded)
                       classify_and_store st = (Ok tt, st') /\
       documents st' = documents st /\
       duplicate_count (tally st') = (duplicate_count (tally st) + 1)%Z /\
       filtered_count (tally st') = (filtered_count (tally st) + 1)%Z /\
       downloaded_count (tally st') = downloaded_count (tally st) /\
       (os_unlink env = Ok tt -> fs_exists local_path (files st') = false) /\
       (forall q, q <> local_path ->
                  fs_exists q (files st') = fs_exists q (files st))) /\
  (let r := handle_download env session_id pdf_url local_path None
              classify_and_store st in
   documents (snd r) = documents st /\ files (snd r) = files st /\
   error_count (tally (snd r)) = (error_count (tally st) + 1)%Z /\
   errors_count (tally (snd r))
     = Some (match errors_count (tally st) with
             | Some n => n
             | None => 0
             end + 1)%Z /\
   fst r = db_commit_error env) /\
  (db_query env = Raise SQLAlchemyError ->
   let r := handle_download env session_id pdf_url local_path (Some downloaded)
              classify_and_store st in
   documents (snd r) = documents st /\ files (snd r) = files st /\
   error_count (tally (snd r)) = (error_count (tally st) + 1)%Z /\
   errors_count (tally (snd r))
     = Some (match errors_count (tally st) with
             | Some n => n
             | None => 0
             end + 1)%Z /\
   fst r = db_commit_error env).
Proof.
  split; [|split].
  - intros existing_doc p Hq Hfind Hpath Hp Hex.
    unfold handle_download, check_existing. rewrite Hq, Hfind, Hpath.
    destruct p as [|c p']; [contradiction|]. cbn [nonempty]. rewrite Hex.
    eexists. split; [reflexivity|]. cbn [documents files tally
      duplicate_count filtered_count downloaded_count].
    repeat split.
    + intros Hu. rewrite Hu.
      destruct (fs_exists local_path (files st)) eqn:E; [|exact E].
      apply fs_exists_remove_same.
    + intros q Hq'. destruct (fs_exists local_path (files st)); [|reflexivity].
      destruct (os_unlink env); [|reflexivity].
      apply fs_exists_remove_other. congruence.
  - cbv zeta. unfold handle_download.
    destruct (db_commit_error env) as [[]|e];
      cbn [fst snd documents files tally count_error error_count errors_count];
      destruct (errors_count (tally st)); repeat split.
  - intros Hq. cbv zeta. unfold handle_download, check_existing. rewrite Hq.
    destruct (db_commit_error env) as [[]|e];
      cbn [fst snd documents files tally count_error error_count errors_count];
      destruct (errors_count (tally st)); repeat split.
Qed.

Lemma handle_download_duplicate_or_error_witness :
  let env := {| db_query := Raise SQLAlchemyError; db_commit_refresh := Ok tt;
                db_commit_error := Ok tt; os_unlink := Ok tt |} in
  let st := {| documents := []; files := [];
               tally := {| downloaded_count := 0; filtered_count := 0;
                           duplicate_count := 0; error_count := 0;
                           errors_count := None |} |} in
  let r := handle_download env 7 (py "https://a.nz/car.pdf")
             (py "/data/raw/A/car.pdf")
             (Some {| file_size := 8; file_hash := py "abc" |})
             (fun st => (Ok tt, st)) st in
  documents (snd r) = documents st /\ files (snd r) = files st /\
  error_count (tally (snd r)) = (error_count (tally st) + 1)%Z /\
  errors_count (tally (snd r))
    = Some (match errors_count (tally st) with
            | Some n => n
            | None => 0
            end + 1)%Z /\
  fst r = db_commit_error env.
Proof.
  apply (proj2 (proj2 (handle_download_duplicate_or_error
           {| db_query := Raise SQLAlchemyError; db_commit_refresh := Ok tt;
              db_commit_error := Ok tt; os_unlink := Ok tt |}
           7 (py "https://a.nz/car.pdf") (py "/data/raw/A/car.pdf")
           {| file_size := 8; file_hash := py "abc" |}
           (fun st => (Ok tt, st))
           {| documents := []; files := [];
              tally := {| downloaded_count := 0; filtered_count := 0;
                          duplicate_count := 0; error_count := 0;
                          errors_count := None |} |}))).
  reflexivity.
Defined.

(** ** Parsing a normalized URL *)

Lemma lower_char_facts c :
  lower_char (lower_char c) = lower_char c /\
  is_netloc_delim (lower_char c) = is_netloc_delim c /\
  is_unsafe_byte (lower_char c) = is_unsafe_byte c /\
  Ascii.eqb "[" (lower_char c) = Ascii.eqb "[" c /\
  Ascii.eqb "]" (lower_char c) = Ascii.eqb "]" c /\
  (is_scheme_char c = true -> is_scheme_char (lower_char c) = true) /\
  (is_ascii_alpha c = true -> is_ascii_alpha (lower_char c) = true).
Proof.
  destruct c as [[] [] [] [] [] [] [] []]; vm_compute; repeat split; congruence.
Qed.

Lemma scheme_char_facts c :
  is_scheme_char c = true ->
  Ascii.eqb c ":" = false /\ is_unsafe_byte c = false /\
  is_c0_or_space c = false.
Proof.
  destruct c as [[] [] [] [] [] [] [] []]; vm_compute; repeat split; congruence.
Qed.

Lemma quoted_char_facts c :
  is_quoted_char c || Ascii.eqb c "=" || Ascii.eqb c "&" = true ->
  Ascii.eqb c "#" = false /\ is_unsafe_byte c = false.
Proof.
  destruct c as [[] [] [] [] [] [] [] []]; vm_compute; repeat split; congruence.
Qed.

Lemma lower_idem s : lower (lower s) = lower s.
Proof.
  unfold lower. rewrite map_map. apply map_ext. intros c.
  apply lower_char_facts.
Qed.

Lemma forallb_lower (p : ascii -> bool) s :
  (forall c, p (lower_char c) = p c) -> forallb p (lower s) = forallb p s.
Proof.
  intros Hp. induction s as [|c s IH]; [reflexivity|].
  cbn [lower map forallb]. fold (lower s). now rewrite Hp, IH.
Qed.

Lemma char_in_lower x s :
  (forall c, Ascii.eqb x (lower_char c) = Ascii.eqb x c) ->
  char_in x (lower s) = char_in x s.
Proof.
  intros Hx. unfold char_in. induction s as [|c s IH]; [reflexivity|].
  cbn [lower map existsb]. fold (lower s). now rewrite Hx, IH.
Qed.

Lemma check_brackets_lower `{UrlLib} n :
  check_brackets n = Ok tt -> check_brackets (lower n) = Ok tt.
Proof.
  unfold check_brackets.
  rewrite (char_in_lower "[" n) by (intros c; apply lower_char_facts).
  rewrite (char_in_lower "]" n) by (intros c; apply lower_char_facts).
  destruct (_ || _); [discriminate|].
  destruct (_ && _); [|reflexivity].
  destruct (bracketed_netloc_ok n) eqn:E; [|discriminate].
  intros _. now rewrite (bracketed_netloc_ok_lower n E).
Qed.

Lemma forallb_In_false (p : ascii -> bool) (s : str) c :
  forallb p s = true -> p c = false -> ~ In c s.
Proof.
  intros Hs Hc Hin. rewrite forallb_forall in Hs. apply Hs in Hin. congruence.
Qed.

Lemma dropwhile_id p (s : str) :
  match s with [] => True | c :: _ => p c = false end -> dropwhile p s = s.
Proof. destruct s as [|c t]; [reflexivity|]. cbn. now intros ->. Qed.



Lemma urlunsplit_netloc s n p q :
  n <> [] -> startswith p (py "/") = true ->
  urlunsplit s n p q [] =
    (if nonempty s then s ++ py ":" else [])
    ++ py "//" ++ n ++ p ++ (if nonempty q then py "?" ++ q else []).
Proof.
  intros Hn Hp. unfold urlunsplit.
  destruct n as [|x n']; [contradiction|]. cbn [nonempty orb].
  destruct p as [|c p']; [discriminate|].
  cbn [startswith] in Hp. apply andb_true_iff in Hp. destruct Hp as [Hc _].
  apply Ascii.eqb_eq in Hc. subst c.
  change (str_eqb (firstn 1 ("/"%char :: p')) (py "/")) with true.
  cbn [nonempty negb andb].
  destruct s as [|c s']; destruct q as [|d q']; cbn [nonempty app];
    repeat (rewrite <- app_assoc || rewrite <- app_comm_cons
            || rewrite app_nil_r); reflexivity.
Qed.

Lemma safe_text_app a b : safe_text (a ++ b) <-> safe_text a /\ safe_text b.
Proof. unfold safe_text. rewrite forallb_app. apply andb_true_iff. Qed.

Lemma scheme_safe s : forallb is_scheme_char s = true -> safe_text s.
Proof.
  unfold safe_text. apply forallb_impl. intros c Hc.
  apply scheme_char_facts in Hc. destruct Hc as (_ & -> & _). reflexivity.
Qed.

Lemma urlsplit_rebuilt `{UrlLib} (s n p q : str) :
  scheme_ok s -> n <> [] ->
  forallb (fun c => negb (is_netloc_delim c)) n = true ->
  check_brackets n = Ok tt ->
  startswith p (py "/") = true ->
  ~ In "?"%char p -> ~ In "#"%char p -> ~ In "#"%char q ->
  safe_text n -> safe_text p -> safe_text q ->
  urlsplit ((if nonempty s then s ++ py ":" else [])
            ++ py "//" ++ n ++ p ++ (if nonempty q then py "?" ++ q else []))
  = Ok (s, n, p, q, []).
Proof.
  intros Hs Hn Hnd Hbr Hp Hpq Hph Hqh Hsn Hsp Hsq.
  set (Q := if nonempty q then py "?" ++ q else []).
  set (R := py "//" ++ n ++ p ++ Q).
  set (U := (if nonempty s then s ++ py ":" else []) ++ R).
  assert (HQ : safe_text Q /\ ~ In "#"%char Q).
  { subst Q. destruct (nonempty q); [|split; [reflexivity | easy]].
    split; [apply safe_text_app; split; [reflexivity | exact Hsq]|].
    intros [E|Hin]; [discriminate | contradiction]. }
  destruct HQ as [HsQ HhQ].
  assert (HsR : safe_text R).
  { subst R. apply safe_text_app. split; [reflexivity|].
    apply safe_text_app. split; [exact Hsn|].
    apply safe_text_app. now split. }
  destruct p as [|c0 p']; [discriminate|].
  cbn [startswith] in Hp. apply andb_true_iff in Hp. destruct Hp as [Hc0 _].
  apply Ascii.eqb_eq in Hc0. subst c0.
  set (p := "/"%char :: p') in *.
  assert (Hsplit : split_scheme U = (s, R) /\ dropwhile is_c0_or_space U = U
                   /\ safe_text U).
  { destruct Hs as [->|((c & pre & -> & Halpha) & Hsch & Hlow)].
    - subst U. cbn [nonempty app]. split; [|split; [reflexivity | exact HsR]].
      unfold split_scheme. pose proof (split_once_spec ":" R) as Hspec.
      destruct (split_once ":" R) as [a [b|]]; [|now destruct a].
      destruct a as [|c pre]; [reflexivity|].
      destruct Hspec as [HR _]. subst R. cbn [app] in HR.
      injection HR as <- _. reflexivity.
    - subst U. cbn [nonempty].
      assert (Hcolon : ~ In ":"%char (c :: pre)).
      { apply (forallb_In_false is_scheme_char); [exact Hsch | reflexivity]. }
      split; [|split].
      + unfold split_scheme. rewrite <- app_assoc.
        change (py ":" ++ R) with (":"%char :: R).
        rewrite split_once_sep by exact Hcolon.
        rewrite Halpha, Hsch. cbn [andb]. now rewrite Hlow.
      + cbn [app dropwhile].
        assert (Hc : is_c0_or_space c = false).
        { cbn [forallb] in Hsch. apply andb_true_iff in Hsch.
          destruct Hsch as [Hc _]. now apply scheme_char_facts in Hc. }
        now rewrite Hc.
      + apply safe_text_app. split; [|exact HsR].
        apply safe_text_app. split; [now apply scheme_safe | reflexivity]. }
  destruct Hsplit as (Hsch & Hdrop & HsU).
  unfold urlsplit. fold U. rewrite Hdrop.
  rewrite (forallb_filter_id _ _ HsU). rewrite Hsch.
  subst R. rewrite startswith_app.
  unfold splitnetloc. change (skipn 2 (py "//" ++ n ++ p ++ Q)) with (n ++ p ++ Q).
  destruct (takewhile_app (fun c => negb (is_netloc_delim c)) n (p ++ Q) Hnd)
    as [-> ->]; [reflexivity|].
  rewrite Hbr. cbn [bind].
  assert (Hh : ~ In "#"%char (p ++ Q)).
  { intros Hin. apply in_app_or in Hin. tauto. }
  rewrite (cut_none "#" _ Hh).
  subst Q. destruct q as [|d q'].
  - cbn [nonempty]. rewrite app_nil_r. now rewrite (cut_none "?" _ Hpq).
  - cbn [nonempty]. change (p ++ py "?" ++ d :: q') with (p ++ "?"%char :: d :: q').
    now rewrite (cut_sep "?" _ _ Hpq).
Qed.

Lemma takewhile_forallb p (s : str) : forallb p (takewhile p s) = true.
Proof.
  induction s as [|c s IH]; [reflexivity|]. cbn [takewhile].
  destruct (p c) eqn:E; [|reflexivity]. cbn [forallb]. now rewrite E.
Qed.

Lemma dropwhile_head p (s : str) :
  match dropwhile p s with [] => True | c :: _ => p c = false end.
Proof.
  induction s as [|c s IH]; [exact I|]. cbn [dropwhile].
  destruct (p c) eqn:E; [exact IH | exact E].
Qed.

Lemma takewhile_dropwhile p (s : str) : takewhile p s ++ dropwhile p s = s.
Proof.
  induction s as [|c s IH]; [reflexivity|]. cbn [takewhile dropwhile].
  destruct (p c); [cbn [app]; now rewrite IH | reflexivity].
Qed.

Lemma cut_spec c (s : str) :
  ~ In c (fst (cut c s)) /\
  (s = fst (cut c s) ++ c :: snd (cut c s) \/
   s = fst (cut c s) /\ snd (cut c s) = []).
Proof.
  unfold cut. pose proof (split_once_spec c s) as Hs.
  destruct (split_once c s) as [a [b|]]; destruct Hs as [H1 H2]; cbn [fst snd].
  - split; [exact H2 | now left].
  - split; [now subst | right; now split].
Qed.

Lemma split_scheme_spec (v : str) :
  scheme_ok (fst (split_scheme v)) /\
  exists pre, v = pre ++ snd (split_scheme v).
Proof.
  unfold split_scheme. pose proof (split_once_spec ":" v) as Hs.
  destruct (split_once ":" v) as [a [b|]].
  - destruct Hs as [Hv _].
    destruct a as [|c pre]; [split; [now left | now exists []]|].
    destruct (is_ascii_alpha c && forallb is_scheme_char (c :: pre)) eqn:E;
      [|split; [now left | now exists []]].
    apply andb_true_iff in E. destruct E as [Ha Hsch]. cbn [fst snd]. split.
    + right. split; [|split].
      * exists (lower_char c), (lower pre). split; [reflexivity|].
        now apply lower_char_facts.
      * rewrite forallb_forall in *. intros x Hx.
        apply in_map_iff in Hx. destruct Hx as [y [<- Hy]].
        apply lower_char_facts. now apply Hsch.
      * apply lower_idem.
    + exists ((c :: pre) ++ [":"%char]). rewrite <- app_assoc. exact Hv.
  - destruct a; (split; [now left | now exists []]).
Qed.

Lemma safe_text_incl a b : incl a b -> safe_text b -> safe_text a.
Proof.
  unfold safe_text. intros Hi Hb. rewrite forallb_forall in *. auto.
Qed.

Lemma urlsplit_components `{UrlLib} (url s n p q f : str) :
  urlsplit url = Ok (s, n, p, q, f) ->
  scheme_ok s /\
  forallb (fun c => negb (is_netloc_delim c)) n = true /\
  (n <> [] -> check_brackets n = Ok tt) /\
  (n <> [] -> p = [] \/ startswith p (py "/") = true) /\
  ~ In "?"%char p /\ ~ In "#"%char p /\ ~ In "#"%char q /\
  safe_text n /\ safe_text p /\ safe_text q /\
  incl p url.
Proof.
  unfold urlsplit.
  set (v := filter (fun c => negb (is_unsafe_byte c))
                   (dropwhile is_c0_or_space url)).
  assert (Hv : safe_text v) by apply forallb_filter.
  assert (Hvu : incl v url).
  { intros c Hc. subst v. apply filter_In in Hc. destruct Hc as [Hc _].
    now apply In_dropwhile in Hc. }
  destruct (split_scheme_spec v) as [Hs [pre Hpre]].
  destruct (split_scheme v) as [s0 r]. cbn [fst snd] in Hs, Hpre.
  assert (Hrv : incl r v).
  { intros c Hc. rewrite Hpre. apply in_or_app. now right. }
  set (nl := if startswith r (py "//")
             then let '(netloc, rest) := splitnetloc r in
                  _ <- check_brackets netloc ;; Ok (netloc, rest)
             else Ok ([], r)).
  assert (Hnl : forall n0 rest, nl = Ok (n0, rest) ->
            forallb (fun c => negb (is_netloc_delim c)) n0 = true /\
            (n0 <> [] -> check_brackets n0 = Ok tt) /\
            (n0 <> [] -> match rest with
                         | [] => True
                         | c :: _ => is_netloc_delim c = true
                         end) /\
            incl n0 r /\ incl rest r).
  { intros n0 rest. subst nl. destruct (startswith r (py "//")).
    - unfold splitnetloc.
      assert (Hr2 : incl (skipn 2 r) r) by (intros c Hc; now apply (In_skipn c 2)).
      revert Hr2. generalize (skipn 2 r). intros r2 Hr2.
      pose proof (takewhile_dropwhile (fun c => negb (is_netloc_delim c)) r2)
        as Htd.
      pose proof (dropwhile_head (fun c => negb (is_netloc_delim c)) r2) as Hh.
      cbv zeta.
      destruct (check_brackets _) as [[]|e] eqn:Ebr; [|discriminate].
      cbn [bind]. intros Heq. injection Heq as <- <-.
      split; [apply takewhile_forallb|]. split; [intros _; exact Ebr|].
      split.
      + intros _.
        destruct (dropwhile _ r2) as [|c t]; [exact I|].
        now apply negb_false_iff in Hh.
      + split; intros c Hc; apply Hr2; rewrite <- Htd;
          apply in_or_app; [now left | now right].
    - intros [= <- <-]. split; [reflexivity|]. split; [easy|].
      split; [easy|]. split; [easy | apply incl_refl]. }
  fold nl. destruct nl as [[n0 rest]|e]; [|discriminate].
  specialize (Hnl n0 rest eq_refl).
  destruct Hnl as (Hnd & Hbr & Hhead & Hn0r & Hrestr).
  cbn [bind].
  destruct (cut_spec "#" rest) as [Hha Hrest].
  destruct (cut "#" rest) as [a f0]. cbn [fst snd] in Hha, Hrest.
  destruct (cut_spec "?" a) as [Hqp Ha].
  destruct (cut "?" a) as [p0 q0]. cbn [fst snd] in Hqp, Ha.
  intros [= <- <- <- <- <-].
  assert (Har : incl a rest).
  { intros c Hc. destruct Hrest as [->|[-> _]]; [|exact Hc].
    apply in_or_app. now left. }
  assert (Hpa : incl p0 a /\ incl q0 a).
  { destruct Ha as [Ha|[Ha ->]].
    - split; intros c Hc; rewrite Ha; apply in_or_app;
        [now left | right; now right].
    - split; [now subst | easy]. }
  destruct Hpa as [Hpa Hqa].
  assert (Hav : incl a v).
  { eapply incl_tran; [exact Har|]. eapply incl_tran; eassumption. }
  split; [exact Hs|]. split; [exact Hnd|]. split; [exact Hbr|].
  split.
  { intros Hne. specialize (Hhead Hne).
    destruct p0 as [|c p1]; [now left|]. right.
    assert (Hca : exists a', a = c :: a').
    { destruct Ha as [->|[-> _]]; [now exists (p1 ++ "?"%char :: q0)
                                  | now exists p1]. }
    destruct Hca as [a' ->].
    assert (Hcr : exists r', rest = c :: r').
    { destruct Hrest as [->|[-> _]]; [now exists (a' ++ "#"%char :: f0)
                                     | now exists a']. }
    destruct Hcr as [r' ->].
    assert (Hc1 : c <> "?"%char) by (intros ->; apply Hqp; now left).
    assert (Hc2 : c <> "#"%char) by (intros ->; apply Hha; now left).
    unfold is_netloc_delim in Hhead. cbn [py list_ascii_of_string char_in existsb]
      in Hhead.
    destruct (Ascii.eqb c "/") eqn:E1.
    - apply Ascii.eqb_eq in E1. subst c. exact (startswith_app (py "/") p1).
    - destruct (Ascii.eqb c "?") eqn:E2;
        [apply Ascii.eqb_eq in E2; contradiction|].
      destruct (Ascii.eqb c "#") eqn:E3;
        [apply Ascii.eqb_eq in E3; contradiction|].
      discriminate Hhead. }
  split; [exact Hqp|].
  split; [intros Hin; apply Hha; now apply Hpa|].
  split; [intros Hin; apply Hha; now apply Hqa|].
  split; [apply (safe_text_incl _ v); [|exact Hv];
          eapply incl_tran; eassumption|].
  split; [apply (safe_text_incl _ v); [|exact Hv];
          eapply incl_tran; eassumption|].
  split; [apply (safe_text_incl _ v); [|exact Hv];
          eapply incl_tran; eassumption|].
  eapply incl_tran; [exact Hpa|]. eapply incl_tran; eassumption.
Qed.

(** *** The normalized components *)

Lemma lstrip_head_stop chars (s : str) :
  match lstrip chars s with [] => True | c :: _ => char_in c chars = false end.
Proof.
  induction s as [|c t IH]; [exact I|]. cbn [lstrip].
  destruct (char_in c chars) eqn:E; [exact IH | exact E].
Qed.

Lemma rstrip_prefix chars (s : str) : exists t, s = rstrip chars s ++ t.
Proof.
  unfold rstrip. destruct (lstrip_suffix chars (rev s)) as [pre Hpre].
  exists (rev pre). rewrite <- rev_app_distr, <- Hpre. now rewrite rev_involutive.
Qed.

Lemma rstrip_idem chars (s : str) :
  rstrip chars (rstrip chars s) = rstrip chars s.
Proof.
  unfold rstrip. rewrite rev_involutive. f_equal.
  apply lstrip_id. apply lstrip_head_stop.
Qed.

Lemma normalize_path_idem p : normalize_path (normalize_path p) = normalize_path p.
Proof.
  unfold normalize_path at 2 3.
  destruct (rstrip (py "/") p) as [|c t] eqn:E; [reflexivity|].
  assert (Hr : rstrip (py "/") (c :: t) = c :: t)
    by (rewrite <- E; apply rstrip_idem).
  unfold normalize_path. now rewrite Hr.
Qed.

Lemma normalize_path_incl p : incl (normalize_path p) ("/"%char :: p).
Proof.
  unfold normalize_path. destruct (rstrip_prefix (py "/") p) as [t Ht].
  destruct (rstrip (py "/") p) as [|c r].
  - intros x [<-|[]]. now left.
  - intros x Hx. right. rewrite Ht. apply in_or_app. now left.
Qed.

Lemma normalize_path_slash p :
  p = [] \/ startswith p (py "/") = true ->
  startswith (normalize_path p) (py "/") = true.
Proof.
  intros Hp. unfold normalize_path. destruct (rstrip_prefix (py "/") p) as [t Ht].
  destruct (rstrip (py "/") p) as [|c r]; [reflexivity|].
  destruct Hp as [->|Hp]; [discriminate|].
  rewrite Ht in Hp. cbn [app py list_ascii_of_string startswith] in Hp.
  apply andb_true_iff in Hp. destruct Hp as [Hc _].
  apply Ascii.eqb_eq in Hc. subst c. exact (startswith_app (py "/") r).
Qed.

Lemma forallb_join (P : ascii -> bool) sep parts :
  forallb P sep = true ->
  Forall (fun p => forallb P p = true) parts ->
  forallb P (join sep parts) = true.
Proof.
  intros Hsep Hall. induction Hall as [|p rest Hp Hrest IH]; [reflexivity|].
  cbn [join]. destruct rest as [|p' rest']; [exact Hp|].
  rewrite !forallb_app, Hp, Hsep. exact IH.
Qed.



Lemma urlencode_chars d : forallb is_query_char (urlencode d) = true.
Proof.
  unfold urlencode. apply forallb_join; [reflexivity|].
  apply Forall_forall. intros x Hx. apply in_flat_map in Hx.
  destruct Hx as [[k vs] [_ Hx]]. apply in_map_iff in Hx.
  destruct Hx as [v [<- _]]. cbn [fst].
  assert (Hq : forall t, forallb is_query_char (quote_plus t) = true).
  { intros t. eapply forallb_impl; [|apply quote_plus_quoted].
    intros c Hc. unfold is_query_char. now rewrite Hc. }
  rewrite !forallb_app, !Hq. reflexivity.
Qed.

Lemma normalize_query_chars T q :
  forallb is_query_char (normalize_query T q) = true.
Proof.
  unfold normalize_query. destruct q; [reflexivity|].
  destruct (filter _ _) eqn:E; [reflexivity|]. apply urlencode_chars.
Qed.

Lemma normalize_query_idem T q :
  normalize_query T (normalize_query T q) = normalize_query T q.
Proof.
  unfold normalize_query at 2 3. destruct q as [|c q']; [reflexivity|].
  set (f := fun kv : str * list str => negb (str_in (lower (fst kv)) T)).
  set (ps := filter f (parse_qs (c :: q'))).
  assert (Hok : qdict_ok ps) by (apply filter_qdict_ok, parse_qs_ok).
  assert (Hidem : filter f ps = ps) by apply filter_idem.
  destruct ps as [|kv ps'] eqn:Ep; [reflexivity|]. rewrite <- Ep in *.
  unfold normalize_query. destruct (urlencode ps) eqn:Eu; [reflexivity|].
  rewrite <- Eu. rewrite (parse_qs_urlencode_ok ps Hok).
  fold f. rewrite Hidem. rewrite Ep. reflexivity.
Qed.

Lemma scheme_ok_lower s : scheme_ok s -> lower s = s.
Proof. intros [->|(_ & _ & Hl)]; [reflexivity | exact Hl]. Qed.

Lemma not_In_char_in c (s : str) : ~ In c s <-> char_in c s = false.
Proof.
  rewrite <- (char_in_In c s). destruct (char_in c s); split; congruence.
Qed.

Lemma lower_nonempty n : n <> [] -> lower n <> [].
Proof. now destruct n. Qed.

Lemma safe_text_lower n : safe_text n -> safe_text (lower n).
Proof.
  unfold safe_text. intros Hn. rewrite forallb_lower; [exact Hn|].
  intros c. f_equal. apply lower_char_facts.
Qed.

(** The parse of a normalized URL, for a URL with a host and without
    [';']. *)
Lemma normalize_url_parse `{UrlLib} (T : list str) (url : str) parsed :
  urlparse url = Ok parsed ->
  netloc parsed <> [] ->
  char_in ";" url = false ->
  params parsed = [] /\
  urlparse (urlunparse (lower (scheme parsed)) (lower (netloc parsed))
              (normalize_path (path parsed)) []
              (normalize_query T (query parsed)) [])
    = Ok {| scheme := lower (scheme parsed);
            netloc := lower (netloc parsed);
            path := normalize_path (path parsed);
            params := [];
            query := normalize_query T (query parsed);
            fragment := [] |}.
Proof.
  intros Hparse Hnet Hsemi. unfold urlparse in Hparse.
  destruct (urlsplit url) as [[[[[s n] p] q] f]|e] eqn:Es; [|discriminate].
  cbn [bind] in Hparse.
  destruct (urlsplit_components url s n p q f Es)
    as (Hs & Hnd & Hbr & Hslash & Hq1 & Hh1 & Hh2 & Hsn & Hsp & Hsq & Hincl).
  assert (Hp : char_in ";" p = false).
  { apply not_In_char_in. intros Hin. apply Hincl in Hin.
    apply char_in_In in Hin. congruence. }
  rewrite Hp, andb_false_r in Hparse. injection Hparse as <-.
  cbn [scheme netloc path params query fragment] in *.
  split; [reflexivity|].
  pose proof (normalize_path_incl p) as Hnp.
  assert (Hnot : forall x, x <> "/"%char -> ~ In x p ->
                           ~ In x (normalize_path p)).
  { intros x Hx Hxp Hin. apply Hnp in Hin. destruct Hin as [Heq|Hin];
      [now apply Hx | now apply Hxp]. }
  unfold urlunparse. cbn [nonempty].
  rewrite urlunsplit_netloc;
    [|now apply lower_nonempty | now apply normalize_path_slash, Hslash].
  unfold urlparse. rewrite urlsplit_rebuilt.
  - cbn [bind].
    assert (Hp' : char_in ";" (normalize_path p) = false).
    { apply not_In_char_in. apply Hnot; [discriminate|].
      now apply not_In_char_in. }
    now rewrite Hp', andb_false_r.
  - now rewrite (scheme_ok_lower s Hs).
  - now apply lower_nonempty.
  - rewrite forallb_lower; [exact Hnd|].
    intros c. f_equal. apply lower_char_facts.
  - now apply check_brackets_lower, Hbr.
  - now apply normalize_path_slash, Hslash.
  - apply Hnot; [discriminate | exact Hq1].
  - apply Hnot; [discriminate | exact Hh1].
  - apply (forallb_In_false is_query_char);
      [apply normalize_query_chars | reflexivity].
  - now apply safe_text_lower.
  - apply (safe_text_incl _ ("/"%char :: p)); [exact Hnp|].
    unfold safe_text. cbn [forallb]. exact Hsp.
  - unfold safe_text. eapply forallb_impl; [|apply (normalize_query_chars T q)].
    intros c Hc. apply quoted_char_facts in Hc. destruct Hc as [_ ->].
    reflexivity.
Qed.

(** X26. [normalize_url] is idempotent on the URLs it keys: for a URL that
    parses, has a host and holds no [';'], [normalize_url] returns a URL
    [u], and [normalize_url u] returns [u] again.  (For queries whose
    decoded names and values are ASCII.) *)
Theorem normalize_url_idempotent `{UrlLib} (T : list str) (url : str) parsed :
  urlparse url = Ok parsed ->
  netloc parsed <> [] ->
  char_in ";" url = false ->
  is_ascii_qdict (parse_qs (query parsed)) = true ->
  exists u, normalize_url T url = Ok u /\ normalize_url T u = Ok u.
Proof.
  intros Hparse Hnet Hsemi _.
  destruct (normalize_url_parse T url parsed Hparse Hnet Hsemi) as [Hpar Hu].
  eexists. split.
  - unfold normalize_url. rewrite Hparse. cbn [bind]. rewrite Hpar.
    reflexivity.
  - unfold normalize_url. rewrite Hu. cbn [bind scheme netloc path params query].
    now rewrite !lower_idem, normalize_path_idem, normalize_query_idem.
Qed.

Lemma normalize_url_idempotent_witness :
  exists u,
    @normalize_url permissive_lib [py "utm_source"]
      (py "HTTPS://Example.COM:8080/a/b//?utm_source=x&q=1%202&q=3#top") = Ok u /\
    @normalize_url permissive_lib [py "utm_source"] u = Ok u.
Proof.
  apply (@normalize_url_idempotent permissive_lib [py "utm_source"]
           (py "HTTPS://Example.COM:8080/a/b//?utm_source=x&q=1%202&q=3#top")
           {| scheme := py "https"; netloc := py "Example.COM:8080";
              path := py "/a/b//"; params := [];
              query := py "utm_source=x&q=1%202&q=3"; fragment := py "top" |}).
  - vm_compute. reflexivity.
  - discriminate.
  - vm_compute. reflexivity.
  - vm_compute. reflexivity.
Defined.

(** ** The directories of a path *)

(** The chain of the parents ends at a path that is its own parent: the
    root or [.]. *)
Lemma path_parent_shorter p :
  path_parent p = p \/
  path_parent (path_parent p) = path_parent p \/
  length (path_parent p) < length p.
Proof.
  destruct (char_in "/"%char p) eqn:Es.
  - destruct (cut_spec "/"%char (rev p)) as [_ Hc].
    destruct (rev (snd (cut "/"%char (rev p)))) as [|c head] eqn:Eh.
    + assert (Hpp : path_parent p = py "/")
        by (unfold path_parent; now rewrite Es, Eh).
      right. left. now rewrite Hpp.
    + assert (Hpp : path_parent p = rev (snd (cut "/"%char (rev p))))
        by (unfold path_parent; now rewrite Es, Eh).
      right. right. rewrite Hpp, length_rev.
      destruct Hc as [Hc|[Hc Hn]].
      * apply (f_equal (@length ascii)) in Hc.
        rewrite length_rev, length_app in Hc. cbn [length] in Hc.
        unfold str in *. lia.
      * rewrite Hn in Eh. discriminate Eh.
  - assert (Hpp : path_parent p = py ".")
      by (unfold path_parent; now rewrite Es).
    right. left. now rewrite Hpp.
Qed.

Lemma last_cons_default {A} (l : list A) : forall x d, last (x :: l) d = last l x.
Proof.
  induction l as [|y l IH]; intros x d; [reflexivity|].
  change (last (x :: y :: l) d) with (last (y :: l) d).
  rewrite (IH y d). symmetry. apply (IH y x).
Qed.

Lemma parents_from_complete fuel :
  forall p, length p < fuel ->
  path_parent (last (parents_from fuel p) p) = last (parents_from fuel p) p.
Proof.
  induction fuel as [|fuel IH]; intros p Hlen; [inversion Hlen|].
  cbn [parents_from]. cbv zeta.
  destruct (str_eqb (path_parent p) p) eqn:E;
    [apply str_eqb_eq in E; exact E|].
  set (q := path_parent p) in *.
  rewrite last_cons_default.
  destruct (path_parent_shorter p) as [Hp|[Hp|Hp]]; fold q in Hp.
  - rewrite Hp, str_eqb_refl in E. discriminate E.
  - destruct fuel as [|fuel']; [exact Hp|].
    cbn [parents_from]. cbv zeta. rewrite Hp, str_eqb_refl. exact Hp.
  - apply IH. unfold str in *. lia.
Qed.

Lemma path_parents_complete p :
  path_parent (last (path_parents p) p) = last (path_parents p) p.
Proof. apply parents_from_complete. unfold str in *. lia. Qed.

(** ** [same_domain] on host names *)

Lemma label_char_facts c :
  is_label_char c = true ->
  host_char c = true /\ c <> "."%char /\ c <> ":"%char /\
  is_label_char (lower_char c) = true.
Proof.
  destruct c as [[] [] [] [] [] [] [] []]; vm_compute;
    repeat split; congruence.
Qed.

Lemma port_char_facts c :
  in_range 48 57 (cp c) = true ->
  host_char c = true /\ c <> "."%char /\ lower_char c = c.
Proof.
  destruct c as [[] [] [] [] [] [] [] []]; vm_compute;
    repeat split; congruence.
Qed.

Lemma label_no c l :
  (forall x, is_label_char x = true -> x <> c) ->
  is_label l = true -> ~ In c l.
Proof.
  intros Hc Hl Hin. unfold is_label in Hl. apply andb_true_iff in Hl.
  destruct Hl as [_ Hl]. rewrite forallb_forall in Hl.
  apply (Hc c); [now apply Hl | reflexivity].
Qed.

Lemma label_no_dot l : is_label l = true -> ~ In "."%char l.
Proof. apply label_no. intros x Hx. apply label_char_facts in Hx. tauto. Qed.

Lemma label_no_colon l : is_label l = true -> ~ In ":"%char l.
Proof. apply label_no. intros x Hx. apply label_char_facts in Hx. tauto. Qed.

Lemma lower_label l : is_label l = true -> is_label (lower l) = true.
Proof.
  unfold is_label. intros Hl. apply andb_true_iff in Hl. destruct Hl as [Hn Hl].
  apply andb_true_iff. split; [now destruct l|].
  rewrite forallb_forall in *. intros x Hx. apply in_map_iff in Hx.
  destruct Hx as [y [<- Hy]]. apply label_char_facts. now apply Hl.
Qed.

Lemma lower_labels ls :
  forallb is_label ls = true -> forallb is_label (map lower ls) = true.
Proof.
  intros Hl. rewrite forallb_forall in *. intros x Hx.
  apply in_map_iff in Hx. destruct Hx as [y [<- Hy]].
  apply lower_label. now apply Hl.
Qed.

Lemma lower_join ls : lower (join (py ".") ls) = join (py ".") (map lower ls).
Proof.
  induction ls as [|l ls IH]; [reflexivity|].
  destruct ls as [|l' ls']; [reflexivity|].
  change (join (py ".") (l :: l' :: ls'))
    with (l ++ py "." ++ join (py ".") (l' :: ls')).
  rewrite !lower_app, IH. reflexivity.
Qed.

Lemma join_forall (P : ascii -> Prop) sep ls :
  Forall P sep -> Forall (Forall P) ls -> Forall P (join sep ls).
Proof.
  intros Hsep Hall. induction Hall as [|l ls Hl Hls IH]; [constructor|].
  cbn [join]. destruct ls as [|l' ls']; [exact Hl|].
  apply Forall_app. split; [exact Hl|].
  apply Forall_app. split; [exact Hsep | exact IH].
Qed.

Lemma join_labels_no_colon ks :
  forallb is_label ks = true -> ~ In ":"%char (join (py ".") ks).
Proof.
  intros Hl Hin.
  assert (HF : Forall (fun c => c <> ":"%char) (join (py ".") ks)).
  { apply join_forall; [repeat constructor; discriminate|].
    apply Forall_forall. intros l Hlin. apply Forall_forall. intros c Hc ->.
    rewrite forallb_forall in Hl. now apply (label_no_colon l (Hl l Hlin)). }
  rewrite Forall_forall in HF. now apply (HF _ Hin).
Qed.

Lemma labels_no_dot ks :
  forallb is_label ks = true -> Forall (fun p => ~ In "."%char p) ks.
Proof.
  intros Hl. apply Forall_forall. intros l Hlin.
  rewrite forallb_forall in Hl. now apply label_no_dot, Hl.
Qed.

Lemma host_text_chars ls port :
  forallb is_label ls = true ->
  match port with Some p => is_port p | None => true end = true ->
  forallb host_char (host_text ls port) = true.
Proof.
  intros Hl Hp. unfold host_text. rewrite forallb_app.
  apply andb_true_iff. split.
  - apply forallb_forall. apply Forall_forall.
    apply join_forall; [repeat constructor|].
    apply Forall_forall. intros l Hlin. apply Forall_forall. intros c Hc.
    rewrite forallb_forall in Hl. specialize (Hl l Hlin).
    unfold is_label in Hl. apply andb_true_iff in Hl. destruct Hl as [_ Hl].
    rewrite forallb_forall in Hl. now apply label_char_facts, Hl.
  - destruct port as [p|]; [|reflexivity]. cbn [forallb app py list_ascii_of_string].
    change (host_char ":") with true. cbn [andb].
    unfold is_port in Hp. rewrite forallb_forall in *. intros c Hc.
    now apply port_char_facts, Hp.
Qed.

Lemma startswith_incl s p : startswith s p = true -> incl p s.
Proof.
  intros H. apply startswith_prefix in H. destruct H as [t ->].
  intros c Hc. apply in_or_app. now left.
Qed.

Lemma str_eqb_sym a b : str_eqb a b = str_eqb b a.
Proof.
  destruct (str_eqb a b) eqn:E.
  - apply str_eqb_eq in E. subst. symmetry. apply str_eqb_refl.
  - symmetry. apply str_eqb_neq. intros ->. now rewrite str_eqb_refl in E.
Qed.

(** A prefix that ends with the separator matches when the text before the
    first separator is the rest of the prefix. *)
Lemma startswith_snoc_sep c (p a b : str) :
  ~ In c a -> ~ In c p ->
  startswith (a ++ c :: b) (p ++ [c]) = str_eqb p a.
Proof.
  revert a. induction p as [|y p IH]; intros a Ha Hp.
  - destruct a as [|x a]; cbn [app startswith str_eqb].
    + now rewrite Ascii.eqb_refl, startswith_nil.
    + destruct (Ascii.eqb c x) eqn:E; [|reflexivity].
      apply Ascii.eqb_eq in E. subst. exfalso. apply Ha. now left.
  - destruct a as [|x a]; cbn [app startswith str_eqb].
    + destruct (Ascii.eqb y c) eqn:E; [|reflexivity].
      apply Ascii.eqb_eq in E. subst. exfalso. apply Hp. now left.
    + rewrite IH; [reflexivity | |];
        intros Hin; [apply Ha | apply Hp]; now right.
Qed.

Lemma drop_www_labels ks :
  forallb is_label ks = true -> forallb is_label (drop_www ks) = true.
Proof.
  intros Hl. destruct ks as [|w [|x rest]]; [reflexivity|exact Hl|].
  cbn [drop_www]. destruct (str_eqb w (py "www")); [|exact Hl].
  cbn [forallb] in Hl. apply andb_true_iff in Hl. tauto.
Qed.

Lemma strip_labels ks (tail : str) :
  ks <> [] ->
  forallb is_label ks = true ->
  tail = [] \/ (exists p, tail = ":"%char :: p /\ ~ In "."%char p) ->
  hd [] (split ":" (removeprefix (py "www.") (join (py ".") ks ++ tail)))
  = join (py ".") (drop_www ks).
Proof.
  intros Hks Hl' Htail.
  assert (Hstrip : removeprefix (py "www.") (join (py ".") ks ++ tail)
                   = join (py ".") (drop_www ks) ++ tail).
  { destruct ks as [|w [|x rest]]; [contradiction| |].
    - (* one label: no dot in the text *)
      cbn [join drop_www]. unfold removeprefix.
      destruct (startswith (w ++ tail) (py "www.")) eqn:E; [|reflexivity].
      exfalso. apply startswith_incl in E.
      assert (Hdot : In "."%char (w ++ tail)) by (apply E; vm_compute; tauto).
      apply in_app_or in Hdot. destruct Hdot as [Hdot|Hdot].
      + cbn [forallb] in Hl'. apply andb_true_iff in Hl'.
        now apply (label_no_dot w (proj1 Hl')).
      + destruct Htail as [->|(p & -> & Hp')]; [contradiction|].
        destruct Hdot as [Hdot|Hdot]; [discriminate | contradiction].
    - cbn [forallb] in Hl'. apply andb_true_iff in Hl'. destruct Hl' as [Hw Hl'].
      change (join (py ".") (w :: x :: rest))
        with (w ++ "."%char :: join (py ".") (x :: rest)).
      rewrite <- app_assoc. cbn [app].
      unfold removeprefix.
      change (py "www.") with (py "www" ++ ["."%char]).
      rewrite startswith_snoc_sep;
        [|now apply label_no_dot
         |vm_compute; intros H; repeat (destruct H as [H|H]; [discriminate|]);
          exact H].
      cbn [drop_www]. rewrite (str_eqb_sym w (py "www")).
      destruct (str_eqb (py "www") w) eqn:E.
      + apply str_eqb_eq in E. subst w. reflexivity.
      + change (join (py ".") (w :: x :: rest))
          with (w ++ "."%char :: join (py ".") (x :: rest)).
        now rewrite <- app_assoc. }
  rewrite Hstrip.
  pose proof (join_labels_no_colon _ (drop_www_labels ks Hl')) as Hcolon.
  destruct Htail as [->|(p & -> & _)].
  - rewrite app_nil_r. now apply split_hd_none.
  - now apply split_hd_sep.
Qed.

(** What [get_base_domain] works on: the lower-cased labels of the host
    without the port and without one leading [www]. *)
Lemma strip_host_labels ls port :
  ls <> [] ->
  forallb is_label ls = true ->
  match port with Some p => is_port p | None => true end = true ->
  strip_host (host_text ls port) = join (py ".") (drop_www (map lower ls)).
Proof.
  intros Hne Hl Hp. unfold strip_host, host_text.
  rewrite lower_app, lower_join.
  apply strip_labels; [now destruct ls | now apply lower_labels |].
  destruct port as [p|]; [|now left]. right.
  exists (lower p). split; [reflexivity|].
  intros Hin. apply in_map_iff in Hin. destruct Hin as [c [Hc Hin]].
  unfold is_port in Hp. rewrite forallb_forall in Hp.
  destruct (port_char_facts c (Hp c Hin)) as (_ & Hdot & Hlow).
  rewrite Hlow in Hc. now apply Hdot.
Qed.

Lemma drop_www_nonempty ks : ks <> [] -> drop_www ks <> [].
Proof.
  destruct ks as [|w [|x rest]]; [contradiction|discriminate|].
  intros _. cbn [drop_www]. destruct (str_eqb w (py "www")); discriminate.
Qed.

Lemma get_base_domain_labels ls port :
  ls <> [] ->
  forallb is_label ls = true ->
  match port with Some p => is_port p | None => true end = true ->
  get_base_domain (host_text ls port)
    = registrable_domain (drop_www (map lower ls)).
Proof.
  intros Hne Hl Hp. unfold get_base_domain. cbv zeta.
  rewrite (strip_host_labels ls port Hne Hl Hp).
  set (ks := drop_www (map lower ls)).
  assert (Hks : ks <> [])
    by (apply drop_www_nonempty; now destruct ls).
  assert (Hlk : forallb is_label ks = true)
    by (apply drop_www_labels, lower_labels, Hl).
  change (py ".") with ["."%char].
  rewrite (split_join "." ks Hks (labels_no_dot ks Hlk)).
  unfold registrable_domain. change (py ".") with ["."%char].
  destruct ((3 <=? length ks)
            && str_in (join ["."%char] (last_n 2 ks)) CCLD_SUFFIXES);
    [reflexivity|].
  destruct (2 <=? length ks) eqn:E2; [reflexivity|].
  apply Nat.leb_gt in E2. rewrite last_n_short by lia. reflexivity.
Qed.

(** C5. For http and https URLs whose host is made of labels (letters,
    digits, hyphens) separated by dots, with or without a port,
    [same_domain] lower-cases the labels, leaves out one leading [www] and
    compares the last three labels when the last two form one of the
    listed two-label suffixes, otherwise the last two.  tower.co.nz and
    shop.tower.co.nz are the same domain, tower.co.nz and other.co.nz are
    not; two such hosts whose compared labels end in the same listed
    suffix, with different labels before it, are never the same domain. *)
Theorem same_domain_cctld `{UrlLib} :
  (forall sch1 sch2 ls1 ls2 port1 port2 rest1 rest2,
     In sch1 [py "http"; py "https"] ->
     In sch2 [py "http"; py "https"] ->
     ls1 <> [] -> ls2 <> [] ->
     forallb is_label ls1 = true -> forallb is_label ls2 = true ->
     match port1 with Some p => is_port p | None => true end = true ->
     match port2 with Some p => is_port p | None => true end = true ->
     match rest1 with [] => true | c :: _ => is_netloc_delim c end = true ->
     match rest2 with [] => true | c :: _ => is_netloc_delim c end = true ->
     same_domain (sch1 ++ py "://" ++ host_text ls1 port1 ++ rest1)
                 (sch2 ++ py "://" ++ host_text ls2 port2 ++ rest2)
     = Ok (str_eqb (registrable_domain (drop_www (map lower ls1)))
                   (registrable_domain (drop_www (map lower ls2)))) /\
     (forall pre1 pre2 a b s1 s2,
        drop_www (map lower ls1) = pre1 ++ [a; s1; s2] ->
        drop_www (map lower ls2) = pre2 ++ [b; s1; s2] ->
        str_in (join (py ".") [s1; s2]) CCLD_SUFFIXES = true ->
        a <> b ->
        same_domain (sch1 ++ py "://" ++ host_text ls1 port1 ++ rest1)
                    (sch2 ++ py "://" ++ host_text ls2 port2 ++ rest2)
        = Ok false)) /\
  same_domain (py "https://tower.co.nz/a") (py "https://shop.tower.co.nz/b")
    = Ok true /\
  same_domain (py "https://tower.co.nz/a") (py "https://other.co.nz/b")
    = Ok false.
Proof.
  split; [|split; reflexivity].
  intros sch1 sch2 ls1 ls2 port1 port2 rest1 rest2
         Hs1 Hs2 Hn1 Hn2 Hl1 Hl2 Hp1 Hp2 Hr1 Hr2.
  assert (Heq : same_domain (sch1 ++ py "://" ++ host_text ls1 port1 ++ rest1)
                            (sch2 ++ py "://" ++ host_text ls2 port2 ++ rest2)
                = Ok (str_eqb (registrable_domain (drop_www (map lower ls1)))
                              (registrable_domain (drop_www (map lower ls2))))).
  { unfold same_domain.
    destruct (urlparse_http_netloc sch1 (host_text ls1 port1) rest1 Hs1
                (host_text_chars ls1 port1 Hl1 Hp1) Hr1) as (p1 & Hq1 & _ & Hh1).
    destruct (urlparse_http_netloc sch2 (host_text ls2 port2) rest2 Hs2
                (host_text_chars ls2 port2 Hl2 Hp2) Hr2) as (p2 & Hq2 & _ & Hh2).
    rewrite Hq1. cbn [bind]. rewrite Hq2. cbn [bind]. rewrite Hh1, Hh2.
    now rewrite !get_base_domain_labels. }
  split; [exact Heq|].
  intros pre1 pre2 a b s1 s2 Hk1 Hk2 Hsuf Hab.
  rewrite Heq, Hk1, Hk2. f_equal. unfold registrable_domain.
  assert (Hlen : forall pre (x : str),
            (3 <=? length (pre ++ [x; s1; s2])) = true).
  { intros pre x. apply Nat.leb_le. rewrite length_app. cbn [length]. lia. }
  rewrite !Hlen. cbn [andb].
  change (pre1 ++ [a; s1; s2]) with (pre1 ++ [a] ++ [s1; s2]).
  change (pre2 ++ [b; s1; s2]) with (pre2 ++ [b] ++ [s1; s2]).
  rewrite !app_assoc.
  rewrite !(last_n_app 2) by reflexivity.
  rewrite Hsuf. rewrite <- !app_assoc.
  rewrite !(last_n_app 3) by reflexivity.
  apply str_eqb_neq. simpl. intros Heq'.
  apply app_inv_tail in Heq'. contradiction.
Qed.

Lemma same_domain_cctld_witness :
  same_domain (H := permissive_lib)
    (py "https" ++ py "://"
     ++ host_text [py "WWW"; py "Tower"; py "co"; py "nz"] None ++ py "/a")
    (py "http" ++ py "://"
     ++ host_text [py "claims"; py "other"; py "co"; py "nz"] (Some (py "8443"))
     ++ py "/b?x=1")
  = Ok false.
Proof.
  apply (proj2 (proj1 (same_domain_cctld (H := permissive_lib))
                  (py "https") (py "http")
                  [py "WWW"; py "Tower"; py "co"; py "nz"]
                  [py "claims"; py "other"; py "co"; py "nz"]
                  None (Some (py "8443")) (py "/a") (py "/b?x=1")
                  ltac:(vm_compute; tauto) ltac:(vm_compute; tauto)
                  ltac:(discriminate) ltac:(discriminate)
                  ltac:(reflexivity) ltac:(reflexivity)
                  ltac:(reflexivity) ltac:(reflexivity)
                  ltac:(reflexivity) ltac:(reflexivity))
           [] [py "claims"] (py "tower") (py "other") (py "co") (py "nz")).
  - reflexivity.
  - reflexivity.
  - reflexivity.
  - discriminate.
Defined.

(** C5, where the claim as written fails: distinct organizations under
    a two-label suffix that is not listed (ac.uk) are the same domain for
    [same_domain], and so are hosts under a listed suffix when they are
    written with a trailing dot, or with credentials before the host. *)
Theorem same_domain_cctld_overmatch :
  same_domain (H := permissive_lib)
    (py "https://oxford.ac.uk/") (py "https://cambridge.ac.uk/") = Ok true /\
  same_domain (H := permissive_lib)
    (py "https://tower.co.nz./a") (py "https://other.co.nz./b") = Ok true /\
  same_domain (H := permissive_lib)
    (py "https://x:1@tower.co.nz/") (py "https://x:2@other.co.nz/") = Ok true.
Proof. vm_compute. repeat split. Qed.

(** ** The refreshed record and the session *)

(** C1. The step that refreshes a record in place does not continue with
    the next candidate.  A download whose digest is the one of record 1,
    whose file is missing on disk: the record is updated in place and the
    update committed, no record is added, and the step then raises
    [UnboundLocalError], from [download_count += 1], which the handler of
    the [try] does not catch. *)
Theorem refresh_in_place_raises :
  let env := {| db_query := Ok tt; db_commit_refresh := Ok tt;
                db_commit_error := Ok tt; os_unlink := Ok tt |} in
  let counters := {| downloaded_count := 2; filtered_count := 0;
                     duplicate_count := 0; error_count := 0;
                     errors_count := None |} in
  let other := {| doc_id := 2; doc_file_hash := py "def";
                  doc_local_file_path := Some (py "/data/raw/A/home.pdf");
                  doc_source_url := py "https://a.nz/home.pdf";
                  doc_file_size := 9; doc_crawl_session_id := 3 |} in
  handle_download env 7 (py "https://a.nz/car.pdf") (py "/data/raw/A/car.pdf")
    (Some {| file_size := 8; file_hash := py "abc" |})
    (fun st => (Ok tt, st))
    {| documents := [{| doc_id := 1; doc_file_hash := py "abc";
                        doc_local_file_path := Some (py "/data/raw/A/old.pdf");
                        doc_source_url := py "https://a.nz/old.pdf";
                        doc_file_size := 5; doc_crawl_session_id := 3 |};
                     other];
       files := [py "/data/raw/A/car.pdf"; py "/data/raw/A/home.pdf"];
       tally := counters |}
  = (Raise UnboundLocalError,
     {| documents := [{| doc_id := 1; doc_file_hash := py "abc";
                         doc_local_file_path := Some (py "/data/raw/A/car.pdf");
                         doc_source_url := py "https://a.nz/car.pdf";
                         doc_file_size := 8; doc_crawl_session_id := 7 |};
                      other];
        files := [py "/data/raw/A/car.pdf"; py "/data/raw/A/home.pdf"];
        tally := counters |}).
Proof. vm_compute. reflexivity. Qed.

(** ** The page budget of a session *)

(** C3. With [max_pages] at least 1 the [pages_scanned] of a session
    never exceeds [max_pages]: it does not after the loop over the seeds,
    where it is the sum of the page counts returned by [crawl_domain], and
    the accounts of the budget, which bound it, hold after any number of
    seeds from any state in which they hold. *)
Theorem pages_scanned_within_max_pages `{UrlLib} (cfg : Config) (w : CrawlWorld)
    (db_commit : nat -> result unit) (session_id max_pages : Z)
    (seed_urls keyword_filters policy_types : list str)
    (time_limit : option Z) (row : SessionProgress) (cache : robots_cache)
    (logs : log_store) (tick : nat) :
  (1 <= max_pages)%Z ->
  (pages_scanned row <= max_pages)%Z ->
  (forall st,
     crawl_seeds cfg w db_commit session_id max_pages seed_urls keyword_filters
                 policy_types time_limit row cache logs tick = Ok st ->
     (pages_scanned (session_row st) <= max_pages)%Z /\
     (0 <= total_pages st <= max_pages)%Z /\
     (pages_scanned (session_row st) = total_pages st \/ session_row st = row)) /\
  (forall seeds idx st st',
     budget_accounts max_pages row st ->
     seeds_loop cfg w db_commit session_id keyword_filters policy_types
                time_limit (Z.of_nat (length seed_urls))
                (Z.max 3 (max_pages / Z.max 1 (Z.of_nat (length seed_urls))))
                idx seeds st = Ok st' ->
     budget_accounts max_pages row st' /\
     (pages_scanned (session_row st') <= max_pages)%Z).
Proof.
  intros Hmax Hrow.
  assert (Hbound : forall st, budget_accounts max_pages row st ->
                              (pages_scanned (session_row st) <= max_pages)%Z).
  { intros st (Htot & _ & [Hp| ->]); [|exact Hrow]. rewrite Hp. lia. }
  assert (Hloop : forall seeds idx st st',
            budget_accounts max_pages row st ->
            seeds_loop cfg w db_commit session_id keyword_filters policy_types
                       time_limit (Z.of_nat (length seed_urls))
                       (Z.max 3 (max_pages / Z.max 1 (Z.of_nat (length seed_urls))))
                       idx seeds st = Ok st' ->
            budget_accounts max_pages row st').
  { intros seeds idx st st' Ha Hrun.
    eapply (seeds_loop_accounts cfg w db_commit session_id max_pages
              keyword_filters policy_types time_limit _ _ row);
      [apply Z.le_max_l | exact Ha | exact Hrun]. }
  split.
  - intros st Hrun. unfold crawl_seeds in Hrun.
    apply Hloop in Hrun.
    + split; [now apply Hbound|]. destruct Hrun as (Htot & _ & Hp).
      split; [lia | exact Hp].
    + unfold budget_accounts. cbn. split; [lia|]. split; [lia|]. now right.
  - intros seeds idx st st' Ha Hrun.
    assert (Ha' := Hloop seeds idx st st' Ha Hrun).
    split; [exact Ha' | now apply Hbound].
Qed.

Lemma pages_scanned_within_max_pages_witness :
  exists st,
    crawl_seeds (H := permissive_lib) example_config example_world
      (fun _ => Ok tt) 7 2 [py "https://a.nz/"; py "https://a.nz/x.pdf"] [] []
      None {| pages_scanned := 0; pdfs_found := 0; progress_pct := 0 |} [] [] 0
    = Ok st /\
    (pages_scanned (session_row st) <= 2)%Z.
Proof.
  destruct (crawl_seeds (H := permissive_lib) example_config example_world
              (fun _ => Ok tt) 7 2 [py "https://a.nz/"; py "https://a.nz/x.pdf"]
              [] [] None
              {| pages_scanned := 0; pdfs_found := 0; progress_pct := 0 |}
              [] [] 0) as [st|e] eqn:Hrun.
  - exists st. split; [reflexivity|].
    apply (proj1 (pages_scanned_within_max_pages (H := permissive_lib)
                    example_config example_world (fun _ => Ok tt) 7 2
                    [py "https://a.nz/"; py "https://a.nz/x.pdf"] [] [] None
                    {| pages_scanned := 0; pdfs_found := 0; progress_pct := 0 |}
                    [] [] 0 ltac:(lia) ltac:(cbn; lia)) st Hrun).
  - exfalso. vm_compute in Hrun. discriminate Hrun.
Defined.

(** ** The normal form of a URL *)






